(** * A2A task-execution core: storage adapters, dispatch, event channel

    A shallow embedding of the agent-to-agent (A2A) core of the
    inngest-hitl repository:

    - [src/lib/a2a/schemas/parts.ts]            the zod schemas of [Part] and [File];
    - [src/lib/a2a/storage/adapters/memory]     [MemoryStorageAdapter];
    - [src/lib/a2a/storage/adapters/drizzle]    [DrizzleStorageAdapter];
    - [src/lib/a2a/core.ts]                     [createA2A], [findExecutor],
                                                [extractInput], [createExecutorContext];
    - [src/lib/a2a/integrations/nextjs/sse.ts]  [createSSEHandler], [sendSSEEvent];
    - [src/lib/a2a/schemas/message.ts], [json-rpc.ts]
                                                the zod schemas of a request;
    - [src/lib/a2a/integrations/nextjs/handler.ts]
                                                [handlePostRequest] and the handlers
                                                of the three methods;
    - [src/lib/a2a/integrations/redis]          [createRedisSSEEventSender],
                                                [createRedisSSEHandler].

    Conventions.  A JavaScript exception is a value [Err e] of [Res]; code
    that mutates shared objects is written in state-passing style, and an
    exception keeps the mutations made before it was raised.  The two
    sources of non-determinism, [new Date().toISOString()] and
    [crypto.randomUUID()], are explicit arguments ([now], [uuid]). *)

From Stdlib Require Import ZArith Lia.
From stdpp Require Import base option list strings gmap pretty sorting.

Open Scope string_scope.
Open Scope list_scope.
Set Warnings "-register-all,-clear-no-such-hyp".

(** ** Exceptions *)

(** The [Error] objects the modelled code throws, by their message. *)
Inductive Error :=
| NoExecutorFound (extensions : option (list string))
    (* "No executor found for extensions: ..." *)
| MissingIdentifiers
    (* "taskId and contextId are required" *)
| TaskNotFound (taskId : string)
    (* "Task not found: <taskId>" *)
| ZodError
    (* thrown by [schema.parse] *)
| Thrown (message : string).
    (* anything else user code throws *)

Inductive Res (A : Type) :=
| Ok (a : A)
| Err (e : Error).
Arguments Ok {A} a.
Arguments Err {A} e.

(** ** JSON values *)

(** Numbers are restricted to integers. An object is its list of own
    properties in insertion order. *)
Inductive Json :=
| JNull
| JBool (b : bool)
| JNum (n : Z)
| JStr (s : string)
| JArr (items : list Json)
| JObj (fields : list (string * Json)).

Definition Fields := list (string * Json).

(** [obj[k]] on own properties. *)
Fixpoint obj_get (k : string) (fields : Fields) : option Json :=
  match fields with
  | [] => None
  | (k', v) :: rest => if decide (k' = k) then Some v else obj_get k rest
  end.

(** [obj[k] = v]: an existing property keeps its place. *)
Fixpoint obj_set (k : string) (v : Json) (fields : Fields) : Fields :=
  match fields with
  | [] => [(k, v)]
  | (k', v') :: rest =>
      if decide (k' = k) then (k, v) :: rest else (k', v') :: obj_set k v rest
  end.

(** Object spread [{...a, ...b}]. *)
Definition obj_spread (a b : Fields) : Fields :=
  foldl (fun acc kv => obj_set kv.1 kv.2 acc) a b.

Definition hex_digit (n : N) : string :=
  match n with
  | 0 => "0" | 1 => "1" | 2 => "2" | 3 => "3" | 4 => "4" | 5 => "5"
  | 6 => "6" | 7 => "7" | 8 => "8" | 9 => "9" | 10 => "a" | 11 => "b"
  | 12 => "c" | 13 => "d" | 14 => "e" | _ => "f"
  end%N.

(** The escape [JSON.stringify] writes for one character. *)
Definition json_escape (c : Ascii.ascii) : string :=
  let n := Ascii.N_of_ascii c in
  if decide (n = 34)%N then "\" +:+ String c ""
  else if decide (n = 92)%N then "\\"
  else if decide (n = 8)%N then "\b"
  else if decide (n = 12)%N then "\f"
  else if decide (n = 10)%N then "\n"
  else if decide (n = 13)%N then "\r"
  else if decide (n = 9)%N then "\t"
  else if decide (n < 32)%N then "\u00" +:+ hex_digit (n / 16) +:+ hex_digit (n mod 16)
  else String c "".

Fixpoint json_quote_body (s : string) : string :=
  match s with
  | EmptyString => ""
  | String c rest => json_escape c +:+ json_quote_body rest
  end.

Definition json_quote (s : string) : string :=
  String (Ascii.ascii_of_N 34) (json_quote_body s +:+ String (Ascii.ascii_of_N 34) "").

Definition join_comma (l : list string) : string :=
  match l with
  | [] => ""
  | x :: rest => foldl (fun acc y => acc +:+ "," +:+ y) x rest
  end.

(** [JSON.stringify] on JSON values (compact form). *)
Fixpoint JSON_stringify (j : Json) : string :=
  match j with
  | JNull => "null"
  | JBool true => "true"
  | JBool false => "false"
  | JNum n => pretty n
  | JStr s => json_quote s
  | JArr items => "[" +:+ join_comma (map JSON_stringify items) +:+ "]"
  | JObj fields =>
      "{" +:+ join_comma
               (map (fun kv => json_quote (fst kv) +:+ ":" +:+ JSON_stringify (snd kv))
                    fields) +:+ "}"
  end.

(** JavaScript truthiness of an optional string: [undefined], [null] and
    [""] are falsy. *)
Definition truthy (s : option string) : bool :=
  match s with
  | Some s => negb (String.eqb s "")
  | None => false
  end.

(** [a || b] on optional strings. *)
Definition js_or (a b : option string) : option string :=
  if truthy a then a else b.

(** ** Wire vocabulary ([@a2a-js/sdk] types, [src/lib/a2a/schemas]) *)

(** [Role] and the nine task states of [TaskStateSchema]. *)
Inductive Role := agent | user.

Inductive TaskState :=
| submitted | working | input_required | completed | canceled
| failed | rejected | auth_required | unknown.

(** [metadata?: { [k: string]: unknown }]. *)
Definition Metadata := option Fields.

(** [File] is [FileWithBytes | FileWithUri]. *)
Inductive FileContent :=
| FileWithBytes (bytes : string) (mimeType name : option string)
| FileWithUri (uri : string) (mimeType name : option string).

(** [Part], tagged by [kind]. *)
Inductive Part :=
| TextPart (text : string) (metadata : Metadata)
| FilePart (file : FileContent) (metadata : Metadata)
| DataPart (data : Fields) (metadata : Metadata).

Module Message.
Record t := mk {
  messageId : string;
  role : Role;
  parts : list Part;
  contextId : option string;
  taskId : option string;
  extensions : option (list string);
  metadata : Metadata;
}.
End Message.

Module Artifact.
Record t := mk {
  artifactId : string;
  name : option string;
  description : option string;
  parts : list Part;
  extensions : option (list string);
  metadata : Metadata;
}.
End Artifact.

Module TaskStatus.
Record t := mk {
  state : TaskState;
  message : option Message.t;
  timestamp : option string;
}.
End TaskStatus.

Module Task.
Record t := mk {
  id : string;
  contextId : string;
  status : TaskStatus.t;
  artifacts : option (list Artifact.t);
  history : option (list Message.t);
  metadata : Metadata;
}.

(** [task.status = s], [task.history = h], [task.artifacts = a]. *)
Definition set_status (s : TaskStatus.t) (task : t) : t :=
  mk (id task) (contextId task) s (artifacts task) (history task) (metadata task).
Definition set_history (h : list Message.t) (task : t) : t :=
  mk (id task) (contextId task) (status task) (artifacts task) (Some h) (metadata task).
Definition set_artifacts (a : list Artifact.t) (task : t) : t :=
  mk (id task) (contextId task) (status task) (Some a) (history task) (metadata task).
End Task.

(** [A2AEvent = TaskStatusUpdateEvent | TaskArtifactUpdateEvent]. *)
Inductive A2AEvent :=
| StatusUpdate (taskId contextId : string) (status : TaskStatus.t) (final : bool)
| ArtifactUpdate (taskId contextId : string) (artifact : Artifact.t).

Definition event_taskId (ev : A2AEvent) : string :=
  match ev with
  | StatusUpdate taskId _ _ _ => taskId
  | ArtifactUpdate taskId _ _ => taskId
  end.

(** [A2A_EVENT_TYPES] ([constants.ts]). *)
Definition STATUS_UPDATE : string := "status-update".
Definition ARTIFACT_UPDATE : string := "artifact-update".

Definition event_kind (ev : A2AEvent) : string :=
  match ev with
  | StatusUpdate _ _ _ _ => STATUS_UPDATE
  | ArtifactUpdate _ _ _ => ARTIFACT_UPDATE
  end.

(** ** Zod schemas ([schemas/parts.ts])

    A schema is its [safeParse]: [Some] of the parsed value, or [None]
    when validation fails.  [z.object] strips unknown keys, [z.union]
    returns the result of the first option that succeeds. *)
Module Zod.

Definition Schema := Json -> option Json.

(** An entry of an object shape: [.optional()] lets the key be absent. *)
Inductive Field :=
| required (s : Schema)
| optional (s : Schema).

Definition Shape := list (string * Field).

Definition string_ : Schema := fun v =>
  match v with JStr _ => Some v | _ => None end.

(** [z.string().url()]; [is_url] stands for the URL parser of the runtime. *)
Definition string_url (is_url : string -> bool) : Schema := fun v =>
  match v with
  | JStr s => if is_url s then Some v else None
  | _ => None
  end.

Definition literal (l : string) : Schema := fun v =>
  match v with
  | JStr s => if decide (s = l) then Some v else None
  | _ => None
  end.

Definition any : Schema := Some.

(** [z.record(z.unknown())]. *)
Definition record_unknown : Schema := fun v =>
  match v with JObj _ => Some v | _ => None end.

(** Parse the keys of a shape in order; a key that is not in the shape
    never reaches the output. *)
Fixpoint parse_shape (shape : Shape) (input : Fields) : option Fields :=
  match shape with
  | [] => Some []
  | (k, f) :: rest =>
      match obj_get k input, f with
      | None, required _ => None
      | None, optional _ => parse_shape rest input
      | Some v, (required s | optional s) =>
          match s v with
          | None => None
          | Some v' =>
              match parse_shape rest input with
              | None => None
              | Some out => Some ((k, v') :: out)
              end
          end
      end
  end.

Definition object (shape : Shape) : Schema := fun v =>
  match v with
  | JObj input => JObj <$> parse_shape shape input
  | _ => None
  end.

(** [schema.extend({...})] with keys the shape does not have yet. *)
Definition extend (shape extra : Shape) : Shape := shape ++ extra.

Fixpoint union (options : list Schema) : Schema := fun v =>
  match options with
  | [] => None
  | s :: rest =>
      match s v with
      | Some out => Some out
      | None => union rest v
      end
  end.

Section parts.
Variable is_url : string -> bool.

Definition MetadataSchema : Field := optional record_unknown.

Definition TextPartSchema : Schema :=
  object [("kind", required (literal "text"));
          ("text", required string_);
          ("metadata", MetadataSchema)].

Definition FileBaseSchema : Shape :=
  [("mimeType", optional string_); ("name", optional string_)].

(** File (can have either bytes or uri). *)
Definition FileSchema : Schema :=
  union [object (extend FileBaseSchema [("bytes", required string_)]);
         object (extend FileBaseSchema [("uri", required (string_url is_url))])].

Definition FilePartSchema : Schema :=
  object [("kind", required (literal "file"));
          ("file", required FileSchema);
          ("metadata", MetadataSchema)].

Definition DataPartSchema : Schema :=
  object [("kind", required (literal "data"));
          ("data", optional any);   (* [z.any()] also accepts a missing key *)
          ("metadata", MetadataSchema)].

(** [z.discriminatedUnion('kind', ...)]: the option is chosen by the
    value of [kind]. *)
Definition PartSchema : Schema := fun v =>
  match v with
  | JObj input =>
      match obj_get "kind" input with
      | Some (JStr k) =>
          if decide (k = "text") then TextPartSchema v
          else if decide (k = "file") then FilePartSchema v
          else if decide (k = "data") then DataPartSchema v
          else None
      | _ => None
      end
  | _ => None
  end.

End parts.

(** ** The request schemas ([schemas/message.ts], [schemas/json-rpc.ts]) *)

Definition number : Schema := fun v =>
  match v with JNum _ => Some v | _ => None end.

Definition null_ : Schema := fun v =>
  match v with JNull => Some v | _ => None end.

(** [z.enum([...])]. *)
Definition enum_ (values : list string) : Schema := fun v =>
  match v with
  | JStr s => if decide (s ∈ values) then Some v else None
  | _ => None
  end.

(** [z.array(s)]. *)
Definition array (s : Schema) : Schema := fun v =>
  match v with
  | JArr items => JArr <$> mapM s items
  | _ => None
  end.

(** [z.record(s)]: an object whose values all pass [s]. *)
Definition record (s : Schema) : Schema := fun v =>
  match v with
  | JObj fields => JObj <$> mapM (fun kv => pair kv.1 <$> s kv.2) fields
  | _ => None
  end.

Fixpoint option_for (d : string) (options : list (string * Shape)) : option Shape :=
  match options with
  | [] => None
  | (d', shape) :: rest => if decide (d' = d) then Some shape else option_for d rest
  end.

(** [z.discriminatedUnion(key, [...])] of objects that each declare
    [key] as a literal: the object schema is chosen by the value of
    [key], here the first component of each option. *)
Definition discriminatedUnion (key : string) (options : list (string * Shape))
  : Schema := fun v =>
  match v with
  | JObj input =>
      match obj_get key input with
      | Some (JStr d) =>
          match option_for d options with
          | Some shape => object shape v
          | None => None
          end
      | _ => None
      end
  | _ => None
  end.

Section requests.
Variable is_url : string -> bool.

Definition RoleSchema : Schema := enum_ ["agent"; "user"].

(** Message schema (A2A spec compliant). *)
Definition MessageSchema : Schema :=
  object [("kind", required (literal "message"));
          ("messageId", required string_);
          ("parts", required (array (PartSchema is_url)));
          ("role", required RoleSchema);
          ("contextId", optional string_);
          ("extensions", optional (array string_));
          ("metadata", MetadataSchema);
          ("referenceTaskIds", optional (array string_));
          ("taskId", optional string_)].

(** JSON-RPC 2.0 base request. *)
Definition JSONRPCRequestBaseSchema : Shape :=
  [("jsonrpc", required (literal "2.0"));
   ("id", required (union [string_; number; null_]))].

Definition SendMessageParamsSchema : Schema :=
  object [("message", required MessageSchema);
          ("context", optional (object [("taskId", optional string_)]))].

Definition GetTaskParamsSchema : Schema :=
  object [("taskId", required string_)].

Definition CancelTaskParamsSchema : Schema :=
  object [("taskId", required string_);
          ("contextId", required string_);
          ("reason", optional string_)].

Definition SetTaskPushNotificationConfigParamsSchema : Schema :=
  object [("taskId", required string_);
          ("config", required (object [("url", required (string_url is_url));
                                       ("headers", optional (record string_))]))].

Definition GetTaskPushNotificationConfigParamsSchema : Schema :=
  object [("taskId", required string_)].

Definition request_of (method : string) (params : Schema) : string * Shape :=
  (method,
   extend JSONRPCRequestBaseSchema
     [("method", required (literal method)); ("params", required params)]).

(** JSON-RPC request with method discrimination. *)
Definition JSONRPCRequestSchema : Schema :=
  discriminatedUnion "method"
    [request_of "message/send" SendMessageParamsSchema;
     request_of "tasks/get" GetTaskParamsSchema;
     request_of "tasks/cancel" CancelTaskParamsSchema;
     request_of "tasks/setPushNotificationConfig"
       SetTaskPushNotificationConfigParamsSchema;
     request_of "tasks/getPushNotificationConfig"
       GetTaskPushNotificationConfigParamsSchema].

End requests.

(** Standard JSON-RPC error codes, and the A2A specific ones. *)
Module JSONRPCErrorCode.
Definition PARSE_ERROR : Z := -32700.
Definition INVALID_REQUEST : Z := -32600.
Definition METHOD_NOT_FOUND : Z := -32601.
Definition INVALID_PARAMS : Z := -32602.
Definition INTERNAL_ERROR : Z := -32603.
Definition TASK_NOT_FOUND : Z := -32001.
Definition EXECUTOR_NOT_FOUND : Z := -32002.
Definition STORAGE_ERROR : Z := -32003.
End JSONRPCErrorCode.

(** Does the value carry the property [k]? *)
Definition has_field (k : string) (v : Json) : bool :=
  match v with
  | JObj input => bool_decide (is_Some (obj_get k input))
  | _ => false
  end.

Definition accepts (s : Schema) (v : Json) : bool :=
  bool_decide (is_Some (s v)).

End Zod.

(** ** The storage interface ([storage/adapter.ts])

    [S] is the state behind an adapter.  A write either returns the new
    state or throws, and the state is then taken to be as it was: the
    in-memory adapter throws before it mutates, and so does the Drizzle
    adapter as long as the identifiers it generates are new (see
    [DrizzleStorageAdapter.saveMessage]). *)
Module Storage.
Class StorageAdapter (S : Type) := {
  saveTask : Task.t -> S -> Res S;
  getTask : string -> S -> option Task.t;
  updateTaskStatus : string -> TaskStatus.t -> S -> Res S;
  saveMessage : string -> Message.t -> S -> Res S;
  getMessages : string -> S -> list Message.t;
  updateArtifact : string -> Artifact.t -> S -> Res S;
      (* the argument [Artifact1 & { taskId }], taskId first *)
  getArtifact : string -> S -> option Artifact.t;
  getTaskArtifacts : string -> S -> list Artifact.t;
}.
End Storage.
Abbreviation StorageAdapter := Storage.StorageAdapter.

(** ** The in-memory adapter ([storage/adapters/memory]) *)
Module MemoryStorageAdapter.

(** A JavaScript [Map] whose iteration order is observed: the entries in
    insertion order; [set] on a present key keeps its position. *)
Abbreviation JsMap V := (list (string * V)) (only parsing).

Fixpoint map_get {V} (k : string) (m : JsMap V) : option V :=
  match m with
  | [] => None
  | (k', v) :: rest => if decide (k' = k) then Some v else map_get k rest
  end.

Fixpoint map_set {V} (k : string) (v : V) (m : JsMap V) : JsMap V :=
  match m with
  | [] => [(k, v)]
  | (k', v') :: rest =>
      if decide (k' = k) then (k, v) :: rest else (k', v') :: map_set k v rest
  end.

(** [MemoryStore].  [artifacts] maps an artifactId to the artifact and
    its taskId; it is iterated by [getTaskArtifacts]. *)
Record MemoryStore := mkStore {
  tasks : gmap string Task.t;
  messages : gmap string (list Message.t);
  artifacts : JsMap (string * Artifact.t);
}.

(** [new MemoryStorageAdapter()]. *)
Definition empty : MemoryStore := mkStore ∅ ∅ [].

Definition saveTask (task : Task.t) (st : MemoryStore) : MemoryStore :=
  mkStore (<[Task.id task := task]> (tasks st)) (messages st) (artifacts st).

Definition getTask (taskId : string) (st : MemoryStore) : option Task.t :=
  tasks st !! taskId.

Definition saveMessage (taskId : string) (message : Message.t) (st : MemoryStore)
  : MemoryStore :=
  let messages' := default [] (messages st !! taskId) ++ [message] in
  mkStore (tasks st) (<[taskId := messages']> (messages st)) (artifacts st).

Definition getMessages (taskId : string) (st : MemoryStore) : list Message.t :=
  default [] (messages st !! taskId).

Definition updateTaskStatus (taskId : string) (status : TaskStatus.t)
    (st : MemoryStore) : Res MemoryStore :=
  match tasks st !! taskId with
  | None => Err (TaskNotFound taskId)
  | Some task =>
      (* Update task status *)
      let task := Task.set_status status task in
      (* Add status message to history if provided *)
      match TaskStatus.message status with
      | Some message =>
          let task :=
            Task.set_history (default [] (Task.history task) ++ [message]) task in
          let st := mkStore (<[taskId := task]> (tasks st)) (messages st) (artifacts st) in
          (* Also save to messages *)
          Ok (saveMessage taskId message st)
      | None =>
          Ok (mkStore (<[taskId := task]> (tasks st)) (messages st) (artifacts st))
      end
  end.

Definition updateArtifact (taskId : string) (artifact : Artifact.t)
    (st : MemoryStore) : MemoryStore :=
  let artifacts' := map_set (Artifact.artifactId artifact) (taskId, artifact) (artifacts st) in
  (* Also add to task's artifacts array *)
  match tasks st !! taskId with
  | Some task =>
      let task :=
        Task.set_artifacts (default [] (Task.artifacts task) ++ [artifact]) task in
      mkStore (<[taskId := task]> (tasks st)) (messages st) artifacts'
  | None => mkStore (tasks st) (messages st) artifacts'
  end.

Definition getArtifact (artifactId : string) (st : MemoryStore) : option Artifact.t :=
  snd <$> map_get artifactId (artifacts st).

Definition getTaskArtifacts (taskId : string) (st : MemoryStore) : list Artifact.t :=
  foldl (fun acc entry =>
           let '(_, (taskId', artifact)) := entry in
           if decide (taskId' = taskId) then acc ++ [artifact] else acc)
        [] (artifacts st).

(** The entries of [store.artifacts] filed under one artifactId. *)
Definition stored_artifacts (artifactId : string) (st : MemoryStore)
  : list (string * Artifact.t) :=
  snd <$> filter (fun entry => entry.1 = artifactId) (artifacts st).

(** Composite operations: the task with its messages and artifacts, or
    [null] when there is no task. *)
Definition getTaskWithHistory (taskId : string) (st : MemoryStore)
  : option (Task.t * list Message.t * list Artifact.t) :=
  match getTask taskId st with
  | None => None
  | Some task => Some (task, getMessages taskId st, getTaskArtifacts taskId st)
  end.

(** Clear all data from memory. *)
Definition clear (st : MemoryStore) : MemoryStore := mkStore ∅ ∅ [].

Record Stats := mkStats {
  tasksCount : nat;
  messagesCount : nat;
  artifactsCount : nat;
}.

(** Get statistics about stored data. *)
Definition getStats (st : MemoryStore) : Stats :=
  let messagesCount :=
    map_fold (fun _ messages count => count + length messages) 0 (messages st) in
  mkStats (size (tasks st)) messagesCount (length (artifacts st)).

#[global] Instance adapter : StorageAdapter MemoryStore := {|
  Storage.saveTask task st := Ok (saveTask task st);
  Storage.getTask := getTask;
  Storage.updateTaskStatus := updateTaskStatus;
  Storage.saveMessage taskId message st := Ok (saveMessage taskId message st);
  Storage.getMessages := getMessages;
  Storage.updateArtifact taskId artifact st := Ok (updateArtifact taskId artifact st);
  Storage.getArtifact := getArtifact;
  Storage.getTaskArtifacts := getTaskArtifacts;
|}.

End MemoryStorageAdapter.

(** ** The Drizzle adapter ([storage/adapters/drizzle/adapter.ts])

    A table is the list of its rows in insertion order.  A text column
    that holds [JSON.stringify] of a value is modelled by the value that
    [JSON.parse] reads back from it.  The columns [kind], [createdAt] and
    [updatedAt] carry nothing that is read back and are left out.  Of the
    constraints of the tables ([drizzle/0000_fluffy_vin_gonzales.sql])
    the model keeps those a call of the adapter can meet: the primary
    keys, which the adapter names as conflict targets, the foreign keys
    into [a2a_tasks], and NOT NULL on [a2a_artifacts.metadata], the one
    column the adapter can leave without a value.  A conflict on the
    target is handled before a row is inserted, so that a foreign key is
    checked only for a row that is inserted; NOT NULL is checked first.
    There are no transactions: what a statement has written stays when
    a later statement of the same call throws. *)
Module DrizzleStorageAdapter.

Record TaskRow := mkTaskRow {
  t_id : string;
  t_status : TaskStatus.t;
  t_statusState : TaskState;
  t_statusMessage : option Message.t;
  t_statusReason : option string;
  t_contextId : option string;
  t_extensions : option string;
  t_metadata : Fields;
}.

(** [m_metadata]: [None] is the empty text [""]. *)
Record MessageRow := mkMessageRow {
  m_id : string;
  m_taskId : string;
  m_messageId : string;
  m_role : Role;
  m_parts : list Part;
  m_contextId : option string;
  m_extensions : option (list string);
  m_metadata : option Json;
}.

Record ArtifactRow := mkArtifactRow {
  a_id : string;
  a_taskId : string;
  a_artifactId : string;
  a_name : option string;
  a_description : option string;
  a_parts : list Part;
  a_extensions : option (list string);
  a_metadata : option Json;
}.

(** The join table; its primary key is [(taskId, messageId)], where
    [messageId] refers to [m_id]. *)
Record TaskMessageRow := mkTaskMessageRow {
  tm_taskId : string;
  tm_messageId : string;
  tm_sequence : Z;
}.

Record Db := mkDb {
  tasks : list TaskRow;
  messages : list MessageRow;
  artifacts : list ArtifactRow;
  taskMessages : list TaskMessageRow;
}.

Definition empty : Db := mkDb [] [] [] [].

(** The errors of the database. *)
Definition FOREIGN_KEY : Error := Thrown "FOREIGN KEY constraint failed".
Definition NOT_NULL (column : string) : Error :=
  Thrown ("NOT NULL constraint failed: " +:+ column).

(** [a2a_tasks] has a row with this id. *)
Definition has_task (taskId : string) (db : Db) : bool :=
  existsb (fun r => bool_decide (t_id r = taskId)) (tasks db).

(** [insert(...).values(row).onConflictDoUpdate({ target: id, set })]. *)
Fixpoint insert_onConflictDoUpdate {R} (key : R -> string) (row : R) (set : R -> R)
    (table : list R) : list R :=
  match table with
  | [] => [row]
  | r :: rest =>
      if decide (key r = key row) then set r :: rest
      else r :: insert_onConflictDoUpdate key row set rest
  end.

(** [.select().from(table).where(...)]; without an [orderBy] the rows are
    taken to come back in table order. *)
Definition select_where {R} (cond : R -> bool) (table : list R) : list R :=
  List.filter cond table.

(** [.limit(1)] followed by [result[0]]. *)
Definition first_row {R} (result : list R) : option R := head result.

Definition taskToDb (task : Task.t) : TaskRow :=
  let status := Task.status task in
  mkTaskRow (Task.id task) status (TaskStatus.state status) (TaskStatus.message status)
    None (js_or (Some (Task.contextId task)) None) None
    (default [] (Task.metadata task)).

Definition dbToTask (row : TaskRow) : Task.t :=
  Task.mk (t_id row) (default "" (t_contextId row))
    (TaskStatus.mk (t_statusState row) (t_statusMessage row) None)
    None None (Some (t_metadata row)).

Definition messageToDb (uuid : string) (message : Message.t) (taskId : string)
  : MessageRow :=
  mkMessageRow uuid taskId (Message.messageId message) (Message.role message)
    (Message.parts message) (js_or (Message.contextId message) None)
    (Message.extensions message) (JObj <$> Message.metadata message).

(** [parsed.metadata ? JSON.parse(parsed.metadata) : {}].  A parsed value
    that is not an object (it arises only from the conflict update of
    [saveMessage]) has no counterpart in [Metadata] and reads as absent. *)
Definition parse_metadata (column : option Json) : Metadata :=
  match column with
  | None => Some []
  | Some (JObj fields) => Some fields
  | Some _ => None
  end.

Definition dbToMessage (row : MessageRow) : Message.t :=
  Message.mk (m_messageId row) (m_role row) (m_parts row)
    (js_or (m_contextId row) None) None (m_extensions row)
    (parse_metadata (m_metadata row)).

Definition artifactToDb (uuid : string) (taskId : string) (artifact : Artifact.t)
  : ArtifactRow :=
  mkArtifactRow uuid taskId (Artifact.artifactId artifact)
    (js_or (Artifact.name artifact) None) (js_or (Artifact.description artifact) None)
    (Artifact.parts artifact) (Artifact.extensions artifact)
    (JObj <$> Artifact.metadata artifact).

Definition dbToArtifact (row : ArtifactRow) : Artifact.t :=
  Artifact.mk (a_artifactId row) (js_or (a_name row) None)
    (js_or (a_description row) None) (a_parts row) (a_extensions row)
    (parse_metadata (a_metadata row)).

Definition saveTask (task : Task.t) (db : Db) : Db :=
  let dbTask := taskToDb task in
  let set (r : TaskRow) :=
    mkTaskRow (t_id r) (t_status dbTask) (t_statusState dbTask) (t_statusMessage dbTask)
      (t_statusReason dbTask) (t_contextId dbTask) (t_extensions dbTask)
      (t_metadata dbTask) in
  mkDb (insert_onConflictDoUpdate t_id dbTask set (tasks db))
    (messages db) (artifacts db) (taskMessages db).

Definition getTask (taskId : string) (db : Db) : option Task.t :=
  dbToTask <$> first_row (select_where (fun r => bool_decide (t_id r = taskId)) (tasks db)).

(** [update(tasks).set({...}).where(eq(id, taskId))]: every row that
    matches is rewritten; when none matches nothing happens. *)
Definition updateTaskStatus (taskId : string) (status : TaskStatus.t) (db : Db) : Db :=
  let set (r : TaskRow) :=
    if decide (t_id r = taskId)
    then mkTaskRow (t_id r) status (TaskStatus.state status) (TaskStatus.message status)
           None (t_contextId r) (t_extensions r) (t_metadata r)
    else r in
  mkDb (set <$> tasks db) (messages db) (artifacts db) (taskMessages db).

(** [max(sequence)] over the rows of one task: [null] when there is none. *)
Definition max_sequence (taskId : string) (rows : list TaskMessageRow) : option Z :=
  foldl (fun acc r =>
           if decide (tm_taskId r = taskId)
           then Some (match acc with Some s => Z.max s (tm_sequence r)
                                   | None => tm_sequence r end)
           else acc)
        None rows.

(** [insert(taskMessages).values(row).onConflictDoNothing()]. *)
Definition insert_onConflictDoNothing (row : TaskMessageRow)
    (table : list TaskMessageRow) : list TaskMessageRow :=
  if existsb (fun r => bool_decide (tm_taskId r = tm_taskId row)
                       && bool_decide (tm_messageId r = tm_messageId row)) table
  then table
  else table ++ [row].

(** The first statement of [saveMessage]: the insert into [a2a_messages]
    with its conflict update.  A row that is inserted must belong to a
    task that has a row. *)
Definition insert_message (dbMessage : MessageRow) (db : Db) : Res Db :=
  let set (r : MessageRow) :=
    mkMessageRow (m_id r) (m_taskId r) (m_messageId r) (m_role dbMessage)
      (m_parts dbMessage) (m_contextId dbMessage) (m_extensions dbMessage)
      ((fun j => JStr (JSON_stringify j)) <$> m_metadata dbMessage) in
  if negb (bool_decide (m_id dbMessage ∈ m_id <$> messages db))
     && negb (has_task (m_taskId dbMessage) db)
  then Err FOREIGN_KEY
  else Ok (mkDb (tasks db) (insert_onConflictDoUpdate m_id dbMessage set (messages db))
             (artifacts db) (taskMessages db)).

(** The last statement of [saveMessage]: the insert into
    [a2a_task_messages], which does nothing on a conflict.  A row that
    is inserted must belong to a task that has a row (its message has
    one: the first statement has seen to it). *)
Definition insert_taskMessage (row : TaskMessageRow) (db : Db) : Res Db :=
  if negb (existsb (fun r => bool_decide (tm_taskId r = tm_taskId row)
                             && bool_decide (tm_messageId r = tm_messageId row))
             (taskMessages db))
     && negb (has_task (tm_taskId row) db)
  then Err FOREIGN_KEY
  else Ok (mkDb (tasks db) (messages db) (artifacts db)
             (insert_onConflictDoNothing row (taskMessages db))).

(** [uuid] is the value [crypto.randomUUID()] returns in [messageToDb].
    [DbMessageRowSchema.safeParse] accepts every row that [messageToDb]
    builds from a typed message, so its failure branch is not reachable.
    The result is what the call returns and the database it leaves. *)
Definition saveMessage (uuid : string) (taskId : string) (message : Message.t)
    (db : Db) : Res unit * Db :=
  let dbMessage := messageToDb uuid message taskId in
  (* Save message *)
  match insert_message dbMessage db with
  | Err e => (Err e, db)
  | Ok db =>
      (* Get next sequence number *)
      let nextSequence := (default 0 (max_sequence taskId (taskMessages db)) + 1)%Z in
      (* Insert task-message relationship *)
      match insert_taskMessage (mkTaskMessageRow taskId (m_id dbMessage) nextSequence) db with
      | Err e => (Err e, db)
      | Ok db => (Ok tt, db)
      end
  end.

(** [orderBy(asc(sequence))]: a stable sort on the sequence number. *)
Fixpoint insert_by_sequence (x : MessageRow * Z) (l : list (MessageRow * Z))
  : list (MessageRow * Z) :=
  match l with
  | [] => [x]
  | y :: rest =>
      if decide (x.2 < y.2)%Z then x :: y :: rest
      else y :: insert_by_sequence x rest
  end.

Definition orderBy_sequence (l : list (MessageRow * Z)) : list (MessageRow * Z) :=
  foldr insert_by_sequence [] l.

(** [from(messages).innerJoin(taskMessages, eq(messages.id,
    taskMessages.messageId)).where(eq(taskMessages.taskId, taskId))]. *)
Definition join_taskMessages (taskId : string) (db : Db) : list (MessageRow * Z) :=
  m ← messages db;
  tm ← taskMessages db;
  if bool_decide (m_id m = tm_messageId tm) && bool_decide (tm_taskId tm = taskId)
  then [(m, tm_sequence tm)] else [].

Definition getMessages (taskId : string) (db : Db) : list Message.t :=
  (fun row => dbToMessage row.1) <$> orderBy_sequence (join_taskMessages taskId db).

(** [uuid] is the value [crypto.randomUUID()] returns in [artifactToDb].
    For an artifact without [metadata], [JSON.stringify(undefined)] is
    [undefined] and the row has no value for [metadata]. *)
Definition updateArtifact (uuid : string) (taskId : string) (artifact : Artifact.t)
    (db : Db) : Res Db :=
  let dbArtifact := artifactToDb uuid taskId artifact in
  let set (r : ArtifactRow) :=
    mkArtifactRow (a_id r) (a_taskId r) (a_artifactId r) (a_name dbArtifact)
      (a_description dbArtifact) (a_parts dbArtifact) (a_extensions dbArtifact)
      (a_metadata dbArtifact) in
  match a_metadata dbArtifact with
  | None => Err (NOT_NULL "a2a_artifacts.metadata")
  | Some _ =>
      if negb (bool_decide (a_id dbArtifact ∈ a_id <$> artifacts db))
         && negb (has_task taskId db)
      then Err FOREIGN_KEY
      else Ok (mkDb (tasks db) (messages db)
                 (insert_onConflictDoUpdate a_id dbArtifact set (artifacts db))
                 (taskMessages db))
  end.

Definition getArtifact (artifactId : string) (db : Db) : option Artifact.t :=
  dbToArtifact <$>
    first_row (select_where (fun r => bool_decide (a_artifactId r = artifactId)) (artifacts db)).

Definition getTaskArtifacts (taskId : string) (db : Db) : list Artifact.t :=
  dbToArtifact <$> select_where (fun r => bool_decide (a_taskId r = taskId)) (artifacts db).

(** The rows of the artifacts table filed under one artifactId. *)
Definition stored_artifacts (artifactId : string) (db : Db) : list ArtifactRow :=
  select_where (fun r => bool_decide (a_artifactId r = artifactId)) (artifacts db).

(** The adapter with its source of identifiers: the [n]-th call of
    [crypto.randomUUID()] returns [randomUUID n]. *)
Record Env := mkEnv {
  db : Db;
  randomUUID : nat -> string;
  drawn : nat;
}.

(** A call that draws one identifier.  The interface returns no state
    with an error. *)
Definition with_uuid (f : string -> Db -> Res Db) (env : Env) : Res Env :=
  match f (randomUUID env (drawn env)) (db env) with
  | Ok db => Ok (mkEnv db (randomUUID env) (S (drawn env)))
  | Err e => Err e
  end.

#[global] Instance adapter : StorageAdapter Env := {|
  Storage.saveTask task env :=
    Ok (mkEnv (saveTask task (db env)) (randomUUID env) (drawn env));
  Storage.getTask taskId env := getTask taskId (db env);
  Storage.updateTaskStatus taskId status env :=
    Ok (mkEnv (updateTaskStatus taskId status (db env)) (randomUUID env) (drawn env));
  Storage.saveMessage taskId message :=
    with_uuid (fun uuid db =>
                 match saveMessage uuid taskId message db with
                 | (Ok _, db) => Ok db
                 | (Err e, _) => Err e
                 end);
  Storage.getMessages taskId env := getMessages taskId (db env);
  Storage.updateArtifact taskId artifact :=
    with_uuid (fun uuid => updateArtifact uuid taskId artifact);
  Storage.getArtifact artifactId env := getArtifact artifactId (db env);
  Storage.getTaskArtifacts taskId env := getTaskArtifacts taskId (db env);
|}.

End DrizzleStorageAdapter.

(** ** The dispatch core ([core.ts]) *)
Module Core.

Section createA2A.
Context {S E : Type} `{!StorageAdapter S}.

(** [config.events.send]: the event sender acts on the state [E] of the
    channel it writes to. *)
Variable eventSender : A2AEvent -> E -> Res E.

(** What an A2A instance closes over: [config.storage], which may be
    absent, and the channel behind the event sender. *)
Record World := mkWorld {
  storage : option S;
  channel : E;
}.

(** An [async] function: it returns or throws, and changes the world. *)
Definition M (A : Type) := World -> Res A * World.

Definition ret {A} (a : A) : M A := fun w => (Ok a, w).
Definition throw {A} (e : Error) : M A := fun w => (Err e, w).
Definition bind {A B} (c : M A) (k : A -> M B) : M B := fun w =>
  match c w with
  | (Ok a, w') => k a w'
  | (Err e, w') => (Err e, w')
  end.

Notation "x <~ c ;; k" := (bind c (fun x => k))
  (at level 100, c at next level, right associativity).
Notation "c ;;; k" := (bind c (fun _ => k))
  (at level 100, right associativity).

(** [await storage?.op(...)]. *)
Definition storage_write (op : S -> Res S) : M unit := fun w =>
  match storage w with
  | None => (Ok tt, w)
  | Some st =>
      match op st with
      | Ok st' => (Ok tt, mkWorld (Some st') (channel w))
      | Err e => (Err e, w)
      end
  end.

(** [await eventSender(event)]. *)
Definition send (event : A2AEvent) : M unit := fun w =>
  match eventSender event (channel w) with
  | Ok ch => (Ok tt, mkWorld (storage w) ch)
  | Err e => (Err e, w)
  end.

(** The [taskId] and [contextId] that [execute] adds to the context. *)
Record ExecutorContext := mkContext {
  ctx_taskId : string;
  ctx_contextId : string;
}.

Record Executor := mkExecutor {
  extension : string;
  input : option Zod.Schema;
  output : option Zod.Schema;
  execute_fn : Json -> ExecutorContext -> M Json;
}.

(** [register]: [executors.set(executor.extension, executor)]. *)
Definition register (executor : Executor) (executors : gmap string Executor)
  : gmap string Executor :=
  <[extension executor := executor]> executors.

(** Find executor by extension URIs. *)
Fixpoint findExecutor (extensions : list string) (executors : gmap string Executor)
  : option Executor :=
  match extensions with
  | [] => None
  | extension :: rest =>
      match executors !! extension with
      | Some executor => Some executor
      | None => findExecutor rest executors
      end
  end.

Definition is_text (p : Part) : bool :=
  match p with TextPart _ _ => true | _ => false end.
Definition is_data (p : Part) : bool :=
  match p with DataPart _ _ => true | _ => false end.

(** The object [extractInput] builds from the message parts. *)
Definition input_of (message : Message.t) : Fields :=
  let textPart := List.find is_text (Message.parts message) in
  let dataPart := List.find is_data (Message.parts message) in
  obj_spread
    (match textPart with Some (TextPart text _) => [("text", JStr text)] | _ => [] end)
    (match dataPart with Some (DataPart data _) => data | _ => [] end).

(** Extract and validate input from message. *)
Definition extractInput (message : Message.t) (schema : option Zod.Schema) : Res Json :=
  let input := JObj (input_of message) in
  match schema with
  | Some schema =>
      match schema input with
      | Some parsed => Ok parsed
      | None => Err ZodError
      end
  | None => Ok input
  end.

Definition lift {A} (r : Res A) : M A := fun w => (r, w).

Record Options := mkOptions {
  opt_taskId : option string;
  opt_contextId : option string;
}.

(** The task [execute] writes before it runs the executor. *)
Definition submitted_task (taskId contextId : string) (message : Message.t)
    (now : string) : Task.t :=
  Task.mk taskId contextId (TaskStatus.mk submitted (Some message) (Some now))
    None None (Some []).

(** The body of [execute] once the executor is found. *)
Definition dispatch (executor : Executor) (message : Message.t)
    (options : option Options) (now : string) : M Json :=
  (* Use provided taskId or generate new one *)
  let taskId := js_or (options ≫= opt_taskId) (Message.taskId message) in
  let contextId := js_or (options ≫= opt_contextId) (Message.contextId message) in
  if negb (truthy taskId) || negb (truthy contextId)
  then throw MissingIdentifiers
  else
    let taskId := default "" taskId in
    let contextId := default "" contextId in
    (* Create task and save to storage *)
    let task := submitted_task taskId contextId message now in
    storage_write (Storage.saveTask task) ;;;
    storage_write (Storage.saveMessage taskId message) ;;;
    input <~ lift (extractInput message (input executor)) ;;
    result <~ execute_fn executor input (mkContext taskId contextId) ;;
    (* Validate output if schema provided *)
    match output executor with
    | Some schema =>
        match schema result with
        | Some parsed => ret parsed
        | None => throw ZodError
        end
    | None => ret result
    end.

Definition execute (executors : gmap string Executor) (message : Message.t)
    (options : option Options) (now : string) : M Json :=
  (* Find executor by extension *)
  match findExecutor (default [] (Message.extensions message)) executors with
  | None => throw (NoExecutorFound (Message.extensions message))
  | Some executor => dispatch executor message options now
  end.

(** *** The executor context ([createExecutorContext]) *)

Definition updateStatus (taskId contextId : string) (status : TaskStatus.t)
    (now : string) : M unit :=
  send (StatusUpdate taskId contextId status false) ;;;
  storage_write
    (Storage.updateTaskStatus taskId
       (TaskStatus.mk (TaskStatus.state status) (TaskStatus.message status) (Some now))).

Definition updateArtifact (taskId contextId : string) (artifact : Artifact.t) : M unit :=
  send (ArtifactUpdate taskId contextId artifact) ;;;
  storage_write (Storage.updateArtifact taskId artifact).

Definition getTask (taskId : string) : M Task.t := fun w =>
  match storage w ≫= Storage.getTask taskId with
  | Some task => (Ok task, w)
  | None => (Err (TaskNotFound taskId), w)
  end.

Definition updateMessage (taskId contextId : string) (message : Message.t)
    (now : string) : M unit :=
  send (StatusUpdate taskId contextId
          (TaskStatus.mk working (Some message) (Some now)) false) ;;;
  storage_write (Storage.saveMessage taskId message).

(** [now] and [now'] are the two readings of the clock. *)
Definition cancelTask (taskId contextId : string) (message : option Message.t)
    (now now' : string) : M unit :=
  send (StatusUpdate taskId contextId
          (TaskStatus.mk canceled message (Some now)) false) ;;;
  storage_write
    (Storage.updateTaskStatus taskId (TaskStatus.mk canceled message (Some now'))).

End createA2A.

Arguments World : clear implicits.
Arguments M : clear implicits.
Arguments Executor : clear implicits.

(** Default event sender (logs to console). *)
Definition defaultEventSender {E} (event : A2AEvent) (ch : E) : Res E := Ok ch.

End Core.

(** ** The in-process event channel ([integrations/nextjs/sse.ts]) *)
Module SSE.

(** The frame [encodeMessage] writes,
    [event: <kind>\ndata: <JSON.stringify(event)>\n\n]. *)
Record Frame := mkFrame {
  frame_event : string;
  frame_data : A2AEvent;
}.

Definition encodeMessage (event : A2AEvent) : Frame :=
  mkFrame (event_kind event) event.

(** A [ReadableStreamDefaultController]: the chunks enqueued so far, and
    whether the stream has been closed. *)
Record Controller := mkController {
  enqueued : list Frame;
  closed : bool;
}.

(** The module-level [connections] map, with the controllers it refers
    to kept by identity. *)
Record Registry := mkRegistry {
  connections : gmap string (gset nat);
  controllers : gmap nat Controller;
}.

Definition empty : Registry := mkRegistry ∅ ∅.

(** The first loop of [sendSSEEvent]: [controller.enqueue(message)]
    throws on a closed stream, and the controller is then removed. *)
Definition enqueue_step (message : Frame) (acc : gset nat * gmap nat Controller)
    (controller : nat) : gset nat * gmap nat Controller :=
  let '(taskConnections, ctls) := acc in
  match ctls !! controller with
  | Some ctl =>
      if closed ctl then (taskConnections ∖ {[controller]}, ctls)
      else (taskConnections,
            <[controller := mkController (enqueued ctl ++ [message]) false]> ctls)
  | None => (taskConnections ∖ {[controller]}, ctls)
  end.

(** The second loop: [controller.close()], errors ignored. *)
Definition close_step (ctls : gmap nat Controller) (controller : nat)
  : gmap nat Controller :=
  match ctls !! controller with
  | Some ctl => <[controller := mkController (enqueued ctl) true]> ctls
  | None => ctls
  end.

(** Send SSE event to all connected clients for a task. *)
Definition sendSSEEvent (event : A2AEvent) (reg : Registry) : Registry :=
  let taskId := event_taskId event in
  match connections reg !! taskId with
  | None => reg
  | Some taskConnections =>
      if decide (size taskConnections = 0) then reg
      else
        let message := encodeMessage event in
        (* Send to all connected clients *)
        let '(taskConnections, ctls) :=
          foldl (enqueue_step message) (taskConnections, controllers reg)
                (elements taskConnections) in
        (* Clean up if no connections left *)
        let conns :=
          if decide (size taskConnections = 0) then delete taskId (connections reg)
          else <[taskId := taskConnections]> (connections reg) in
        (* Close connections on task complete *)
        if decide (event_kind event = ARTIFACT_UPDATE)
        then mkRegistry (delete taskId conns)
                        (foldl close_step ctls (elements taskConnections))
        else mkRegistry conns ctls
  end.

(** [createSSEEventSender]. *)
Definition createSSEEventSender (event : A2AEvent) (reg : Registry) : Res Registry :=
  Ok (sendSSEEvent event reg).

(** Get number of active connections for a task. *)
Definition getActiveConnections (taskId : string) (reg : Registry) : nat :=
  default 0 (size <$> connections reg !! taskId).

(** Close all connections for a task. *)
Definition closeTaskConnections (taskId : string) (reg : Registry) : Registry :=
  match connections reg !! taskId with
  | None => reg
  | Some taskConnections =>
      mkRegistry (delete taskId (connections reg))
                 (foldl close_step (controllers reg) (elements taskConnections))
  end.

(** The listener for [abort] on [request.signal]. *)
Definition abort (taskId : string) (controller : nat) (reg : Registry) : Registry :=
  match connections reg !! taskId with
  | Some taskConnections =>
      let taskConnections := taskConnections ∖ {[controller]} in
      mkRegistry
        (if decide (size taskConnections = 0) then delete taskId (connections reg)
         else <[taskId := taskConnections]> (connections reg))
        (controllers reg)
  | None => reg
  end.

(** The query parameters of the request. *)
Record Request := mkRequest {
  query_taskId : option string;
  query_contextId : option string;
}.

Inductive Response :=
| BadRequest (body : string)        (* status 400 *)
| EventStream (controller : nat).   (* status 200, text/event-stream *)

(** The message of the status update the handler sends on connection. *)
Definition connection_message (messageId : string) : Message.t :=
  Message.mk messageId agent [TextPart "SSE connection established" None]
    None None None (Some []).

Section createSSEHandler.
Context {S : Type} `{!StorageAdapter S}.

(** The event sender of the A2A instance; it may or may not be
    [createSSEEventSender]. *)
Variable eventSender : A2AEvent -> Registry -> Res Registry.

(** [uuid] and [uuid'] are the values of the two calls of
    [crypto.randomUUID()], [now] and [now'] the two readings of the
    clock.  The promise of [a2a.updateStatus] is dropped: whether it
    resolves or rejects, the handler returns the stream. *)
Definition createSSEHandler (request : Request) (uuid uuid' now now' : string)
    (w : Core.World S Registry) : Response * Core.World S Registry :=
  if negb (truthy (query_taskId request))
  then (BadRequest "Missing taskId parameter", w)
  else
    let taskId := default "" (query_taskId request) in
    let contextId := default "" (js_or (query_contextId request) (Some uuid)) in
    let reg := Core.channel w in
    (* Create SSE stream *)
    let controller := fresh (dom (controllers reg)) in
    (* Add connection to active connections *)
    let taskConnections := default ∅ (connections reg !! taskId) in
    let reg :=
      mkRegistry (<[taskId := taskConnections ∪ {[controller]}]> (connections reg))
                 (<[controller := mkController [] false]> (controllers reg)) in
    let w := Core.mkWorld (Core.storage w) reg in
    let status :=
      TaskStatus.mk working (Some (connection_message uuid')) (Some now) in
    let '(_, w) := Core.updateStatus eventSender taskId contextId status now' w in
    (EventStream controller, w).

End createSSEHandler.

End SSE.

(** ** The JSON-RPC endpoint ([integrations/nextjs/handler.ts]) *)
Module Handler.
Import Zod.JSONRPCErrorCode.

(** What the handler catches: [request.json()] rejecting a body that is
    not JSON, a [TypeError] of the handler itself, or an error thrown by
    the instance. *)
Inductive Caught :=
| SyntaxError
| TypeError
| Raised (e : Error).

(** The [data] of an error response. *)
Inductive ErrorData :=
| Format                                          (* parseResult.error.format() *)
| MessageOf (error : Caught)                      (* error.message *)
| Extensions (extensions : option (list string)). (* { extensions } *)

(** The [result] of a success response.  [cancelTask] resolves to
    [undefined], so that the [{ task: updatedTask }] of [tasks/cancel]
    is serialized without a task. *)
Inductive Result :=
| SendResult (task : Task.t) (streamUrl : string)
| GetResult (task : Task.t)
| CancelResult.

(** The body of the response; the HTTP status is always 200. *)
Inductive Response :=
| ErrorResponse (id : Json) (code : Z) (message : string) (data : option ErrorData)
| SuccessResponse (id : Json) (result : Result).

(** Create JSON-RPC error response. *)
Definition createErrorResponse (id : Json) (code : Z) (message : string)
    (data : option ErrorData) : Response :=
  ErrorResponse id code message data.

(** Create JSON-RPC success response. *)
Definition createSuccessResponse (id : Json) (result : Result) : Response :=
  SuccessResponse id result.

(** [haystack.includes(needle)]. *)
Definition includes (needle haystack : string) : bool :=
  match String.index 0 needle haystack with
  | Some _ => true
  | None => false
  end.

(** [request.params.context]. *)
Record Context := mkContext {
  taskId : option string;
  contextId : option string;
}.

(** [v[k]] of a JSON value. *)
Definition prop (k : string) (v : Json) : option Json :=
  match v with
  | JObj fields => obj_get k fields
  | _ => None
  end.

Definition string_prop (k : string) (v : Json) : option string :=
  match prop k v with
  | Some (JStr s) => Some s
  | _ => None
  end.

Section handler.
Context {S E : Type} `{!StorageAdapter S}.

(** The instance: its executors and its event sender. *)
Variable executors : gmap string (Core.Executor S E).
Variable eventSender : A2AEvent -> E -> Res E.

(** The URL parser of the runtime, the message of a [ZodError], which
    the schemas here do not compute, and the typed view of a validated
    message ([request.params.message as Message]). *)
Variable is_url : string -> bool.
Variable zodMessage : string.
Variable asMessage : Json -> Message.t.

(** [error.message]. *)
Definition error_message (e : Error) : string :=
  match e with
  | NoExecutorFound extensions =>
      "No executor found for extensions: "
      +:+ match extensions with
          | Some extensions => String.concat ", " extensions
          | None => "undefined"
          end
  | MissingIdentifiers => "taskId and contextId are required"
  | TaskNotFound taskId => "Task not found: " +:+ taskId
  | ZodError => zodMessage
  | Thrown message => message
  end.

(** Handle message/send method.  [uuid] and [uuid'] are what
    [crypto.randomUUID()] returns for the taskId and for the contextId,
    [now] and [now'] the readings of the clock in [execute] and here. *)
Definition handleMessageSend (id : Json) (message : Message.t)
    (context : option Context) (uuid uuid' now now' : string)
  : Core.M S E Response := fun w =>
  (* Use context taskId if provided, otherwise use messageId for new tasks *)
  let taskId := default "" (js_or (context ≫= taskId) (Some uuid)) in
  let contextId := default "" (js_or (context ≫= contextId) (Some uuid')) in
  (* Execute message with consistent taskId *)
  match Core.execute executors message
          (Some (Core.mkOptions (Some taskId) (Some contextId))) now w with
  | (Ok _, w) =>
      (* Create task response *)
      let task :=
        Task.mk taskId (default "" (js_or (Message.contextId message) (Some "default")))
          (TaskStatus.mk submitted None (Some now')) None (Some [message]) (Some []) in
      let streamUrl := "/api/a2a/events?taskId=" +:+ Task.id task in
      (Ok (createSuccessResponse id (SendResult task streamUrl)), w)
  | (Err e, w) =>
      if includes "No executor found" (error_message e)
      then (Ok (createErrorResponse id EXECUTOR_NOT_FOUND
                  "No executor found for extensions"
                  (Some (Extensions (Message.extensions message)))), w)
      else (Err e, w)
  end.

(** Handle tasks/get method.  The instance always has [getTask], and
    what [getTask] resolves to is a task: it throws when there is none. *)
Definition handleTasksGet (id : Json) (taskId : string)
  : Core.World S E -> Response * Core.World S E := fun w =>
  match Core.getTask taskId w with
  | (Ok task, w) => (createSuccessResponse id (GetResult task), w)
  | (Err e, w) =>
      (createErrorResponse id STORAGE_ERROR "Failed to retrieve task"
         (Some (MessageOf (Raised e))), w)
  end.

(** Handle tasks/cancel method. *)
Definition handleTasksCancel (id : Json) (taskId contextId : string)
    (reason : option string) (uuid now now' : string)
  : Core.World S E -> Response * Core.World S E := fun w =>
  let message :=
    Message.mk uuid agent
      [TextPart (default "" (js_or reason (Some "Task canceled"))) None]
      None None None (Some []) in
  match Core.cancelTask eventSender taskId contextId (Some message) now now' w with
  | (Ok _, w) => (createSuccessResponse id CancelResult, w)
  | (Err e, w) =>
      (createErrorResponse id STORAGE_ERROR "Failed to cancel task"
         (Some (MessageOf (Raised e))), w)
  end.

(** Handle POST requests containing JSON-RPC messages.  [body] is what
    [request.json()] resolves to, if it does. *)
Definition handlePostRequest (body : option Json) (uuid uuid' now now' : string)
  : Core.World S E -> Response * Core.World S E := fun w =>
  let internal id (error : Caught) :=
    createErrorResponse id INTERNAL_ERROR "Internal server error"
      (Some (MessageOf error)) in
  match body with
  | None => (internal JNull SyntaxError, w)
  | Some body =>
      (* Validate JSON-RPC request *)
      match Zod.JSONRPCRequestSchema is_url body with
      | None =>
          (match body with
           | JNull => internal JNull TypeError   (* [body.id] of [null] throws *)
           | _ =>
               createErrorResponse (default JNull (prop "id" body)) INVALID_REQUEST
                 "Invalid request format" (Some Format)
           end, w)
      | Some rpcRequest =>
          let id := default JNull (prop "id" rpcRequest) in
          let method := default "" (string_prop "method" rpcRequest) in
          let params := default JNull (prop "params" rpcRequest) in
          (* Handle different methods *)
          if decide (method = "message/send") then
            let message := asMessage (default JNull (prop "message" params)) in
            let context :=
              (fun context =>
                 mkContext (string_prop "taskId" context)
                           (string_prop "contextId" context))
              <$> prop "context" params in
            match handleMessageSend id message context uuid uuid' now now' w with
            | (Ok response, w) => (response, w)
            | (Err e, w) => (internal id (Raised e), w)
            end
          else if decide (method = "tasks/get") then
            handleTasksGet id (default "" (string_prop "taskId" params)) w
          else if decide (method = "tasks/cancel") then
            handleTasksCancel id (default "" (string_prop "taskId" params))
              (default "" (string_prop "contextId" params))
              (string_prop "reason" params) uuid now now' w
          else if decide (method = "tasks/setPushNotificationConfig"
                          \/ method = "tasks/getPushNotificationConfig") then
            (createErrorResponse id METHOD_NOT_FOUND
               ("Method " +:+ method +:+ " not implemented") None, w)
          else
            (* This should never happen due to discriminated union *)
            (createErrorResponse id METHOD_NOT_FOUND "Unknown method" None, w)
      end
  end.

End handler.

End Handler.

(** ** Event distribution over Redis ([integrations/redis]) *)
Module RedisSSE.

(** [String(v)], as a template literal converts a value; [undefined] is
    a property that is not there. *)
Fixpoint js_toString (v : Json) : string :=
  match v with
  | JNull => "null"
  | JBool true => "true"
  | JBool false => "false"
  | JNum n => pretty n
  | JStr s => s
  | JArr items =>
      join_comma
        (map (fun item => match item with JNull => "" | _ => js_toString item end) items)
  | JObj _ => "[object Object]"
  end.

Definition template (v : option Json) : string :=
  match v with
  | Some v => js_toString v
  | None => "undefined"
  end.

(** [s.replace(pattern, '')] with a string pattern: the first occurrence
    is removed. *)
Definition remove_first (pattern s : string) : string :=
  match String.index 0 pattern s with
  | Some i =>
      String.substring 0 i s
      +:+ String.substring (i + String.length pattern)
            (String.length s - (i + String.length pattern)) s
  | None => s
  end.

(** Format an event as SSE message.  The lines are joined with the two
    characters backslash and n, as the source has it. *)
Definition formatSSEMessage (eventType : string) (data : Json) : string :=
  String.concat "\n"
    ["event: " +:+ eventType; "data: " +:+ JSON_stringify data; ""; ""].

(** *** The event sender ([event-sender.ts]) *)
Section sender.
Context {P : Type}.

(** [publisher.publish(channel, payload)] on a Redis client in state
    [P]: the number of subscribers, or an error. *)
Variable publish : string -> string -> P -> Res (nat * P).

(** The own properties of an event object, in order. *)
Variable properties : A2AEvent -> Fields.

(** The payload [{ ...event, timestamp }]. *)
Definition payload (event : A2AEvent) (now : string) : Json :=
  JObj (obj_spread (properties event) [("timestamp", JStr now)]).

(** [now] is the reading of the clock. *)
Definition createRedisSSEEventSender (channelPrefix : option string) (now : string)
    (event : A2AEvent) (p : P) : Res P :=
  let channelPrefix := default "a2a:task:" channelPrefix in
  let channel := channelPrefix +:+ event_taskId event in
  match publish channel (JSON_stringify (payload event now)) p with
  | Ok (subscriberCount, p) => Ok p
  | Err _ => Ok p   (* Don't throw - SSE failures shouldn't break the main flow *)
  end.

End sender.

(** *** The handler ([sse-handler.ts]) *)

(** What the handler asks of the subscribing Redis client. *)
Inductive Command :=
| Subscribe (channel : string)
| Unsubscribe (channel : string).

(** A stream: the chunks written to it, as text, and whether it has
    been closed. *)
Record Stream := mkStream {
  chunks : list string;
  closed : bool;
}.

(** [activeConnections], the streams behind the controllers, and the
    commands sent to the subscriber, in call order. *)
Record Hub := mkHub {
  activeConnections : gmap string (gset nat);
  streams : gmap nat Stream;
  commands : list Command;
}.

Definition empty : Hub := mkHub ∅ ∅ [].

(** [controller.enqueue(sseMessage)] throws on a closed stream, and the
    controller is then removed from the set. *)
Definition enqueue_step (sseMessage : string) (acc : gset nat * gmap nat Stream)
    (controller : nat) : gset nat * gmap nat Stream :=
  let '(controllers, strs) := acc in
  match strs !! controller with
  | Some stream =>
      if closed stream then (controllers ∖ {[controller]}, strs)
      else (controllers,
            <[controller := mkStream (chunks stream ++ [sseMessage]) false]> strs)
  | None => (controllers ∖ {[controller]}, strs)
  end.

(** The listener for [message] on the subscriber.  [message] is what
    [JSON.parse] makes of the text received, if it parses. *)
Definition on_message (channelPrefix : option string) (channel : string)
    (message : option Json) (hub : Hub) : Hub :=
  let channelPrefix := default "a2a:task:" channelPrefix in
  (* Extract taskId from channel *)
  let taskId := remove_first channelPrefix channel in
  let unsubscribed :=
    mkHub (activeConnections hub) (streams hub) (commands hub ++ [Unsubscribe channel]) in
  match activeConnections hub !! taskId with
  | None => unsubscribed
  | Some controllers =>
      if decide (size controllers = 0) then unsubscribed
      else
        match message with
        | None => hub           (* [JSON.parse] throws *)
        | Some JNull => hub     (* [event.type] of [null] throws *)
        | Some event =>
            let sseMessage :=
              formatSSEMessage (template (Handler.prop "type" event)) event in
            (* Send to all connected clients *)
            let '(controllers, strs) :=
              foldl (enqueue_step sseMessage) (controllers, streams hub)
                    (elements controllers) in
            (* Clean up if no controllers left *)
            if decide (size controllers = 0)
            then mkHub (delete taskId (activeConnections hub)) strs
                       (commands hub ++ [Unsubscribe channel])
            else mkHub (<[taskId := controllers]> (activeConnections hub)) strs
                       (commands hub)
        end
  end.

Inductive Response :=
| BadRequest (body : string)        (* status 400 *)
| NotFound (body : string)          (* status 404 *)
| EventStream (controller : nat).   (* status 200, text/event-stream *)

Section createRedisSSEHandler.
Context {S : Type} `{!StorageAdapter S}.

(** The request handler, up to the [Response] it returns.  The instance
    always has [getTask], and [getTask] throws when there is no task, so
    that the handler throws with it.  Creating the stream runs [start]
    up to its first [await]: the controller is registered and the
    subscription to the channel is asked for.  Nothing has been written
    to the stream by then; the rest of [start] is [subscribed], or
    [subscribe_failed]. *)
Definition createRedisSSEHandler (channelPrefix : option string)
    (request : SSE.Request) : Core.M S Hub Response := fun w =>
  let channelPrefix := default "a2a:task:" channelPrefix in
  if negb (truthy (SSE.query_taskId request))
  then (Ok (BadRequest "Missing taskId parameter"), w)
  else
    let taskId := default "" (SSE.query_taskId request) in
    (* Verify task exists if storage is available *)
    match Core.getTask taskId w with
    | (Err e, w) => (Err e, w)
    | (Ok task, w) =>
        let channel := channelPrefix +:+ taskId in
        let hub := Core.channel w in
        (* Create SSE stream *)
        let controller := fresh (dom (streams hub)) in
        (* Add to active connections *)
        let controllers := default ∅ (activeConnections hub !! taskId) in
        let hub :=
          mkHub (<[taskId := controllers ∪ {[controller]}]> (activeConnections hub))
                (<[controller := mkStream [] false]> (streams hub))
                (* Subscribe to Redis channel *)
                (commands hub ++ [Subscribe channel]) in
        (Ok (EventStream controller), Core.mkWorld (Core.storage w) hub)
    end.

End createRedisSSEHandler.

(** The rest of [start], once [subscriber.subscribe(channel)] has
    resolved: the initial connection event is written, after whatever
    the message listener has written to the stream in between.  From
    then on the heartbeat timer runs and the abort listener is set.  On
    a stream that is closed by then [enqueue] throws and [start]
    rejects. *)
Definition subscribed (taskId : string) (controller : nat) (hub : Hub) : Hub :=
  match streams hub !! controller with
  | Some stream =>
      if closed stream then hub
      else
        (* Send initial connection event *)
        let connected := formatSSEMessage "connected" (JObj [("taskId", JStr taskId)]) in
        mkHub (activeConnections hub)
              (<[controller := mkStream (chunks stream ++ [connected]) false]>
                 (streams hub))
              (commands hub)
  | None => hub
  end.

(** [subscriber.subscribe(channel)] rejects: [start] rejects with it,
    the stream is errored and takes no more chunks; the controller
    stays in [activeConnections] until a message finds it so. *)
Definition subscribe_failed (controller : nat) (hub : Hub) : Hub :=
  match streams hub !! controller with
  | Some stream =>
      mkHub (activeConnections hub)
            (<[controller := mkStream (chunks stream) true]> (streams hub))
            (commands hub)
  | None => hub
  end.

(** One tick of the heartbeat timer of a stream, which [start] sets
    after [subscribed]; on a closed stream [enqueue] throws and the
    timer is cleared. *)
Definition heartbeat (controller : nat) (hub : Hub) : Hub :=
  match streams hub !! controller with
  | Some stream =>
      if closed stream then hub
      else mkHub (activeConnections hub)
                 (<[controller := mkStream (chunks stream ++ [":heartbeat\n\n"]) false]>
                    (streams hub))
                 (commands hub)
  | None => hub
  end.

(** The listener for [abort] on [request.signal], which [start] sets
    after [subscribed]. *)
Definition abort (channelPrefix : option string) (taskId : string) (controller : nat)
    (hub : Hub) : Hub :=
  let channel := default "a2a:task:" channelPrefix +:+ taskId in
  (* Remove from active connections *)
  let '(connections, commands) :=
    match activeConnections hub !! taskId with
    | Some controllers =>
        let controllers := controllers ∖ {[controller]} in
        if decide (size controllers = 0)
        then (delete taskId (activeConnections hub),
              commands hub ++ [Unsubscribe channel])
        else (<[taskId := controllers]> (activeConnections hub), commands hub)
    | None => (activeConnections hub, commands hub)
    end in
  (* [controller.close()], errors ignored *)
  let strs :=
    match streams hub !! controller with
    | Some stream => <[controller := mkStream (chunks stream) true]> (streams hub)
    | None => streams hub
    end in
  mkHub connections strs commands.

End RedisSSE.

(** * Vocabulary of the statements *)

(** A run of [saveMessage] calls, each a taskId and a message, through
    the storage interface. *)
Fixpoint save_calls {S} `{!StorageAdapter S} (calls : list (string * Message.t))
    (st : S) : Res S :=
  match calls with
  | [] => Ok st
  | (taskId, message) :: rest =>
      match Storage.saveMessage taskId message st with
      | Ok st' => save_calls rest st'
      | Err e => Err e
      end
  end.

(** The messages a run of calls saves for one task, in call order. *)
Definition messages_for (taskId : string) (calls : list (string * Message.t))
  : list Message.t :=
  (filter (fun call => call.1 = taskId) calls).*2.

Module MemorySpec.
Import MemoryStorageAdapter.

(** The artifact map as [updateArtifact] keeps it: one entry per key,
    and every artifact filed under its own artifactId. *)
Definition well_keyed (st : MemoryStore) : Prop :=
  NoDup (artifacts st).*1
  /\ forall entry, entry ∈ artifacts st -> Artifact.artifactId entry.2.2 = entry.1.

End MemorySpec.

Module SSESpec.
Import SSE.

(** The connections registered for a task. *)
Definition registered (taskId : string) (reg : Registry) : gset nat :=
  default ∅ (connections reg !! taskId).

(** The stream of the controller exists and has not been closed. *)
Definition open (c : nat) (reg : Registry) : Prop :=
  exists ctl, controllers reg !! c = Some ctl /\ closed ctl = false.

(** What has been written to the stream of a controller. *)
Definition received (c : nat) (reg : Registry) : list Frame :=
  default [] (enqueued <$> controllers reg !! c).

(** No task is kept in the registry without a connection. *)
Definition no_empty_entry (reg : Registry) : Prop :=
  forall taskId, connections reg !! taskId <> Some ∅.

End SSESpec.

Module DrizzleSpec.
Import DrizzleStorageAdapter.

(** A message as the adapter reads it back: [taskId] is not stored with
    the message, an empty [contextId] reads as absent, an absent
    [metadata] as [{}]. *)
Definition stored_form (message : Message.t) : Message.t :=
  Message.mk (Message.messageId message) (Message.role message)
    (Message.parts message) (js_or (Message.contextId message) None) None
    (Message.extensions message) (Some (default [] (Message.metadata message))).

(** The row of the join table that attaches a message row to its task. *)
Definition link (p : MessageRow * Z) : TaskMessageRow :=
  mkTaskMessageRow (m_taskId p.1) (m_id p.1) p.2.

Definition of_task (taskId : string) (l : list (MessageRow * Z))
  : list (MessageRow * Z) :=
  filter (fun p => m_taskId p.1 = taskId) l.

(** The state of the two message tables that [saveMessage] maintains as
    long as the generated ids are new: every message row has its own id
    and one row in the join table, and the sequence numbers of a task
    count up from 1 in table order. *)
Record linked (l : list (MessageRow * Z)) (db : Db) : Prop := mkLinked {
  linked_messages : messages db = l.*1;
  linked_taskMessages : taskMessages db = link <$> l;
  linked_ids : NoDup (m_id <$> l.*1);
  linked_sequences : forall taskId,
    (of_task taskId l).*2 = Z.of_nat <$> seq 1 (length (of_task taskId l));
  linked_max : forall taskId,
    default 0%Z (max_sequence taskId (link <$> l)) = Z.of_nat (length (of_task taskId l));
}.

Definition consistent (db : Db) : Prop := exists l, linked l db.

(** The identifiers still to be generated are new to the messages table
    and differ from one another. *)
Definition fresh_supply (env : Env) : Prop :=
  forall i, drawn env <= i ->
    (randomUUID env i ∉ (m_id <$> messages (db env)))
    /\ forall j, drawn env <= j -> randomUUID env i = randomUUID env j -> i = j.

(** A task as the adapter reads it back: the timestamp of the status,
    the history and the artifacts are not read, an absent [metadata]
    reads as [{}]. *)
Definition stored_task (task : Task.t) : Task.t :=
  Task.mk (Task.id task) (Task.contextId task)
    (TaskStatus.mk (TaskStatus.state (Task.status task))
       (TaskStatus.message (Task.status task)) None)
    None None (Some (default [] (Task.metadata task))).

(** An artifact as the adapter reads it back: an empty [name] or
    [description] reads as absent, an absent [metadata] as [{}]. *)
Definition stored_artifact (artifact : Artifact.t) : Artifact.t :=
  Artifact.mk (Artifact.artifactId artifact) (js_or (Artifact.name artifact) None)
    (js_or (Artifact.description artifact) None) (Artifact.parts artifact)
    (Artifact.extensions artifact) (Some (default [] (Artifact.metadata artifact))).

(** The states the adapter gets into from an empty database, with [gen]
    as its source of identifiers. *)
Inductive reachable (gen : nat -> string) : Env -> Prop :=
| reachable_init :
    reachable gen (mkEnv empty gen 0)
| reachable_saveTask env env' task :
    reachable gen env -> Storage.saveTask task env = Ok env' -> reachable gen env'
| reachable_updateTaskStatus env env' taskId status :
    reachable gen env -> Storage.updateTaskStatus taskId status env = Ok env' ->
    reachable gen env'
| reachable_saveMessage env env' taskId message :
    reachable gen env -> Storage.saveMessage taskId message env = Ok env' ->
    reachable gen env'
| reachable_updateArtifact env env' taskId artifact :
    reachable gen env -> Storage.updateArtifact taskId artifact env = Ok env' ->
    reachable gen env'.

End DrizzleSpec.

Module ZodSpec.

(** The property [k] is absent or a string. *)
Definition optional_string (k : string) (fields : Fields) : Prop :=
  match obj_get k fields with
  | None | Some (JStr _) => True
  | Some _ => False
  end.

(** What [FileBaseSchema] asks of an object. *)
Definition file_base (fields : Fields) : Prop :=
  optional_string "mimeType" fields /\ optional_string "name" fields.

(** The property [k] is a string. *)
Definition string_at (k : string) (fields : Fields) : Prop :=
  exists s, obj_get k fields = Some (JStr s).

(** The property [k] is a string that parses as a URL. *)
Definition url_at (is_url : string -> bool) (k : string) (fields : Fields) : Prop :=
  exists s, obj_get k fields = Some (JStr s) /\ is_url s = true.

(** The schema of an entry of a shape. *)
Definition field_schema (f : Zod.Field) : Zod.Schema :=
  match f with Zod.required s | Zod.optional s => s end.

(** A schema that accepts, unchanged, whatever it has produced. *)
Definition stable (s : Zod.Schema) : Prop :=
  forall v v', s v = Some v' -> s v' = Some v'.

End ZodSpec.

Module RedisSpec.
Import RedisSSE.

(** The streams registered for a task. *)
Definition registered (taskId : string) (hub : Hub) : gset nat :=
  default ∅ (activeConnections hub !! taskId).

(** The stream of the controller exists and has not been closed. *)
Definition open (c : nat) (hub : Hub) : Prop :=
  exists stream, streams hub !! c = Some stream /\ closed stream = false.

End RedisSpec.

Module HandlerSpec.
Import Zod.

(** A request id: a string, a number or [null]. *)
Definition rpc_id (id : Json) : Prop :=
  match id with
  | JStr _ | JNum _ | JNull => True
  | _ => False
  end.

(** The envelope of a JSON-RPC 2.0 request: the body has these four
    properties, among others it may have. *)
Definition envelope (input : Fields) (id : Json) (method : string) (params : Json)
  : Prop :=
  obj_get "jsonrpc" input = Some (JStr "2.0")
  /\ obj_get "id" input = Some id /\ rpc_id id
  /\ obj_get "method" input = Some (JStr method)
  /\ obj_get "params" input = Some params.

(** The methods of [JSONRPCRequestSchema]. *)
Definition methods : list string :=
  ["message/send"; "tasks/get"; "tasks/cancel";
   "tasks/setPushNotificationConfig"; "tasks/getPushNotificationConfig"].

(** A request as [JSONRPCRequestSchema] returns it. *)
Definition parsed (id : Json) (method : string) (params : Json) : Json :=
  JObj [("jsonrpc", JStr "2.0"); ("id", id); ("method", JStr method);
        ("params", params)].

(** The schema of the [params] of a method. *)
Definition params_schema (is_url : string -> bool) (method : string)
  : option Schema :=
  if decide (method = "message/send") then Some (SendMessageParamsSchema is_url)
  else if decide (method = "tasks/get") then Some GetTaskParamsSchema
  else if decide (method = "tasks/cancel") then Some CancelTaskParamsSchema
  else if decide (method = "tasks/setPushNotificationConfig")
  then Some (SetTaskPushNotificationConfigParamsSchema is_url)
  else if decide (method = "tasks/getPushNotificationConfig")
  then Some GetTaskPushNotificationConfigParamsSchema
  else None.

(** The code of an error response. *)
Definition error_code (response : Handler.Response) : option Z :=
  match response with
  | Handler.ErrorResponse _ code _ _ => Some code
  | Handler.SuccessResponse _ _ => None
  end.

End HandlerSpec.

(** * Example data *)
Module Fixture.

Definition text (s : string) : Part := TextPart s None.

Definition msg (messageId : string) (parts : list Part) : Message.t :=
  Message.mk messageId user parts None None None (Some []).

Definition hello : Message.t := msg "m1" [text "hello"].
Definition hello_again : Message.t := msg "m1" [text "hello again"].
Definition bye : Message.t := msg "m2" [text "bye"].

Definition task1 : Task.t :=
  Task.mk "t1" "ctx" (TaskStatus.mk submitted None None) None None (Some []).

Definition plan (parts : list Part) : Artifact.t :=
  Artifact.mk "a1" (Some "plan") None parts None (Some []).

Definition draft : Artifact.t := plan [DataPart [("x", JNum 1)] None].
Definition final : Artifact.t := plan [DataPart [("x", JNum 2)] None].

Definition working_on (message : Message.t) : TaskStatus.t :=
  TaskStatus.mk working (Some message) None.

(** Identifiers that never repeat. *)
Definition uuids (n : nat) : string := "uuid-" +:+ pretty n.

(** A database that holds [task1] and nothing else. *)
Definition db1 : DrizzleStorageAdapter.Db :=
  DrizzleStorageAdapter.saveTask task1 DrizzleStorageAdapter.empty.

Definition env1 : DrizzleStorageAdapter.Env :=
  DrizzleStorageAdapter.mkEnv db1 uuids 0.

(** A database that holds two tasks, "t1" and "t2". *)
Definition task2 : Task.t :=
  Task.mk "t2" "ctx" (TaskStatus.mk submitted None None) None None (Some []).

Definition db2 : DrizzleStorageAdapter.Db := DrizzleStorageAdapter.saveTask task2 db1.

Definition env2 : DrizzleStorageAdapter.Env :=
  DrizzleStorageAdapter.mkEnv db2 uuids 0.

(** A message that names its task. *)
Definition addressed : Message.t :=
  Message.mk "m4" user [text "hello"] (Some "ctx") (Some "t1") None (Some []).

Definition store1 : MemoryStorageAdapter.MemoryStore :=
  MemoryStorageAdapter.saveTask task1 MemoryStorageAdapter.empty.

(** The input schema [z.object({ text: z.string() })]. *)
Definition text_input : Zod.Schema := Zod.object [("text", Zod.required Zod.string_)].

(** An executor that returns its input. *)
Definition echo {S E} (extension : string) : Core.Executor S E :=
  Core.mkExecutor extension (Some text_input) None (fun input _ => Core.ret input).

(** An executor that returns its own extension URI. *)
Definition tagged {S E} (extension : string) : Core.Executor S E :=
  Core.mkExecutor extension None None (fun _ _ => Core.ret (JStr extension)).

Definition request (extensions : list string) (parts : list Part) : Message.t :=
  Message.mk "m3" user parts None None (Some extensions) (Some []).

Definition to_t1 : option Core.Options :=
  Some (Core.mkOptions (Some "t1") (Some "ctx")).

(** One observer, controller 0, connected for task "t1". *)
Definition reg1 : SSE.Registry :=
  SSE.mkRegistry {["t1" := {[0]}]} {[0 := SSE.mkController [] false]}.

Definition now_working : A2AEvent :=
  StatusUpdate "t1" "ctx" (TaskStatus.mk working None None) false.
Definition plan_ready : A2AEvent := ArtifactUpdate "t1" "ctx" draft.
Definition now_completed : A2AEvent :=
  StatusUpdate "t1" "ctx" (TaskStatus.mk completed None None) false.

(** A stored task that is already completed. *)
Definition done_task : Task.t :=
  Task.mk "t1" "ctx" (TaskStatus.mk completed None (Some "earlier")) None
    (Some [hello]) (Some []).

(** A file value that carries both [bytes] and [uri]. *)
Definition both_file : Json :=
  JObj [("bytes", JStr "SGVsbG8="); ("uri", JStr "https://example.com/hello.txt")].

(** An event sender that records what it is given. *)
Definition recorder (event : A2AEvent) (log : list A2AEvent) : Res (list A2AEvent) :=
  Ok (log ++ [event]).

(** A JSON-RPC request body; the key [trace] is not part of a request. *)
Definition rpc (id : Json) (method : string) (params : Json) : Json :=
  JObj [("trace", JStr "x"); ("jsonrpc", JStr "2.0"); ("id", id);
        ("method", JStr method); ("params", params)].

(** A message on the wire, for the extension "urn:a". *)
Definition wire_message : Json :=
  JObj [("kind", JStr "message"); ("messageId", JStr "m3");
        ("parts", JArr [JObj [("kind", JStr "text"); ("text", JStr "hi")]]);
        ("role", JStr "user"); ("contextId", JStr "mine");
        ("extensions", JArr [JStr "urn:a"])].

(** The typed view of [wire_message]. *)
Definition typed_message : Message.t :=
  Message.mk "m3" user [text "hi"] (Some "mine") None (Some ["urn:a"]) None.

(** A status-update as the Redis event sender publishes it. *)
Definition published : Json :=
  JObj [("kind", JStr "status-update"); ("taskId", JStr "t1");
        ("contextId", JStr "ctx"); ("final", JBool false);
        ("status", JObj [("state", JStr "working")]);
        ("timestamp", JStr "10:00")].

(** One stream, controller 0, open for task "t1" over Redis. *)
Definition hub1 : RedisSSE.Hub :=
  RedisSSE.mkHub {["t1" := {[0]}]} {[0 := RedisSSE.mkStream [] false]}
    [RedisSSE.Subscribe "a2a:task:t1"].

End Fixture.

(** * Properties of the in-memory adapter *)

Section memory.
Import MemoryStorageAdapter.

Lemma map_get_set {V} (k : string) (v : V) (m : JsMap V) :
  map_get k (map_set k v m) = Some v.
Proof.
  induction m as [|[k' v'] m IH]; simpl.
  - by rewrite decide_True.
  - destruct (decide (k' = k)) as [->|Hne]; simpl.
    + by rewrite decide_True.
    + by rewrite decide_False.
Qed.

Lemma map_set_keys_NoDup {V} (k : string) (v : V) (m : JsMap V) :
  NoDup m.*1 -> NoDup (map_set k v m).*1.
Proof.
  induction m as [|[k' v'] m IH]; simpl; intros Hnd.
  - apply NoDup_singleton.
  - destruct (decide (k' = k)) as [->|Hne]; simpl; [done|].
    inversion Hnd as [|? ? Hnotin Hnd']; subst.
    constructor; [|by apply IH].
    intros Hin. apply Hnotin. clear -Hin Hne.
    induction m as [|[k'' v''] m IH]; simpl in *.
    + apply list_elem_of_singleton in Hin. congruence.
    + destruct (decide (k'' = k)); simpl in *.
      * apply elem_of_cons in Hin as [->|Hin]; [done|]. by right.
      * apply elem_of_cons in Hin as [->|Hin]; [by left|]. right. by apply IH.
Qed.

Lemma filter_none {A} (P : A -> Prop) `{!forall x, Decision (P x)} (l : list A) :
  (forall x, x ∈ l -> ~ P x) -> filter P l = [].
Proof.
  induction l as [|x l IH]; intros Hl; [done|].
  rewrite filter_cons_False by (apply Hl; by left).
  apply IH. intros y Hy. apply Hl. by right.
Qed.

Lemma filter_key_map_set {V} (k : string) (v : V) (m : JsMap V) :
  NoDup m.*1 ->
  filter (fun entry => entry.1 = k) (map_set k v m) = [(k, v)].
Proof.
  induction m as [|[k' v'] m IH]; simpl; intros Hnd.
  - by rewrite filter_cons_True.
  - inversion Hnd as [|? ? Hnotin Hnd']; subst.
    destruct (decide (k' = k)) as [->|Hne].
    + rewrite filter_cons_True by done. f_equal.
      apply filter_none. intros [k'' v''] Hin Heq.
      simpl in Heq. subst. apply Hnotin. by apply (list_elem_of_fmap_2 fst) in Hin.
    + rewrite filter_cons_False by (simpl; congruence). by apply IH.
Qed.

(** The artifact map of the in-memory adapter upserts by artifactId:
    after two calls with one artifactId the map files one artifact under
    it, the second, and [getArtifact] returns it. *)
Lemma memory_updateArtifact_upserts (st : MemoryStore) (taskId : string)
    (a a' : Artifact.t) :
  NoDup (artifacts st).*1 ->
  Artifact.artifactId a' = Artifact.artifactId a ->
  let st' := updateArtifact taskId a' (updateArtifact taskId a st) in
  stored_artifacts (Artifact.artifactId a) st' = [(taskId, a')]
  /\ getArtifact (Artifact.artifactId a) st' = Some a'.
Proof.
  intros Hnd Heq st'.
  assert (artifacts st' =
          map_set (Artifact.artifactId a) (taskId, a')
            (map_set (Artifact.artifactId a) (taskId, a) (artifacts st))) as Hart.
  { unfold st', updateArtifact. rewrite Heq.
    repeat (case_match; simpl); done. }
  unfold stored_artifacts, getArtifact. rewrite Hart. split.
  - rewrite filter_key_map_set by by apply map_set_keys_NoDup. done.
  - by rewrite map_get_set.
Qed.

(** [updateTaskStatus] of the in-memory adapter throws on a taskId
    without a task, and leaves the store as it was. *)
Lemma memory_updateTaskStatus_missing (st : MemoryStore) (taskId : string)
    (status : TaskStatus.t) :
  getTask taskId st = None ->
  updateTaskStatus taskId status st = Err (TaskNotFound taskId).
Proof. unfold getTask, updateTaskStatus. by intros ->. Qed.

(** On an existing task the in-memory [updateTaskStatus] replaces the
    status and appends [status.message] to the history and to the
    message sequence of the task. *)
Lemma memory_updateTaskStatus_appends (st : MemoryStore) (taskId : string)
    (task : Task.t) (state : TaskState) (message : Message.t) (ts : option string) :
  getTask taskId st = Some task ->
  exists st',
    updateTaskStatus taskId (TaskStatus.mk state (Some message) ts) st = Ok st'
    /\ getTask taskId st' =
         Some (Task.set_history (default [] (Task.history task) ++ [message])
                 (Task.set_status (TaskStatus.mk state (Some message) ts) task))
    /\ getMessages taskId st' = getMessages taskId st ++ [message].
Proof.
  unfold getTask, updateTaskStatus. intros ->. simpl. eexists. split; [done|].
  unfold getTask, getMessages, saveMessage. simpl.
  by rewrite !lookup_insert_eq.
Qed.

Lemma memory_getMessages_saveMessage (st : MemoryStore) (taskId taskId' : string)
    (message : Message.t) :
  getMessages taskId (saveMessage taskId' message st) =
  if decide (taskId' = taskId) then getMessages taskId st ++ [message]
  else getMessages taskId st.
Proof.
  unfold getMessages, saveMessage. simpl. case_decide as Heq.
  - subst. by rewrite lookup_insert_eq.
  - by rewrite lookup_insert_ne.
Qed.

End memory.

(** * Properties of the Drizzle adapter *)

Section drizzle.
Import DrizzleStorageAdapter.

(** An insert whose key is not in the table appends the row: the
    conflict clause does not fire. *)
Lemma insert_onConflictDoUpdate_fresh {R} (key : R -> string) (row : R)
    (set : R -> R) (table : list R) :
  key row ∉ key <$> table ->
  insert_onConflictDoUpdate key row set table = table ++ [row].
Proof.
  induction table as [|r table IH]; simpl; intros Hfresh; [done|].
  apply not_elem_of_cons in Hfresh as [Hne Hfresh].
  rewrite decide_False by congruence. by rewrite IH.
Qed.

(** An insert whose key is in the table leaves the number of rows as it
    is. *)
Lemma insert_onConflictDoUpdate_length {R} (key : R -> string) (row : R)
    (set : R -> R) (table : list R) :
  key row ∈ key <$> table ->
  length (insert_onConflictDoUpdate key row set table) = length table.
Proof.
  induction table as [|r table IH]; simpl; intros Hin.
  - by apply elem_of_nil in Hin.
  - case_decide as Heq; simpl; [done|].
    apply elem_of_cons in Hin as [Hin|Hin]; [congruence|]. by rewrite IH.
Qed.

Lemma has_task_getTask (taskId : string) (db : Db) :
  has_task taskId db = true <-> is_Some (getTask taskId db).
Proof.
  unfold has_task, getTask, first_row, select_where.
  induction (tasks db) as [|r ts IH]; simpl.
  - split; [done|]. by intros [? [=]].
  - destruct (bool_decide (t_id r = taskId)); simpl; [|done].
    split; [eauto|done].
Qed.

(** With a new row id, [updateArtifact] of an artifact that has
    [metadata], for a task that has a row, appends a row. *)
Lemma drizzle_updateArtifact_fresh (uuid taskId : string) (artifact : Artifact.t)
    (db : Db) :
  uuid ∉ a_id <$> artifacts db ->
  has_task taskId db = true ->
  is_Some (Artifact.metadata artifact) ->
  updateArtifact uuid taskId artifact db =
  Ok (mkDb (tasks db) (messages db)
        (artifacts db ++ [artifactToDb uuid taskId artifact]) (taskMessages db)).
Proof.
  intros Hfresh Htask [metadata Hmeta]. unfold updateArtifact. simpl.
  rewrite Hmeta, Htask. simpl. rewrite andb_false_r.
  by rewrite insert_onConflictDoUpdate_fresh.
Qed.

(** The conflict target of [updateArtifact] is the generated row id, so
    with two distinct generated ids the table ends up with two rows for
    the one artifactId, whatever it held before. *)
Lemma drizzle_updateArtifact_twice_fresh (uuid uuid' taskId : string)
    (a a' : Artifact.t) (db : Db) :
  uuid ∉ a_id <$> artifacts db ->
  uuid' ∉ a_id <$> artifacts db ->
  uuid <> uuid' ->
  Artifact.artifactId a' = Artifact.artifactId a ->
  has_task taskId db = true ->
  is_Some (Artifact.metadata a) -> is_Some (Artifact.metadata a') ->
  exists db' db'',
    updateArtifact uuid taskId a db = Ok db'
    /\ updateArtifact uuid' taskId a' db' = Ok db''
    /\ stored_artifacts (Artifact.artifactId a) db'' =
         stored_artifacts (Artifact.artifactId a) db
           ++ [artifactToDb uuid taskId a; artifactToDb uuid' taskId a'].
Proof.
  intros Hfresh Hfresh' Hne Hid Htask Hmeta Hmeta'.
  eexists _, _. split; [by apply drizzle_updateArtifact_fresh|]. split.
  - apply drizzle_updateArtifact_fresh; [|done|done]. simpl.
    rewrite fmap_app. simpl. intros Hin. apply elem_of_app in Hin as [Hin|Hin]; [done|].
    apply list_elem_of_singleton in Hin. congruence.
  - unfold stored_artifacts, select_where. simpl.
    rewrite <- app_assoc, List.filter_app. f_equal. simpl.
    rewrite Hid. by rewrite !bool_decide_eq_true_2.
Qed.

(** [updateTaskStatus] on a taskId without a row rewrites nothing. *)
Lemma drizzle_updateTaskStatus_missing (taskId : string) (status : TaskStatus.t)
    (db : Db) :
  getTask taskId db = None ->
  updateTaskStatus taskId status db = db.
Proof.
  unfold getTask, updateTaskStatus, first_row, select_where. intros Hnone.
  destruct db as [ts ms arts tms]. simpl in *. f_equal.
  induction ts as [|r ts IH]; simpl in *; [done|].
  case_decide as Heq.
  - by rewrite bool_decide_eq_true_2 in Hnone.
  - rewrite bool_decide_eq_false_2 in Hnone by done. f_equal. by apply IH.
Qed.

(** [updateTaskStatus] writes to the tasks table only: no message is
    attached to any task by it. *)
Lemma drizzle_updateTaskStatus_messages (taskId taskId' : string)
    (status : TaskStatus.t) (db : Db) :
  messages (updateTaskStatus taskId status db) = messages db
  /\ taskMessages (updateTaskStatus taskId status db) = taskMessages db
  /\ getMessages taskId' (updateTaskStatus taskId status db) = getMessages taskId' db.
Proof. done. Qed.

End drizzle.

(** ** Message order in the Drizzle adapter *)

Section drizzle_order.
Import DrizzleStorageAdapter DrizzleSpec.

Lemma js_or_None_idem (a : option string) :
  js_or (js_or a None) None = js_or a None.
Proof.
  destruct a as [c|]; [|done]. unfold js_or, truthy.
  destruct (String.eqb c "") eqn:E; simpl; [done|]. by rewrite E.
Qed.

Lemma dbToMessage_messageToDb (uuid taskId : string) (message : Message.t) :
  dbToMessage (messageToDb uuid message taskId) = stored_form message.
Proof.
  unfold dbToMessage, messageToDb, stored_form. simpl. f_equal.
  - apply js_or_None_idem.
  - by destruct (Message.metadata message).
Qed.

(** A message without [taskId], with [metadata] and with no empty
    [contextId] is read back as it was saved. *)
Lemma stored_form_id (message : Message.t) :
  Message.taskId message = None ->
  Message.contextId message <> Some "" ->
  is_Some (Message.metadata message) ->
  stored_form message = message.
Proof.
  destruct message as [mid r ps c t e md]. unfold stored_form. simpl.
  intros -> Hc [fields ->]. f_equal.
  destruct c as [c|]; [|done]. unfold js_or, truthy.
  destruct (String.eqb_spec c ""); [congruence|done].
Qed.

(** Sequence numbers that count up are already in [orderBy] order. *)
Lemma orderBy_sequence_counting (l : list (MessageRow * Z)) (a : nat) :
  l.*2 = Z.of_nat <$> seq a (length l) ->
  orderBy_sequence l = l.
Proof.
  revert a. induction l as [|x l IH]; intros a Hseq; [done|].
  simpl in Hseq. injection Hseq as Hx Hl.
  simpl. rewrite (IH (S a)) by done.
  destruct l as [|y l']; [done|].
  simpl in Hl. injection Hl as Hy _.
  simpl. rewrite decide_True by lia. done.
Qed.

(** The rows of the join table that match a message row whose id is not
    theirs contribute nothing to the join. *)
Lemma join_row_foreign (taskId : string) (m : MessageRow) (l : list (MessageRow * Z)) :
  m_id m ∉ m_id <$> l.*1 ->
  (tm ← link <$> l;
   if bool_decide (m_id m = tm_messageId tm) && bool_decide (tm_taskId tm = taskId)
   then [(m, tm_sequence tm)] else []) = [].
Proof.
  induction l as [|q l IH]; intros Hnotin; [done|].
  rewrite !fmap_cons in Hnotin. apply not_elem_of_cons in Hnotin as [Hne Hnotin].
  rewrite fmap_cons, bind_cons. simpl.
  rewrite bool_decide_eq_false_2 by done. simpl. by apply IH.
Qed.

(** A message row is joined with its own row of the join table, and
    with no other. *)
Lemma join_row_own (taskId : string) (p : MessageRow * Z) (l : list (MessageRow * Z)) :
  NoDup (m_id <$> l.*1) ->
  p ∈ l ->
  (tm ← link <$> l;
   if bool_decide (m_id p.1 = tm_messageId tm) && bool_decide (tm_taskId tm = taskId)
   then [(p.1, tm_sequence tm)] else []) =
  if decide (m_taskId p.1 = taskId) then [p] else [].
Proof.
  induction l as [|q l IH]; intros Hnd Hin; [by apply elem_of_nil in Hin|].
  rewrite !fmap_cons in Hnd. apply NoDup_cons in Hnd as [Hq Hnd].
  rewrite fmap_cons, bind_cons.
  apply elem_of_cons in Hin as [->|Hin].
  - rewrite join_row_foreign by done. simpl.
    rewrite bool_decide_eq_true_2 by done. simpl.
    clear IH. destruct q as [m s]. simpl. rewrite app_nil_r.
    destruct (decide (m_taskId m = taskId)) as [Ht|Ht].
    + by rewrite bool_decide_eq_true_2.
    + by rewrite bool_decide_eq_false_2.
  - assert (m_id p.1 <> m_id q.1) as Hne.
    { intros Heq. apply Hq. rewrite <- Heq.
      apply list_elem_of_fmap. exists p.1. split; [done|].
      apply list_elem_of_fmap. by exists p. }
    simpl. rewrite bool_decide_eq_false_2 by done. simpl. by apply IH.
Qed.

Lemma join_taskMessages_linked (taskId : string) (l : list (MessageRow * Z)) (db : Db) :
  linked l db ->
  join_taskMessages taskId db = of_task taskId l.
Proof.
  intros [Hm Htm Hnd _ _]. unfold join_taskMessages. rewrite Hm, Htm.
  assert (forall l', l' ⊆ l ->
            (m ← l'.*1; tm ← link <$> l;
             if bool_decide (m_id m = tm_messageId tm) && bool_decide (tm_taskId tm = taskId)
             then [(m, tm_sequence tm)] else []) = of_task taskId l') as Hgen.
  { induction l' as [|p l' IH]; intros Hsub; [done|].
    rewrite fmap_cons, bind_cons.
    rewrite (join_row_own taskId p l Hnd) by (apply Hsub; by left).
    rewrite IH by (intros x Hx; apply Hsub; by right).
    unfold of_task. rewrite filter_cons. by case_decide. }
  by apply Hgen.
Qed.

(** Under [linked], [getMessages] returns the messages of the task in
    table order, which is the order of their sequence numbers. *)
Lemma getMessages_linked (taskId : string) (l : list (MessageRow * Z)) (db : Db) :
  linked l db ->
  getMessages taskId db = dbToMessage <$> (of_task taskId l).*1.
Proof.
  intros Hl. unfold getMessages.
  rewrite (join_taskMessages_linked taskId l db Hl).
  rewrite (orderBy_sequence_counting _ 1) by apply Hl.
  by rewrite <- list_fmap_compose.
Qed.

Lemma insert_onConflictDoNothing_fresh (row : TaskMessageRow)
    (table : list TaskMessageRow) :
  tm_messageId row ∉ tm_messageId <$> table ->
  insert_onConflictDoNothing row table = table ++ [row].
Proof.
  intros Hfresh. unfold insert_onConflictDoNothing.
  destruct (existsb _ table) eqn:Hex; [|done].
  apply existsb_exists in Hex as (r & Hin & Hr).
  apply andb_true_iff in Hr as [_ Hr]. apply bool_decide_eq_true in Hr.
  exfalso. apply Hfresh. rewrite <- Hr. apply list_elem_of_fmap. exists r.
  split; [done|]. by apply list_elem_of_In.
Qed.

Lemma link_messageId (l : list (MessageRow * Z)) :
  tm_messageId <$> (link <$> l) = m_id <$> l.*1.
Proof. rewrite <- !list_fmap_compose. done. Qed.

(** With a new id, [saveMessage] throws for a task without a row, and
    writes nothing; for a task that has a row it appends the message row
    and inserts the row of the join table. *)
Lemma saveMessage_fresh (uuid taskId : string) (message : Message.t) (db : Db) :
  uuid ∉ m_id <$> messages db ->
  saveMessage uuid taskId message db =
  if has_task taskId db
  then (Ok tt,
        mkDb (tasks db) (messages db ++ [messageToDb uuid message taskId]) (artifacts db)
          (insert_onConflictDoNothing
             (mkTaskMessageRow taskId uuid
                (default 0 (max_sequence taskId (taskMessages db)) + 1)%Z)
             (taskMessages db)))
  else (Err FOREIGN_KEY, db).
Proof.
  intros Hfresh. unfold saveMessage, insert_message. simpl.
  rewrite bool_decide_eq_false_2 by done. simpl.
  destruct (has_task taskId db) eqn:Htask; simpl; [|done].
  unfold insert_taskMessage, has_task in *. simpl. rewrite Htask, andb_false_r.
  by rewrite insert_onConflictDoUpdate_fresh.
Qed.

(** With a new id and a task that has a row, [saveMessage] attaches the
    message to the task under the next sequence number: the current
    maximum of the task plus one. *)
Lemma saveMessage_linked (uuid taskId : string) (message : Message.t)
    (l : list (MessageRow * Z)) (db : Db) :
  linked l db ->
  uuid ∉ m_id <$> messages db ->
  has_task taskId db = true ->
  let sequence := (default 0 (max_sequence taskId (taskMessages db)) + 1)%Z in
  exists db',
    saveMessage uuid taskId message db = (Ok tt, db')
    /\ tasks db' = tasks db
    /\ messages db' = messages db ++ [messageToDb uuid message taskId]
    /\ taskMessages db' = taskMessages db ++ [mkTaskMessageRow taskId uuid sequence]
    /\ linked (l ++ [(messageToDb uuid message taskId, sequence)]) db'.
Proof.
  intros Hl Hfresh Htask sequence.
  pose proof Hl as [Hm Htm Hnd Hseq Hmax].
  assert (sequence = Z.of_nat (S (length (of_task taskId l)))) as Hsequence.
  { unfold sequence. rewrite Htm, Hmax. lia. }
  rewrite saveMessage_fresh, Htask by done. fold sequence.
  assert (insert_onConflictDoNothing (mkTaskMessageRow taskId uuid sequence)
            (taskMessages db) =
          taskMessages db ++ [mkTaskMessageRow taskId uuid sequence]) as Htm'.
  { apply insert_onConflictDoNothing_fresh. simpl.
    rewrite Htm, link_messageId, <- Hm. done. }
  eexists. split; [reflexivity|]. simpl. rewrite Htm'.
  split; [done|]. split; [done|]. split; [done|]. split; simpl.
  - by rewrite Hm, fmap_app.
  - rewrite Htm, fmap_app. done.
  - rewrite !fmap_app. simpl. apply NoDup_app. split; [done|]. split.
    + intros x Hx Hx'. apply list_elem_of_singleton in Hx'. subst x.
      apply Hfresh. by rewrite Hm.
    + apply NoDup_singleton.
  - intros t. unfold of_task. rewrite filter_app, filter_cons, filter_nil. simpl.
    case_decide as Ht.
    + subst t. rewrite fmap_app, length_app. simpl.
      rewrite Nat.add_1_r, seq_S, fmap_app. simpl.
      f_equal; [apply Hseq|]. by rewrite Hsequence.
    + rewrite app_nil_r. apply Hseq.
  - intros t. rewrite fmap_app. unfold max_sequence. rewrite foldl_app. simpl.
    fold (max_sequence t (link <$> l)).
    unfold of_task. rewrite filter_app, filter_cons, filter_nil. simpl.
    pose proof (Hmax t) as Ht. unfold of_task in Ht.
    case_decide as Heq.
    + subst t. rewrite length_app. simpl.
      rewrite Hsequence. unfold of_task.
      destruct (max_sequence taskId (link <$> l)); simpl in *; lia.
    + by rewrite app_nil_r.
Qed.

End drizzle_order.

Section call_order.
Import DrizzleStorageAdapter DrizzleSpec.

(** [orderBy_sequence] is a sort: its result is ordered by sequence
    number and holds the rows it was given. *)
Lemma insert_by_sequence_sorted (x : MessageRow * Z) (l : list (MessageRow * Z)) :
  StronglySorted Z.le l.*2 -> StronglySorted Z.le (insert_by_sequence x l).*2.
Proof.
  induction l as [|y l IH]; simpl; intros Hs.
  - repeat constructor.
  - inversion Hs as [|? ? Hs' Hall]; subst. case_decide as Hlt; simpl.
    + constructor; [done|]. constructor; [lia|].
      eapply Forall_impl; [exact Hall|]. simpl. lia.
    + constructor; [by apply IH|].
      assert (forall z, z ∈ (insert_by_sequence x l).*2 -> z = x.2 \/ z ∈ l.*2) as Hin.
      { clear. induction l as [|w l IH]; simpl; intros z Hz.
        - apply list_elem_of_singleton in Hz. by left.
        - case_decide; simpl in Hz.
          + apply elem_of_cons in Hz as [->|Hz]; [by left|]. by right.
          + apply elem_of_cons in Hz as [->|Hz]; [right; by left|].
            destruct (IH _ Hz) as [->|Hz']; [by left|]. right. by right. }
      apply Forall_forall. intros z Hz. destruct (Hin z Hz) as [->|Hz']; [lia|].
      rewrite Forall_forall in Hall. by apply Hall.
Qed.

Lemma orderBy_sequence_sorted (l : list (MessageRow * Z)) :
  StronglySorted Z.le (orderBy_sequence l).*2.
Proof.
  induction l as [|x l IH]; simpl; [constructor|].
  by apply insert_by_sequence_sorted.
Qed.

Lemma orderBy_sequence_Permutation (l : list (MessageRow * Z)) :
  orderBy_sequence l ≡ₚ l.
Proof.
  induction l as [|x l IH]; simpl; [done|].
  rewrite <- IH at 2. generalize (orderBy_sequence l). clear.
  intros l. induction l as [|y l IH]; simpl; [done|].
  case_decide; [done|]. rewrite IH. apply Permutation_swap.
Qed.

(** [saveMessage] through the interface, with a new identifier. *)
Lemma drizzle_saveMessage_fresh (env : Env) (taskId : string) (message : Message.t) :
  randomUUID env (drawn env) ∉ m_id <$> messages (db env) ->
  Storage.saveMessage taskId message env =
  match saveMessage (randomUUID env (drawn env)) taskId message (db env) with
  | (Ok _, db') => Ok (mkEnv db' (randomUUID env) (S (drawn env)))
  | (Err e, _) => Err e
  end
  /\ (has_task taskId (db env) = false ->
      Storage.saveMessage taskId message env = Err FOREIGN_KEY).
Proof.
  intros Hfresh. simpl. unfold with_uuid. split.
  - by destruct (saveMessage _ _ _ _) as [[[]|e] db'].
  - intros Hnone. by rewrite saveMessage_fresh, Hnone.
Qed.

Lemma fresh_supply_saveMessage (env env' : Env) (taskId : string)
    (message : Message.t) :
  fresh_supply env ->
  Storage.saveMessage taskId message env = Ok env' ->
  fresh_supply env'.
Proof.
  intros Hfresh Hsave.
  destruct (Hfresh (drawn env) ltac:(lia)) as [Hnew _].
  simpl in Hsave. unfold with_uuid in Hsave.
  rewrite saveMessage_fresh in Hsave by done.
  destruct (has_task taskId (db env)); [|done]. injection Hsave as <-.
  intros i Hi. simpl in *.
  destruct (Hfresh i ltac:(lia)) as [Hnewi Hinj]. split.
  - rewrite fmap_app. simpl. intros Hin.
    apply elem_of_app in Hin as [Hin|Hin]; [done|].
    apply list_elem_of_singleton in Hin. apply Hinj in Hin; lia.
  - intros j Hj. apply Hinj. lia.
Qed.

(** A run of calls for tasks that have a row, with new identifiers. *)
Lemma save_calls_linked (calls : list (string * Message.t)) (env : Env)
    (l : list (MessageRow * Z)) :
  linked l (db env) ->
  fresh_supply env ->
  Forall (fun call => has_task call.1 (db env) = true) calls ->
  exists env' l',
    save_calls calls env = Ok env'
    /\ linked (l ++ l') (db env')
    /\ forall taskId,
         dbToMessage <$> (of_task taskId l').*1 = stored_form <$> messages_for taskId calls.
Proof.
  revert env l. induction calls as [|[taskId message] calls IH];
    intros env l Hl Hfresh Htasks.
  - exists env, []. rewrite app_nil_r. done.
  - apply Forall_cons in Htasks as [Htask Htasks]. simpl in Htask.
    set (uuid := randomUUID env (drawn env)).
    assert (uuid ∉ m_id <$> messages (db env)) as Hnew.
    { by apply (Hfresh (drawn env)). }
    destruct (saveMessage_linked uuid taskId message l (db env) Hl Hnew Htask)
      as (db' & Hsave & Hsame & _ & _ & Hl').
    set (env1 := mkEnv db' (randomUUID env) (S (drawn env))).
    assert (Storage.saveMessage taskId message env = Ok env1) as Hstep.
    { simpl. unfold with_uuid. fold uuid. by rewrite Hsave. }
    pose proof (fresh_supply_saveMessage env env1 taskId message Hfresh Hstep) as Hfresh1.
    destruct (IH env1 _ Hl' Hfresh1) as (env' & l' & Hcalls & Hl'' & Hmsgs).
    { eapply Forall_impl; [exact Htasks|]. intros call. unfold has_task. simpl.
      by rewrite Hsame. }
    eexists env', (_ :: l'). split; [|split].
    + cbn [save_calls]. by rewrite Hstep.
    + by rewrite <- app_assoc in Hl''.
    + intros t. unfold messages_for, of_task. rewrite !filter_cons. simpl.
      specialize (Hmsgs t). unfold messages_for, of_task in Hmsgs.
      case_decide; simpl; [|done].
      rewrite dbToMessage_messageToDb. by f_equal.
Qed.

Lemma save_calls_memory (calls : list (string * Message.t))
    (st : MemoryStorageAdapter.MemoryStore) (taskId : string) :
  exists st',
    save_calls calls st = Ok st'
    /\ Storage.getMessages taskId st' =
         Storage.getMessages taskId st ++ messages_for taskId calls.
Proof.
  revert st. induction calls as [|[taskId' message] calls IH]; intros st.
  - exists st. unfold messages_for. simpl. by rewrite app_nil_r.
  - simpl. destruct (IH (MemoryStorageAdapter.saveMessage taskId' message st))
      as (st' & Hsave & Hget).
    change (@Storage.getMessages _ _ taskId)
      with (MemoryStorageAdapter.getMessages taskId) in *.
    exists st'. split; [done|]. rewrite Hget.
    rewrite memory_getMessages_saveMessage.
    unfold messages_for. rewrite filter_cons. simpl.
    case_decide; simpl; [|done]. by rewrite <- app_assoc.
Qed.

Lemma linked_tables (l : list (MessageRow * Z)) (db db' : Db) :
  messages db' = messages db -> taskMessages db' = taskMessages db ->
  linked l db -> linked l db'.
Proof. intros Hm Htm [? ? ? ? ?]. split; congruence. Qed.

(** Every state the adapter reaches with identifiers that do not repeat
    has its message tables [consistent] and its identifiers fresh. *)
Lemma reachable_consistent (gen : nat -> string) (env : Env) :
  (forall i j, gen i = gen j -> i = j) ->
  reachable gen env ->
  randomUUID env = gen /\ consistent (db env) /\ fresh_supply env.
Proof.
  intros Hinj Hreach.
  induction Hreach as
    [|env env' task _ (Hgen & [l Hl] & Hfresh) Hstep
     |env env' taskId status _ (Hgen & [l Hl] & Hfresh) Hstep
     |env env' taskId message _ (Hgen & [l Hl] & Hfresh) Hstep
     |env env' taskId artifact _ (Hgen & [l Hl] & Hfresh) Hstep].
  - split; [done|]. split.
    + exists []. split; simpl; try done. apply NoDup_nil_2.
    + intros i _. split; [apply not_elem_of_nil|]. intros j _. apply Hinj.
  - injection Hstep as <-. split; [done|]. split; [|done].
    exists l. by apply (linked_tables l (db env)).
  - injection Hstep as <-. split; [done|]. split; [|done].
    exists l. by apply (linked_tables l (db env)).
  - pose proof (fresh_supply_saveMessage env env' taskId message Hfresh Hstep)
      as Hfresh'.
    assert (randomUUID env (drawn env) ∉ m_id <$> messages (db env)) as Hnew
      by by apply (Hfresh (drawn env)).
    simpl in Hstep. unfold with_uuid in Hstep.
    destruct (has_task taskId (db env)) eqn:Htask;
      [|by rewrite saveMessage_fresh, Htask in Hstep].
    destruct (saveMessage_linked _ taskId message l (db env) Hl Hnew Htask)
      as (db' & Hsave & _ & _ & _ & Hl').
    rewrite Hsave in Hstep. injection Hstep as <-.
    split; [done|]. split; [by eexists|done].
  - simpl in Hstep. unfold with_uuid in Hstep.
    destruct (updateArtifact _ taskId artifact (db env)) as [db'|e] eqn:Hupd; [|done].
    injection Hstep as <-.
    assert (messages db' = messages (db env)
            /\ taskMessages db' = taskMessages (db env)) as [Hm Htm].
    { unfold updateArtifact in Hupd.
      destruct (a_metadata _); [|done].
      destruct (_ && _); [done|]. by injection Hupd as <-. }
    split; [done|]. split.
    + exists l. by apply (linked_tables l (db env)).
    + intros i Hi. simpl in *. destruct (Hfresh i ltac:(lia)) as [Hnew Hinj'].
      split; [by rewrite Hm|]. intros j Hj. apply Hinj'. lia.
Qed.

Lemma uuids_inj (i j : nat) : Fixture.uuids i = Fixture.uuids j -> i = j.
Proof.
  unfold Fixture.uuids. intros H. apply (inj (String.app "uuid-")) in H.
  by apply (inj pretty) in H.
Qed.

Lemma consistent_db1 : consistent Fixture.db1.
Proof. exists []. split; simpl; try done. apply NoDup_nil_2. Qed.

Lemma fresh_supply_env1 : fresh_supply Fixture.env1.
Proof.
  intros i _. split.
  - simpl. apply not_elem_of_nil.
  - intros j _. apply uuids_inj.
Qed.

Lemma consistent_db2 : consistent Fixture.db2.
Proof. exists []. split; simpl; try done. apply NoDup_nil_2. Qed.

Lemma fresh_supply_env2 : fresh_supply Fixture.env2.
Proof.
  intros i _. split.
  - simpl. apply not_elem_of_nil.
  - intros j _. apply uuids_inj.
Qed.

(** C7, as the code has it.  [getMessages] returns the messages of a
    task in the order of the [saveMessage] calls, whatever the messages
    carry.  The in-memory adapter does so for every store and every run
    of calls, and returns the messages as they were saved.  The Drizzle
    adapter does so for every run of calls for tasks that have a row,
    with generated row ids that are new: each call attaches its message
    under the sequence number "current maximum of the task plus one",
    [getMessages] returns the joined rows sorted by that number, and
    each message comes back in its [stored_form]; for a task without a
    row [saveMessage] throws (foreign key). *)
Theorem getMessages_returns_call_order :
  (forall (st : MemoryStorageAdapter.MemoryStore) (taskId : string)
          (calls : list (string * Message.t)),
      exists st',
        save_calls calls st = Ok st'
        /\ Storage.getMessages taskId st' =
             Storage.getMessages taskId st ++ messages_for taskId calls)
  /\ (forall (env : Env) (taskId : string) (calls : list (string * Message.t)),
        consistent (db env) -> fresh_supply env ->
        Forall (fun call => has_task call.1 (db env) = true) calls ->
        exists env',
          save_calls calls env = Ok env'
          /\ Storage.getMessages taskId env' =
               Storage.getMessages taskId env
                 ++ (stored_form <$> messages_for taskId calls))
  /\ (forall (env : Env) (taskId : string) (message : Message.t),
        consistent (db env) -> fresh_supply env ->
        has_task taskId (db env) = true ->
        exists env',
          Storage.saveMessage taskId message env = Ok env'
          /\ taskMessages (db env') =
               taskMessages (db env)
                 ++ [mkTaskMessageRow taskId (randomUUID env (drawn env))
                       (default 0 (max_sequence taskId (taskMessages (db env))) + 1)%Z])
  /\ (forall (env : Env) (taskId : string) (message : Message.t),
        fresh_supply env ->
        has_task taskId (db env) = false ->
        Storage.saveMessage taskId message env = Err FOREIGN_KEY)
  /\ (forall (taskId : string) (db : Db),
        StronglySorted Z.le (orderBy_sequence (join_taskMessages taskId db)).*2).
Proof.
  split; [|split; [|split; [|split]]].
  - intros st taskId calls. apply save_calls_memory.
  - intros env taskId calls [l Hl] Hfresh Htasks.
    destruct (save_calls_linked calls env l Hl Hfresh Htasks)
      as (env' & l' & Hsave & Hl' & Hmsgs).
    exists env'. split; [done|]. simpl.
    rewrite (getMessages_linked taskId _ _ Hl'), (getMessages_linked taskId _ _ Hl).
    unfold of_task. rewrite filter_app, !fmap_app. f_equal. apply Hmsgs.
  - intros env taskId message [l Hl] Hfresh Htask.
    assert (randomUUID env (drawn env) ∉ m_id <$> messages (db env)) as Hnew
      by by apply (Hfresh (drawn env)).
    destruct (saveMessage_linked _ taskId message l (db env) Hl Hnew Htask)
      as (db' & Hsave & _ & _ & Htm & _).
    exists (mkEnv db' (randomUUID env) (S (drawn env))). split; [|exact Htm].
    simpl. unfold with_uuid. by rewrite Hsave.
  - intros env taskId message Hfresh Hnone.
    apply drizzle_saveMessage_fresh; [|done]. by apply (Hfresh (drawn env)).
  - intros taskId d. apply orderBy_sequence_sorted.
Qed.

Lemma getMessages_returns_call_order_witness :
  consistent (db Fixture.env2) /\ fresh_supply Fixture.env2
  /\ exists env',
       save_calls [("t1", Fixture.hello); ("t2", Fixture.bye); ("t1", Fixture.hello_again)]
         Fixture.env2 = Ok env'
       /\ Storage.getMessages "t1" env' = [Fixture.hello; Fixture.hello_again].
Proof.
  split; [exact consistent_db2|]. split; [exact fresh_supply_env2|].
  destruct (proj1 (proj2 getMessages_returns_call_order) Fixture.env2 "t1"
              [("t1", Fixture.hello); ("t2", Fixture.bye); ("t1", Fixture.hello_again)]
              consistent_db2 fresh_supply_env2) as (env' & Hsave & Hget).
  - repeat constructor.
  - exists env'. split; [exact Hsave|]. rewrite Hget. reflexivity.
Defined.

(** C7, counterexample: the Drizzle adapter on a database that holds
    task "t1" only.  A message saved for "t2" is refused, so that
    [getMessages "t2"] does not return it; and a message that names its
    task, saved for "t1", comes back without the [taskId]: what
    [getMessages] returns is not exactly the message that was saved. *)
Lemma getMessages_drizzle_not_exactly_saved :
  Storage.saveMessage "t2" Fixture.bye Fixture.env1 = Err FOREIGN_KEY
  /\ Storage.getMessages "t2" Fixture.env1 = []
  /\ exists env',
       Storage.saveMessage "t1" Fixture.addressed Fixture.env1 = Ok env'
       /\ Storage.getMessages "t1" env' =
            [Message.mk "m4" user [Fixture.text "hello"] (Some "ctx") None None (Some [])]
       /\ Storage.getMessages "t1" env' <> [Fixture.addressed].
Proof.
  split; [reflexivity|]. split; [reflexivity|].
  eexists. split; [reflexivity|]. split; [reflexivity|]. by vm_compute.
Qed.

End call_order.

(** * The two adapters side by side *)

Section adapters.
Import Fixture.

Lemma drizzle_env_eta (env : DrizzleStorageAdapter.Env) :
  DrizzleStorageAdapter.mkEnv (DrizzleStorageAdapter.db env)
    (DrizzleStorageAdapter.randomUUID env) (DrizzleStorageAdapter.drawn env) = env.
Proof. by destruct env. Qed.

(** For every adapter, [getTask] of the executor context throws
    "Task not found" when storage has no task under the id, and when
    there is no storage. *)
Lemma core_getTask_missing {S E} `{!StorageAdapter S} (taskId : string)
    (w : Core.World S E) :
  (Core.storage w ≫= Storage.getTask taskId) = None ->
  Core.getTask taskId w = (Err (TaskNotFound taskId), w).
Proof. unfold Core.getTask. by intros ->. Qed.

(** With the in-memory adapter [cancelTask] on a taskId without a task
    throws "Task not found" after the event has been sent. *)
Lemma memory_cancelTask_missing {E} (eventSender : A2AEvent -> E -> Res E)
    (taskId contextId : string) (message : option Message.t) (now now' : string)
    (st : MemoryStorageAdapter.MemoryStore) (ch ch' : E) :
  Storage.getTask taskId st = None ->
  eventSender (StatusUpdate taskId contextId
                 (TaskStatus.mk canceled message (Some now)) false) ch = Ok ch' ->
  Core.cancelTask eventSender taskId contextId message now now'
    (Core.mkWorld (Some st) ch) =
  (Err (TaskNotFound taskId), Core.mkWorld (Some st) ch').
Proof.
  intros Hnone Hsend.
  unfold Core.cancelTask, Core.bind, Core.send, Core.storage_write. simpl.
  rewrite Hsend. simpl.
  by rewrite (memory_updateTaskStatus_missing _ _ _ Hnone).
Qed.

(** With the Drizzle adapter [cancelTask] on a taskId without a row
    returns normally and leaves the database as it was. *)
Lemma drizzle_cancelTask_missing {E} (eventSender : A2AEvent -> E -> Res E)
    (taskId contextId : string) (message : option Message.t) (now now' : string)
    (env : DrizzleStorageAdapter.Env) (ch ch' : E) :
  Storage.getTask taskId env = None ->
  eventSender (StatusUpdate taskId contextId
                 (TaskStatus.mk canceled message (Some now)) false) ch = Ok ch' ->
  Core.cancelTask eventSender taskId contextId message now now'
    (Core.mkWorld (Some env) ch) =
  (Ok tt, Core.mkWorld (Some env) ch').
Proof.
  intros Hnone Hsend.
  unfold Core.cancelTask, Core.bind, Core.send, Core.storage_write. simpl.
  rewrite Hsend. simpl.
  rewrite (drizzle_updateTaskStatus_missing _ _ _ Hnone).
  by rewrite drizzle_env_eta.
Qed.

(** C1 (code defect in the Drizzle adapter).  [updateArtifact] twice
    with artifactId "a1" and different parts, on a database that holds
    the task: the artifacts table ends up with two rows for "a1",
    [getArtifact] returns the parts of the first call and
    [getTaskArtifacts] both artifacts.  The in-memory adapter keeps one
    artifact, the second ([memory_updateArtifact_upserts]). *)
Theorem drizzle_updateArtifact_twice_two_rows :
  exists env' env'',
    Storage.updateArtifact "t1" draft env1 = Ok env'
    /\ Storage.updateArtifact "t1" final env' = Ok env''
    /\ length (DrizzleStorageAdapter.stored_artifacts "a1"
                 (DrizzleStorageAdapter.db env'')) = 2
    /\ Storage.getArtifact "a1" env'' = Some draft
    /\ Storage.getTaskArtifacts "t1" env'' = [draft; final].
Proof. do 2 eexists. split; [reflexivity|]. split; [reflexivity|]. by vm_compute. Qed.

Example memory_updateArtifact_twice_one_entry :
  exists st' st'',
    Storage.updateArtifact "t1" draft store1 = Ok st'
    /\ Storage.updateArtifact "t1" final st' = Ok st''
    /\ MemoryStorageAdapter.stored_artifacts "a1" st'' = [("t1", final)]
    /\ Storage.getArtifact "a1" st'' = Some final
    /\ Storage.getTaskArtifacts "t1" st'' = [final].
Proof. do 2 eexists. split; [reflexivity|]. split; [reflexivity|]. by vm_compute. Qed.

(** C3 (code defect in the Drizzle adapter).  On a taskId without a
    task, [updateTaskStatus] and [cancelTask] of the Drizzle adapter
    return normally and change nothing, where the in-memory adapter
    throws "Task not found"; [getTask] of the executor context throws
    with either adapter. *)
Theorem drizzle_updateTaskStatus_missing_succeeds :
  Storage.getTask "missing" env1 = None
  /\ Storage.updateTaskStatus "missing" (working_on hello) env1 = Ok env1
  /\ Core.cancelTask Core.defaultEventSender "missing" "ctx" None "now" "now"
       (Core.mkWorld (Some env1) tt) = (Ok tt, Core.mkWorld (Some env1) tt)
  /\ Core.getTask "missing" (Core.mkWorld (Some env1) tt) =
       (Err (TaskNotFound "missing"), Core.mkWorld (Some env1) tt)
  /\ Storage.updateTaskStatus "missing" (working_on hello) store1 =
       Err (TaskNotFound "missing")
  /\ Core.cancelTask Core.defaultEventSender "missing" "ctx" None "now" "now"
       (Core.mkWorld (Some store1) tt) =
       (Err (TaskNotFound "missing"), Core.mkWorld (Some store1) tt).
Proof. repeat split; reflexivity. Qed.

(** C4 (code defect in the Drizzle adapter).  [updateTaskStatus] on an
    existing task with a status that carries a message: the Drizzle
    adapter replaces the status and appends nothing to the messages of
    the task, where the in-memory adapter appends the message to the
    history and to the messages. *)
Theorem drizzle_updateTaskStatus_drops_message :
  (exists env',
     Storage.updateTaskStatus "t1" (working_on hello) env1 = Ok env'
     /\ Task.status <$> Storage.getTask "t1" env' = Some (working_on hello)
     /\ (Storage.getTask "t1" env' ≫= Task.history) = None
     /\ Storage.getMessages "t1" env' = [])
  /\ (exists st',
        Storage.updateTaskStatus "t1" (working_on hello) store1 = Ok st'
        /\ Task.status <$> Storage.getTask "t1" st' = Some (working_on hello)
        /\ (Storage.getTask "t1" st' ≫= Task.history) = Some [hello]
        /\ Storage.getMessages "t1" st' = [hello]).
Proof. split; eexists; (split; [reflexivity|]); by vm_compute. Qed.

(** C6, as the code has it.  [saveMessage] of the in-memory adapter
    appends: after two calls the messages of the task are the earlier
    ones followed by the message of the first call and the message of
    the second, whether or not the two share a messageId. *)
Theorem memory_saveMessage_twice_appends (st : MemoryStorageAdapter.MemoryStore)
    (taskId : string) (m m' : Message.t) :
  exists st' st'',
    Storage.saveMessage taskId m st = Ok st'
    /\ Storage.saveMessage taskId m' st' = Ok st''
    /\ Storage.getMessages taskId st'' = Storage.getMessages taskId st ++ [m; m'].
Proof.
  do 2 eexists. split; [reflexivity|]. split; [reflexivity|]. simpl.
  rewrite !memory_getMessages_saveMessage, !decide_True by done.
  by rewrite <- app_assoc.
Qed.

(** C6, counterexample: two messages with the messageId "m1" saved for
    one task leave two entries. *)
Lemma memory_saveMessage_same_id_two_entries :
  Message.messageId hello = Message.messageId hello_again
  /\ exists st' st'',
       Storage.saveMessage "t1" hello store1 = Ok st'
       /\ Storage.saveMessage "t1" hello_again st' = Ok st''
       /\ Storage.getMessages "t1" st'' = [hello; hello_again].
Proof. split; [done|]. do 2 eexists. repeat split. Qed.

(** The Drizzle adapter, too, keeps both messages when the generated row
    ids differ. *)
Example drizzle_saveMessage_same_id_two_entries :
  exists env' env'',
    Storage.saveMessage "t1" hello env1 = Ok env'
    /\ Storage.saveMessage "t1" hello_again env' = Ok env''
    /\ Storage.getMessages "t1" env'' = [hello; hello_again].
Proof. do 2 eexists. repeat split. Qed.

End adapters.

(** * Properties of the dispatch core *)

Section dispatch.
Context {S E : Type} `{!StorageAdapter S}.
Implicit Types executors : gmap string (Core.Executor S E).

Lemma findExecutor_first_match executors (pre post : list string) (uri : string)
    (executor : Core.Executor S E) :
  Forall (fun u => executors !! u = None) pre ->
  executors !! uri = Some executor ->
  Core.findExecutor (pre ++ uri :: post) executors = Some executor.
Proof.
  intros Hpre Huri. induction Hpre as [|u pre Hu _ IH]; simpl.
  - by rewrite Huri.
  - by rewrite Hu.
Qed.

Lemma findExecutor_None executors (extensions : list string) :
  Core.findExecutor extensions executors = None <->
  Forall (fun u => executors !! u = None) extensions.
Proof.
  induction extensions as [|u extensions IH]; simpl.
  - split; [constructor|done].
  - destruct (executors !! u) as [executor|] eqn:Hu.
    + split; [done|]. intros Hall. inversion Hall; congruence.
    + rewrite IH. split; [by constructor|]. intros Hall. by inversion Hall.
Qed.

(** The executor that is found is registered under one of the URIs of
    the list. *)
Lemma findExecutor_Some executors (extensions : list string)
    (executor : Core.Executor S E) :
  Core.findExecutor extensions executors = Some executor ->
  exists pre uri post,
    extensions = pre ++ uri :: post
    /\ Forall (fun u => executors !! u = None) pre
    /\ executors !! uri = Some executor.
Proof.
  induction extensions as [|u extensions IH]; simpl; [done|].
  destruct (executors !! u) as [executor'|] eqn:Hu.
  - intros [= ->]. by exists [], u, extensions.
  - intros Hfind. destruct (IH Hfind) as (pre & uri & post & -> & Hpre & Huri).
    exists (u :: pre), uri, post. split; [done|]. split; [by constructor|done].
Qed.

(** What [dispatch] does with the executor when nothing stands in
    between (no storage, no schemas): it runs the function of the
    executor on the input extracted from the message, for the resolved
    task and context. *)
Lemma dispatch_runs_executor (executor : Core.Executor S E) (message : Message.t)
    (options : option Core.Options) (now : string) (taskId contextId : string)
    (ch : E) :
  js_or (options ≫= Core.opt_taskId) (Message.taskId message) = Some taskId ->
  js_or (options ≫= Core.opt_contextId) (Message.contextId message) = Some contextId ->
  taskId <> "" -> contextId <> "" ->
  Core.input executor = None -> Core.output executor = None ->
  Core.dispatch executor message options now (Core.mkWorld None ch) =
  Core.execute_fn executor (JObj (Core.input_of message))
    (Core.mkContext taskId contextId) (Core.mkWorld None ch).
Proof.
  intros Htask Hctx Ht Hc Hin Hout. unfold Core.dispatch.
  rewrite Htask, Hctx. unfold truthy.
  destruct (String.eqb_spec taskId ""); [done|].
  destruct (String.eqb_spec contextId ""); [done|]. simpl.
  unfold Core.bind, Core.storage_write, Core.lift, Core.extractInput. simpl.
  rewrite Hin, Hout.
  by destruct (Core.execute_fn executor _ _ _) as [[result|e] w'].
Qed.

(** C8. [execute] scans [message.extensions] in list order and hands
    the message to the executor registered for the first URI that has
    one, whatever is registered for the URIs after it: once the task and
    the message are written to storage (if there is one), the function
    of that executor is run on the input extracted from the message,
    for the resolved task and context, and [execute] returns what it
    returns (through the output schema, if the executor has one) or
    throws what it throws.  When no URI of the list is registered, or
    the list is absent, [execute] throws "No executor found" and changes
    nothing. *)
Theorem execute_dispatches_first_registered executors (message : Message.t)
    (options : option Core.Options) (now : string) :
  (forall pre uri post executor (taskId contextId : string) (input : Json)
          (w w' : Core.World S E),
      Message.extensions message = Some (pre ++ uri :: post) ->
      Forall (fun u => executors !! u = None) pre ->
      executors !! uri = Some executor ->
      js_or (options ≫= Core.opt_taskId) (Message.taskId message) = Some taskId ->
      js_or (options ≫= Core.opt_contextId) (Message.contextId message) = Some contextId ->
      taskId <> "" -> contextId <> "" ->
      match Core.storage w with
      | None => w' = w
      | Some st =>
          exists st1 st2,
            Storage.saveTask (Core.submitted_task taskId contextId message now) st = Ok st1
            /\ Storage.saveMessage taskId message st1 = Ok st2
            /\ w' = Core.mkWorld (Some st2) (Core.channel w)
      end ->
      Core.extractInput message (Core.input executor) = Ok input ->
      Core.execute executors message options now w =
      match Core.execute_fn executor input (Core.mkContext taskId contextId) w' with
      | (Ok result, w'') =>
          match Core.output executor with
          | None => (Ok result, w'')
          | Some schema =>
              match schema result with
              | Some parsed => (Ok parsed, w'')
              | None => (Err ZodError, w'')
              end
          end
      | (Err e, w'') => (Err e, w'')
      end)
  /\ (forall w,
        Forall (fun u => executors !! u = None) (default [] (Message.extensions message)) ->
        Core.execute executors message options now w =
        (Err (NoExecutorFound (Message.extensions message)), w)).
Proof.
  split.
  - intros pre uri post executor taskId contextId input w w'
      Hext Hpre Huri Htask Hctx Ht Hc Hsaved Hin.
    unfold Core.execute.
    rewrite Hext. simpl. rewrite (findExecutor_first_match _ _ _ _ _ Hpre Huri).
    unfold Core.dispatch. rewrite Htask, Hctx. unfold truthy.
    destruct (String.eqb_spec taskId ""); [done|].
    destruct (String.eqb_spec contextId ""); [done|]. simpl.
    unfold Core.bind, Core.storage_write, Core.lift.
    destruct w as [[st|] ch]; simpl in *.
    + destruct Hsaved as (st1 & st2 & -> & Hsave & ->). simpl. rewrite Hsave. simpl.
      rewrite Hin.
      destruct (Core.execute_fn executor _ _ _) as [[result|e] w'']; [|done].
      destruct (Core.output executor) as [schema|]; [|done].
      by destruct (schema result).
    + subst w'. rewrite Hin.
      destruct (Core.execute_fn executor _ _ _) as [[result|e] w'']; [|done].
      destruct (Core.output executor) as [schema|]; [|done].
      by destruct (schema result).
  - intros w Hall. unfold Core.execute.
    apply findExecutor_None in Hall. by rewrite Hall.
Qed.

End dispatch.

Lemma execute_dispatches_first_registered_witness :
  let executors : gmap string (Core.Executor MemoryStorageAdapter.MemoryStore unit) :=
    Core.register (Fixture.tagged "urn:a") (Core.register (Fixture.tagged "urn:b") ∅) in
  let message := Fixture.request ["urn:x"; "urn:b"; "urn:a"] [] in
  let w : Core.World MemoryStorageAdapter.MemoryStore unit := Core.mkWorld None tt in
  let echoing : gmap string (Core.Executor MemoryStorageAdapter.MemoryStore unit) :=
    Core.register (Fixture.tagged "urn:a") (Core.register (Fixture.echo "urn:b") ∅) in
  let said := Fixture.request ["urn:x"; "urn:b"; "urn:a"] [Fixture.text "hello"] in
  let stored : Core.World MemoryStorageAdapter.MemoryStore unit :=
    Core.mkWorld (Some MemoryStorageAdapter.empty) tt in
  Core.execute executors message Fixture.to_t1 "now" w = (Ok (JStr "urn:b"), w)
  /\ Core.execute executors (Fixture.request ["urn:x"] []) Fixture.to_t1 "now" w =
       (Err (NoExecutorFound (Some ["urn:x"])), w)
  /\ (Core.execute echoing said Fixture.to_t1 "now" stored).1 =
       Ok (JObj [("text", JStr "hello")]).
Proof.
  intros executors message w echoing said stored. split; [|split]; cycle 2.
  { erewrite (proj1 (execute_dispatches_first_registered echoing said
                       Fixture.to_t1 "now") ["urn:x"] "urn:b" ["urn:a"]
                (Fixture.echo "urn:b") "t1" "ctx" (JObj [("text", JStr "hello")])
                stored);
      [reflexivity|reflexivity| |reflexivity|reflexivity|reflexivity|done|done
      | |reflexivity].
    - constructor; [reflexivity|constructor].
    - simpl. eexists _, _. split; [reflexivity|]. split; reflexivity. }
  - rewrite (proj1 (execute_dispatches_first_registered executors message
                      Fixture.to_t1 "now") ["urn:x"] "urn:b" ["urn:a"]
               (Fixture.tagged "urn:b") "t1" "ctx" (JObj (Core.input_of message)) w w);
      [reflexivity|reflexivity| |reflexivity|reflexivity|reflexivity|done|done
      |reflexivity|reflexivity].
    constructor; [reflexivity|constructor].
  - apply (proj2 (execute_dispatches_first_registered executors
                    (Fixture.request ["urn:x"] []) Fixture.to_t1 "now")).
    constructor; [reflexivity|constructor].
Defined.

Section validation.
Context {E : Type}.
Implicit Types executors : gmap string (Core.Executor MemoryStorageAdapter.MemoryStore E).

Lemma truthy_Some (s : string) : s <> "" -> truthy (Some s) = true.
Proof. intros Hne. unfold truthy. by destruct (String.eqb_spec s ""). Qed.

(** C2, as the code has it.  When the input extracted from the message
    fails the input schema of the executor that was found, [execute]
    throws the validation error before the executor runs and before any
    event is sent, but after it has written to storage: the task is
    saved as a fresh submitted task that carries the message, replacing
    whatever task was stored under the id, and the message is appended
    to the messages of the task.  Stated for the in-memory adapter. *)
Theorem execute_invalid_input_after_persist executors (message : Message.t)
    (options : option Core.Options) (now : string)
    (executor : Core.Executor MemoryStorageAdapter.MemoryStore E)
    (schema : Zod.Schema) (taskId contextId : string)
    (st : MemoryStorageAdapter.MemoryStore) (ch : E) :
  Core.findExecutor (default [] (Message.extensions message)) executors = Some executor ->
  js_or (options ≫= Core.opt_taskId) (Message.taskId message) = Some taskId ->
  js_or (options ≫= Core.opt_contextId) (Message.contextId message) = Some contextId ->
  taskId <> "" -> contextId <> "" ->
  Core.input executor = Some schema ->
  schema (JObj (Core.input_of message)) = None ->
  exists st',
    Core.execute executors message options now (Core.mkWorld (Some st) ch) =
      (Err ZodError, Core.mkWorld (Some st') ch)
    /\ Storage.getTask taskId st' =
         Some (Core.submitted_task taskId contextId message now)
    /\ Storage.getMessages taskId st' = Storage.getMessages taskId st ++ [message].
Proof.
  intros Hfind Htask Hctx Ht Hc Hin Hschema.
  exists (MemoryStorageAdapter.saveMessage taskId message
            (MemoryStorageAdapter.saveTask
               (Core.submitted_task taskId contextId message now) st)).
  split; [|split].
  - unfold Core.execute. rewrite Hfind. unfold Core.dispatch.
    rewrite Htask, Hctx, !truthy_Some by done. simpl.
    unfold Core.bind, Core.storage_write, Core.lift, Core.extractInput. simpl.
    by rewrite Hin, Hschema.
  - simpl. unfold MemoryStorageAdapter.getTask. simpl. apply lookup_insert_eq.
  - simpl. by rewrite memory_getMessages_saveMessage, decide_True.
Qed.

End validation.

Lemma execute_invalid_input_after_persist_witness :
  let executors : gmap string (Core.Executor MemoryStorageAdapter.MemoryStore unit) :=
    Core.register (Fixture.echo "urn:test:echo") ∅ in
  let message := Fixture.request ["urn:test:echo"] [DataPart [("n", JNum 1)] None] in
  exists st',
    Core.execute executors message Fixture.to_t1 "now"
      (Core.mkWorld (Some Fixture.store1) tt) =
      (Err ZodError, Core.mkWorld (Some st') tt)
    /\ Storage.getTask "t1" st' = Some (Core.submitted_task "t1" "ctx" message "now")
    /\ Storage.getMessages "t1" st' = Storage.getMessages "t1" Fixture.store1 ++ [message].
Proof.
  intros executors message.
  apply (execute_invalid_input_after_persist executors message Fixture.to_t1 "now"
           (Fixture.echo "urn:test:echo") Fixture.text_input "t1" "ctx");
    done.
Defined.

(** C2, counterexample: a message whose input fails the schema
    [{ text: string }], sent for a task id that storage does not know.
    [execute] throws the validation error, and storage now holds a task
    under the id and the message in its messages. *)
Lemma execute_invalid_input_creates_task :
  let executors : gmap string (Core.Executor MemoryStorageAdapter.MemoryStore unit) :=
    Core.register (Fixture.echo "urn:test:echo") ∅ in
  let message := Fixture.request ["urn:test:echo"] [DataPart [("n", JNum 1)] None] in
  let w := Core.mkWorld (Some MemoryStorageAdapter.empty) tt in
  Fixture.text_input (JObj (Core.input_of message)) = None
  /\ Storage.getTask "t1" MemoryStorageAdapter.empty = None
  /\ Storage.getMessages "t1" MemoryStorageAdapter.empty = []
  /\ exists st',
       Core.execute executors message Fixture.to_t1 "now" w =
         (Err ZodError, Core.mkWorld (Some st') tt)
       /\ Storage.getTask "t1" st' = Some (Core.submitted_task "t1" "ctx" message "now")
       /\ Storage.getMessages "t1" st' = [message].
Proof.
  intros executors message w. split; [reflexivity|]. split; [reflexivity|].
  split; [reflexivity|].
  exists (MemoryStorageAdapter.saveMessage "t1" message
            (MemoryStorageAdapter.saveTask
               (Core.submitted_task "t1" "ctx" message "now") MemoryStorageAdapter.empty)).
  split; [|split]; by vm_compute.
Qed.

(** The same order of effects with any adapter: the validation error is
    thrown in the world that the two writes have produced. *)
Lemma execute_invalid_input_any_adapter {S E} `{!StorageAdapter S}
    (executors : gmap string (Core.Executor S E)) (message : Message.t)
    (options : option Core.Options) (now : string) (executor : Core.Executor S E)
    (schema : Zod.Schema) (taskId contextId : string) (st st1 st2 : S) (ch : E) :
  Core.findExecutor (default [] (Message.extensions message)) executors = Some executor ->
  js_or (options ≫= Core.opt_taskId) (Message.taskId message) = Some taskId ->
  js_or (options ≫= Core.opt_contextId) (Message.contextId message) = Some contextId ->
  taskId <> "" -> contextId <> "" ->
  Core.input executor = Some schema ->
  schema (JObj (Core.input_of message)) = None ->
  Storage.saveTask (Core.submitted_task taskId contextId message now) st = Ok st1 ->
  Storage.saveMessage taskId message st1 = Ok st2 ->
  Core.execute executors message options now (Core.mkWorld (Some st) ch) =
  (Err ZodError, Core.mkWorld (Some st2) ch).
Proof.
  intros Hfind Htask Hctx Ht Hc Hin Hschema Hsave1 Hsave2.
  unfold Core.execute. rewrite Hfind. unfold Core.dispatch.
  rewrite Htask, Hctx, !truthy_Some by done. simpl.
  unfold Core.bind, Core.storage_write, Core.lift, Core.extractInput. simpl.
  rewrite Hsave1. simpl. rewrite Hsave2. simpl. by rewrite Hin, Hschema.
Qed.

(** * Properties of the in-process event channel *)

Section sse.
Import SSE.

Implicit Types (acc : gset nat * gmap nat Controller) (c : nat).

Lemma enqueue_step_other (message : Frame) acc (x c : nat) :
  x <> c ->
  (enqueue_step message acc x).2 !! c = acc.2 !! c
  /\ (c ∈ (enqueue_step message acc x).1 <-> c ∈ acc.1).
Proof.
  intros Hne. destruct acc as [tc ctls]. unfold enqueue_step. simpl.
  assert (c ∈ tc ∖ {[x]} <-> c ∈ tc) as Hdiff.
  { rewrite elem_of_difference, elem_of_singleton. split; [tauto|]. split; [done|congruence]. }
  destruct (ctls !! x) as [ctl|] eqn:Hx; [destruct (closed ctl)|]; simpl.
  - done.
  - split; [by rewrite lookup_insert_ne|done].
  - done.
Qed.

(** The first loop leaves a controller it does not visit as it is. *)
Lemma enqueue_fold_other (message : Frame) (l : list nat) acc c :
  c ∉ l ->
  (foldl (enqueue_step message) acc l).2 !! c = acc.2 !! c
  /\ (c ∈ (foldl (enqueue_step message) acc l).1 <-> c ∈ acc.1).
Proof.
  revert acc. induction l as [|x l IH]; intros acc Hnotin; [done|].
  apply not_elem_of_cons in Hnotin as [Hne Hnotin]. simpl.
  destruct (IH (enqueue_step message acc x) Hnotin) as [Hctl Hin].
  destruct (enqueue_step_other message acc x c ltac:(congruence)) as [Hctl' Hin'].
  split; [congruence|]. by rewrite Hin, Hin'.
Qed.

(** The first loop writes the frame to every open controller it visits,
    once, and keeps that controller in the set. *)
Lemma enqueue_fold_open (message : Frame) (l : list nat) acc c (ctl : Controller) :
  NoDup l -> c ∈ l ->
  acc.2 !! c = Some ctl -> closed ctl = false ->
  (foldl (enqueue_step message) acc l).2 !! c =
    Some (mkController (enqueued ctl ++ [message]) false)
  /\ (c ∈ acc.1 -> c ∈ (foldl (enqueue_step message) acc l).1).
Proof.
  revert acc. induction l as [|x l IH]; intros acc Hnd Hin Hctl Hopen.
  - by apply elem_of_nil in Hin.
  - apply NoDup_cons in Hnd as [Hx Hnd]. simpl.
    destruct (decide (x = c)) as [->|Hne].
    + destruct (enqueue_fold_other message l (enqueue_step message acc c) c Hx)
        as [Hctl' Hin'].
      rewrite Hctl', Hin'. destruct acc as [tc ctls]. unfold enqueue_step. simpl in *.
      rewrite Hctl, Hopen. simpl. by rewrite lookup_insert_eq.
    + apply elem_of_cons in Hin as [Heq|Hin]; [congruence|].
      destruct (enqueue_step_other message acc x c Hne) as [Hctl' Hin'].
      destruct (IH (enqueue_step message acc x) Hnd Hin) as [Hres Hmem];
        [congruence|done|].
      split; [done|]. intros Hc. apply Hmem. by apply Hin'.
Qed.

Lemma close_fold_other (l : list nat) (ctls : gmap nat Controller) c :
  c ∉ l -> foldl close_step ctls l !! c = ctls !! c.
Proof.
  revert ctls. induction l as [|x l IH]; intros ctls Hnotin; [done|].
  apply not_elem_of_cons in Hnotin as [Hne Hnotin]. simpl. rewrite IH by done.
  unfold close_step. destruct (ctls !! x); [|done]. by rewrite lookup_insert_ne.
Qed.

(** The second loop closes every controller it visits. *)
Lemma close_fold_visited (l : list nat) (ctls : gmap nat Controller) c
    (ctl : Controller) :
  NoDup l -> c ∈ l -> ctls !! c = Some ctl ->
  foldl close_step ctls l !! c = Some (mkController (enqueued ctl) true).
Proof.
  revert ctls. induction l as [|x l IH]; intros ctls Hnd Hin Hctl.
  - by apply elem_of_nil in Hin.
  - apply NoDup_cons in Hnd as [Hx Hnd]. simpl.
    destruct (decide (x = c)) as [->|Hne].
    + rewrite close_fold_other by done. unfold close_step. rewrite Hctl.
      by rewrite lookup_insert_eq.
    + apply elem_of_cons in Hin as [Heq|Hin]; [congruence|].
      apply IH; [done|done|]. unfold close_step.
      destruct (ctls !! x); [|done]. by rewrite lookup_insert_ne.
Qed.

Lemma size_nonzero_elem (X : gset nat) c : c ∈ X -> size X <> 0.
Proof.
  intros Hin Hsize. apply size_empty_iff in Hsize.
  rewrite Hsize in Hin. by apply elem_of_empty in Hin.
Qed.

(** An event for a task without registered connections changes
    nothing: it is delivered to no one. *)
Lemma sendSSEEvent_unregistered (event : A2AEvent) (reg : Registry) :
  connections reg !! event_taskId event = None ->
  sendSSEEvent event reg = reg.
Proof. unfold sendSSEEvent. by intros ->. Qed.

(** What [sendSSEEvent] does with an event for a task that has
    connections: the event is written, once, to every open connection
    registered for the task.  After a status-update the connection is
    still registered and open, so later events reach it.  The branch
    commented "Close connections on task complete" tests the kind of the
    event, not the state of the task: once an artifact-update has been
    written, the server closes the connection and removes the task from
    the registry, and events sent later for the task are delivered to no
    one. *)
Theorem sendSSEEvent_forwards_until_artifact (event : A2AEvent) (reg : Registry)
    (taskConnections : gset nat) (c : nat) (ctl : Controller) :
  connections reg !! event_taskId event = Some taskConnections ->
  c ∈ taskConnections ->
  controllers reg !! c = Some ctl ->
  closed ctl = false ->
  let reg' := sendSSEEvent event reg in
  controllers reg' !! c =
    Some (mkController (enqueued ctl ++ [encodeMessage event])
            (bool_decide (event_kind event = ARTIFACT_UPDATE)))
  /\ (event_kind event = STATUS_UPDATE ->
        exists taskConnections',
          connections reg' !! event_taskId event = Some taskConnections'
          /\ c ∈ taskConnections')
  /\ (event_kind event = ARTIFACT_UPDATE ->
        connections reg' !! event_taskId event = None
        /\ forall later, event_taskId later = event_taskId event ->
             sendSSEEvent later reg' = reg').
Proof.
  intros Hconn Hin Hctl Hopen reg'.
  pose proof (NoDup_elements taskConnections) as Hnd.
  assert (c ∈ elements taskConnections) as Hin' by by apply elem_of_elements.
  destruct (enqueue_fold_open (encodeMessage event) (elements taskConnections)
              (taskConnections, controllers reg) c ctl Hnd Hin' Hctl Hopen)
    as [Hsent Hkept].
  specialize (Hkept Hin).
  unfold reg', sendSSEEvent. rewrite Hconn.
  rewrite decide_False by by apply (size_nonzero_elem _ c).
  destruct (foldl _ _ _) as [tc' ctls'] eqn:Hfold. simpl in Hsent, Hkept.
  rewrite (decide_False (P := size tc' = 0)) by by apply (size_nonzero_elem _ c).
  destruct event as [taskId contextId status final|taskId contextId artifact];
    cbn [event_kind event_taskId] in *.
  - rewrite decide_False by done. cbn [connections controllers].
    split; [done|]. split; [|done].
    intros _. exists tc'. by rewrite lookup_insert_eq.
  - rewrite decide_True by done. cbn [connections controllers].
    split; [|split; [done|]].
    + erewrite close_fold_visited;
        [|apply NoDup_elements|by apply elem_of_elements|exact Hsent].
      reflexivity.
    + intros _. split; [by rewrite lookup_delete_eq|].
      intros later Hlater. cbn [connections].
      by rewrite Hlater, lookup_delete_eq.
Qed.

End sse.

Lemma sendSSEEvent_forwards_until_artifact_witness :
  SSE.controllers (SSE.sendSSEEvent Fixture.now_working Fixture.reg1) !! 0 =
    Some (SSE.mkController [SSE.encodeMessage Fixture.now_working] false)
  /\ SSE.connections (SSE.sendSSEEvent Fixture.plan_ready Fixture.reg1) !! "t1" = None.
Proof.
  split.
  - apply (sendSSEEvent_forwards_until_artifact Fixture.now_working Fixture.reg1
             {[0]} 0 (SSE.mkController [] false));
      [reflexivity|by apply elem_of_singleton|reflexivity|reflexivity].
  - apply (sendSSEEvent_forwards_until_artifact Fixture.plan_ready Fixture.reg1
             {[0]} 0 (SSE.mkController [] false));
      [reflexivity|by apply elem_of_singleton|reflexivity|reflexivity|reflexivity].
Defined.

(** C5 (code defect in [sendSSEEvent]).  The branch that closes the
    connections of a task is commented "Close connections on task
    complete" and runs on every artifact-update, while an executor sends
    the "completed" status-update after its artifact-update and the
    Redis handler never closes a stream on an event.  Here an observer
    is connected for task "t1", has not disconnected, and an
    artifact-update and then the status-update "completed" are sent for
    "t1": the observer has received the artifact-update only, its stream
    has been closed by the server, and the task has no connection left.
    With the two events in the other order the observer receives
    both. *)
Theorem sendSSEEvent_artifact_ends_delivery :
  let reg' := SSE.sendSSEEvent Fixture.now_completed
                (SSE.sendSSEEvent Fixture.plan_ready Fixture.reg1) in
  let reg'' := SSE.sendSSEEvent Fixture.plan_ready
                 (SSE.sendSSEEvent Fixture.now_completed Fixture.reg1) in
  SSE.controllers Fixture.reg1 !! 0 = Some (SSE.mkController [] false)
  /\ SSE.getActiveConnections "t1" Fixture.reg1 = 1
  /\ SSE.controllers reg' !! 0 =
       Some (SSE.mkController [SSE.encodeMessage Fixture.plan_ready] true)
  /\ SSE.getActiveConnections "t1" reg' = 0
  /\ SSE.controllers reg'' !! 0 =
       Some (SSE.mkController [SSE.encodeMessage Fixture.now_completed;
                               SSE.encodeMessage Fixture.plan_ready] true).
Proof. repeat split; by vm_compute. Qed.

Section sse_handler.
Import SSE.
Context (eventSender : A2AEvent -> Registry -> Res Registry).

(** Opening the event stream for a task writes to storage: the handler
    calls [updateStatus] with a "working" status that carries the agent
    message "SSE connection established".  With the in-memory adapter, a
    stored task in whatever state and an event sender that does not
    throw, as [createSSEEventSender], the status of the task is replaced
    by that status and the message is appended to the history and to the
    messages of the task. *)
Theorem createSSEHandler_overwrites_status
    (st : MemoryStorageAdapter.MemoryStore) (reg : Registry) (task : Task.t)
    (taskId : string) (contextId : option string) (uuid uuid' now now' : string) :
  taskId <> "" ->
  Storage.getTask taskId st = Some task ->
  (forall event r, exists r', eventSender event r = Ok r') ->
  let result :=
    createSSEHandler eventSender (mkRequest (Some taskId) contextId)
      uuid uuid' now now' (Core.mkWorld (Some st) reg) in
  let heartbeat := connection_message uuid' in
  let status := TaskStatus.mk working (Some heartbeat) (Some now') in
  exists controller st',
    result.1 = EventStream controller
    /\ Core.storage result.2 = Some st'
    /\ Storage.getTask taskId st' =
         Some (Task.set_history (default [] (Task.history task) ++ [heartbeat])
                 (Task.set_status status task))
    /\ Storage.getMessages taskId st' = Storage.getMessages taskId st ++ [heartbeat].
Proof.
  intros Hne Htask Hsender result heartbeat status.
  destruct (memory_updateTaskStatus_appends st taskId task working heartbeat
              (Some now') Htask) as (st' & Hupd & Hget & Hmsgs).
  unfold result, createSSEHandler. cbn [query_taskId query_contextId].
  rewrite truthy_Some by done. cbn [negb].
  change (default "" (Some taskId)) with taskId.
  unfold Core.updateStatus, Core.bind, Core.send, Core.storage_write.
  cbn [Core.channel Core.storage TaskStatus.state TaskStatus.message].
  match goal with |- context [eventSender ?ev ?r] =>
    destruct (Hsender ev r) as [r' ->] end.
  cbn [Core.channel Core.storage].
  change (@Storage.updateTaskStatus _ _) with MemoryStorageAdapter.updateTaskStatus.
  subst heartbeat status. rewrite Hupd. cbn [fst snd Core.storage].
  by exists (fresh (dom (controllers reg))), st'.
Qed.

End sse_handler.

Lemma createSSEHandler_overwrites_status_witness :
  let result :=
    SSE.createSSEHandler SSE.createSSEEventSender (SSE.mkRequest (Some "t1") None)
      "uuid-0" "uuid-1" "now" "now"
      (Core.mkWorld (Some (MemoryStorageAdapter.saveTask Fixture.done_task
                             MemoryStorageAdapter.empty)) SSE.empty) in
  exists controller st',
    result.1 = SSE.EventStream controller
    /\ Core.storage result.2 = Some st'
    /\ (TaskStatus.state ∘ Task.status) <$> Storage.getTask "t1" st' = Some working
    /\ (Storage.getTask "t1" st' ≫= Task.history) =
         Some [Fixture.hello; SSE.connection_message "uuid-1"].
Proof.
  intros result.
  destruct (createSSEHandler_overwrites_status SSE.createSSEEventSender
              (MemoryStorageAdapter.saveTask Fixture.done_task MemoryStorageAdapter.empty)
              SSE.empty Fixture.done_task "t1" None "uuid-0" "uuid-1" "now" "now")
    as (controller & st' & Hresp & Hstore & Hget & _);
    [done|reflexivity|by eexists|].
  exists controller, st'. split; [exact Hresp|]. split; [exact Hstore|].
  rewrite Hget. split; reflexivity.
Defined.

(** C10 (code defect in the Drizzle adapter, the one of C4).  The
    stream of task "t1", stored as submitted with no message, is opened
    on each backend.  Both overwrite the state of the task with
    "working".  The in-memory adapter appends the message
    "SSE connection established" to the history and the messages of the
    task; the Drizzle adapter, whose [updateTaskStatus] writes the
    status columns only, leaves the task without history and without
    messages. *)
Theorem createSSEHandler_drizzle_drops_heartbeat :
  let open {S} `{Storage.StorageAdapter S} (st : S) :=
    SSE.createSSEHandler SSE.createSSEEventSender (SSE.mkRequest (Some "t1") None)
      "uuid-a" "uuid-b" "now" "now" (Core.mkWorld (Some st) SSE.empty) in
  let heartbeat := SSE.connection_message "uuid-b" in
  (exists store',
     Core.storage (open Fixture.store1).2 = Some store'
     /\ (TaskStatus.state ∘ Task.status) <$> Storage.getTask "t1" Fixture.store1 =
          Some submitted
     /\ Storage.getMessages "t1" Fixture.store1 = []
     /\ (TaskStatus.state ∘ Task.status) <$> Storage.getTask "t1" store' = Some working
     /\ Storage.getTask "t1" store' ≫= Task.history = Some [heartbeat]
     /\ Storage.getMessages "t1" store' = [heartbeat])
  /\ (exists env',
        Core.storage (open Fixture.env1).2 = Some env'
        /\ (TaskStatus.state ∘ Task.status) <$> Storage.getTask "t1" Fixture.env1 =
             Some submitted
        /\ Storage.getMessages "t1" Fixture.env1 = []
        /\ (TaskStatus.state ∘ Task.status) <$> Storage.getTask "t1" env' = Some working
        /\ Storage.getTask "t1" env' ≫= Task.history = None
        /\ Storage.getMessages "t1" env' = []).
Proof.
  intros open heartbeat. split; eexists; (split; [reflexivity|]); by vm_compute.
Qed.

(** The new observer itself receives the status update the handler
    sends. *)
Example createSSEHandler_first_frame :
  let result :=
    SSE.createSSEHandler SSE.createSSEEventSender (SSE.mkRequest (Some "t1") (Some "ctx"))
      "uuid-a" "uuid-b" "now" "now" (Core.mkWorld (Some Fixture.store1) SSE.empty) in
  result.1 = SSE.EventStream 0
  /\ SSE.getActiveConnections "t1" (Core.channel result.2) = 1
  /\ SSE.frame_event <$>
       (default [] (SSE.enqueued <$> SSE.controllers (Core.channel result.2) !! 0)) =
     [STATUS_UPDATE].
Proof. intros result. by vm_compute. Qed.

(** * Properties of the part schemas *)

Section file_schema.
Import Zod ZodSpec.
Variable is_url : string -> bool.

Lemma file_with_bytes_accepts (fields : Fields) :
  is_Some (object (extend FileBaseSchema [("bytes", required string_)]) (JObj fields))
  <-> file_base fields /\ string_at "bytes" fields.
Proof.
  unfold object, extend, FileBaseSchema, file_base, optional_string, string_at.
  simpl.
  destruct (obj_get "mimeType" fields) as [[]|];
    destruct (obj_get "name" fields) as [[]|];
    destruct (obj_get "bytes" fields) as [[]|]; simpl;
    unfold is_Some; naive_solver.
Qed.

Lemma file_with_uri_accepts (fields : Fields) :
  is_Some (object (extend FileBaseSchema [("uri", required (string_url is_url))])
             (JObj fields))
  <-> file_base fields /\ url_at is_url "uri" fields.
Proof.
  unfold object, extend, FileBaseSchema, file_base, optional_string, url_at, string_url.
  simpl.
  destruct (obj_get "mimeType" fields) as [[]|];
    destruct (obj_get "name" fields) as [[]|];
    destruct (obj_get "uri" fields) as [[| | |u| |]|]; simpl;
    repeat case_match; simpl; unfold is_Some;
    first [ naive_solver
          | split; [by intros [? ?] | intros [_ (? & [= <-] & ?)]; congruence] ].
Qed.

Lemma union_two_accepts (a b : Schema) (v : Json) :
  is_Some (union [a; b] v) <-> is_Some (a v) \/ is_Some (b v).
Proof.
  simpl. destruct (a v), (b v); unfold is_Some; naive_solver.
Qed.

Lemma FileSchema_not_object (v : Json) :
  (forall fields, v <> JObj fields) -> FileSchema is_url v = None.
Proof. destruct v; try done. intros H. by destruct (H fields). Qed.

(** C9, as the schema has it.  [FileSchema] accepts a value exactly
    when it is an object whose [mimeType] and [name], if present, are
    strings and which carries a string [bytes] or a string [uri] that
    parses as a URL.  So a value with neither [bytes] nor [uri] is
    rejected; a value that carries both is accepted as soon as its
    [bytes] is a string, and a file part is accepted with its file. *)
Theorem FileSchema_accepts_bytes_or_uri (v : Json) :
  (accepts (FileSchema is_url) v = true <->
     exists fields,
       v = JObj fields /\ file_base fields
       /\ (string_at "bytes" fields \/ url_at is_url "uri" fields))
  /\ (has_field "bytes" v = false -> has_field "uri" v = false ->
        accepts (FileSchema is_url) v = false)
  /\ (forall fields,
        v = JObj fields -> file_base fields -> string_at "bytes" fields ->
        accepts (FileSchema is_url) v = true)
  /\ (accepts (FilePartSchema is_url) (JObj [("kind", JStr "file"); ("file", v)]) =
        accepts (FileSchema is_url) v).
Proof.
  assert (accepts (FileSchema is_url) v = true <->
          exists fields,
            v = JObj fields /\ file_base fields
            /\ (string_at "bytes" fields \/ url_at is_url "uri" fields)) as Hiff.
  { unfold accepts. rewrite bool_decide_eq_true. unfold FileSchema.
    rewrite union_two_accepts. split.
    - intros Hv.
      destruct v as [| | | | |fields]; try (by destruct Hv as [[? [=]]|[? [=]]]).
      rewrite file_with_bytes_accepts, file_with_uri_accepts in Hv.
      destruct Hv as [[Hbase Hb]|[Hbase Hu]]; exists fields; eauto.
    - intros (fields & -> & Hbase & [Hb|Hu]).
      + left. by apply file_with_bytes_accepts.
      + right. by apply file_with_uri_accepts. }
  split; [exact Hiff|]. split; [|split].
  - intros Hb Hu. apply not_true_is_false. rewrite Hiff.
    intros (fields & -> & _ & [[s Hs]|[s [Hs _]]]); simpl in Hb, Hu.
    + rewrite Hs in Hb. by rewrite bool_decide_eq_true_2 in Hb.
    + rewrite Hs in Hu. by rewrite bool_decide_eq_true_2 in Hu.
  - intros fields -> Hbase Hb. apply Hiff. exists fields. eauto.
  - unfold accepts, FilePartSchema, object. simpl.
    by destruct (FileSchema is_url v).
Qed.

End file_schema.

Lemma FileSchema_accepts_bytes_or_uri_witness :
  Zod.accepts (Zod.FileSchema (fun _ => true)) (JObj [("name", JStr "hello.txt")]) = false
  /\ Zod.accepts (Zod.FileSchema (fun _ => false))
       (JObj [("bytes", JStr "SGVsbG8="); ("mimeType", JStr "text/plain")]) = true.
Proof.
  split.
  - destruct (FileSchema_accepts_bytes_or_uri (fun _ => true)
                (JObj [("name", JStr "hello.txt")])) as (_ & Hneither & _).
    apply Hneither; reflexivity.
  - destruct (FileSchema_accepts_bytes_or_uri (fun _ => false)
                (JObj [("bytes", JStr "SGVsbG8="); ("mimeType", JStr "text/plain")]))
      as (_ & _ & Hbytes & _).
    apply (Hbytes [("bytes", JStr "SGVsbG8="); ("mimeType", JStr "text/plain")]).
    + reflexivity.
    + split; exact I.
    + by eexists.
Defined.

(** C9, counterexample: a file value with both [bytes] and [uri] passes
    [FileSchema] and [FilePartSchema], whatever the URL parser says; the
    first option of the union accepts it and strips [uri]. *)
Lemma FileSchema_accepts_bytes_and_uri :
  Zod.has_field "bytes" Fixture.both_file = true
  /\ Zod.has_field "uri" Fixture.both_file = true
  /\ (forall is_url,
        Zod.FileSchema is_url Fixture.both_file =
        Some (JObj [("bytes", JStr "SGVsbG8=")]))
  /\ (forall is_url,
        Zod.FilePartSchema is_url
          (JObj [("kind", JStr "file"); ("file", Fixture.both_file)]) =
        Some (JObj [("kind", JStr "file"); ("file", JObj [("bytes", JStr "SGVsbG8=")])])).
Proof. repeat split. Qed.

(** * Further properties of the in-memory adapter *)

Section memory_more.
Import MemoryStorageAdapter.

Lemma getTaskArtifacts_loop (taskId : string) (entries : JsMap (string * Artifact.t))
    (acc : list Artifact.t) :
  foldl (fun acc entry =>
           let '(_, (taskId', artifact)) := entry in
           if decide (taskId' = taskId) then acc ++ [artifact] else acc)
        acc entries =
  acc ++ ((fun entry => entry.2.2) <$> filter (fun entry => entry.2.1 = taskId) entries).
Proof.
  revert acc. induction entries as [|[k [t a]] entries IH]; intros acc; simpl.
  - by rewrite app_nil_r.
  - rewrite IH, filter_cons. simpl. case_decide; [|done].
    by rewrite fmap_cons, <- app_assoc.
Qed.

(** [getTaskArtifacts] returns the artifacts filed under the task, in
    the order in which their artifactIds were first stored. *)
Lemma memory_getTaskArtifacts_filter (taskId : string) (st : MemoryStore) :
  getTaskArtifacts taskId st =
  (fun entry => entry.2.2) <$> filter (fun entry => entry.2.1 = taskId) (artifacts st).
Proof. unfold getTaskArtifacts. by rewrite getTaskArtifacts_loop. Qed.

Lemma map_set_other {V} (k k' : string) (v : V) (m : JsMap V) :
  k <> k' -> map_get k' (map_set k v m) = map_get k' m.
Proof.
  intros Hne. induction m as [|[k'' v''] m IH]; simpl.
  - by rewrite decide_False.
  - destruct (decide (k'' = k)) as [->|Hne']; simpl.
    + by rewrite !decide_False.
    + by rewrite IH.
Qed.

Lemma map_set_elem {V} (k : string) (v : V) (m : JsMap V) (entry : string * V) :
  NoDup m.*1 ->
  entry ∈ map_set k v m -> entry = (k, v) \/ (entry ∈ m /\ entry.1 <> k).
Proof.
  induction m as [|[k' v'] m IH]; simpl; intros Hnd.
  - intros Hin. apply list_elem_of_singleton in Hin. by left.
  - apply NoDup_cons in Hnd as [Hk' Hnd].
    destruct (decide (k' = k)) as [->|Hne]; intros Hin;
      apply elem_of_cons in Hin as [->|Hin].
    + by left.
    + right. split; [by right|]. intros Heq. apply Hk'. rewrite <- Heq.
      by apply (list_elem_of_fmap_2 fst).
    + right. split; [by left|done].
    + destruct (IH Hnd Hin) as [->|[Hin' Hk]]; [by left|]. right. split; [by right|done].
Qed.

Lemma map_set_new {V} (k : string) (v : V) (m : JsMap V) : (k, v) ∈ map_set k v m.
Proof.
  induction m as [|[k' v'] m IH]; simpl; [by left|].
  case_decide; [by left|by right].
Qed.

(** Every artifactId is filed under one task at a time: storing an
    artifact under a task makes [getArtifact] return it, lists it among
    the artifacts of that task, and leaves no artifact with its id
    among the artifacts of any other task, also when the id was stored
    under another task before. *)
Theorem memory_artifactId_owned_by_one_task (st : MemoryStore) (taskId : string)
    (artifact : Artifact.t) :
  MemorySpec.well_keyed st ->
  let st' := updateArtifact taskId artifact st in
  MemorySpec.well_keyed st'
  /\ getArtifact (Artifact.artifactId artifact) st' = Some artifact
  /\ artifact ∈ getTaskArtifacts taskId st'
  /\ forall other, other <> taskId ->
       Forall (fun a => Artifact.artifactId a <> Artifact.artifactId artifact)
         (getTaskArtifacts other st').
Proof.
  intros [Hnd Hkeyed] st'.
  assert (artifacts st' =
          map_set (Artifact.artifactId artifact) (taskId, artifact) (artifacts st)) as Hart.
  { unfold st', updateArtifact. by destruct (tasks st !! taskId). }
  split; [|split; [|split]].
  - split; rewrite Hart.
    + by apply map_set_keys_NoDup.
    + intros entry Hin.
      destruct (map_set_elem _ _ _ _ Hnd Hin) as [->|[Hin' _]]; [done|].
      by apply Hkeyed.
  - unfold getArtifact. by rewrite Hart, map_get_set.
  - rewrite memory_getTaskArtifacts_filter, Hart.
    apply list_elem_of_fmap. exists (Artifact.artifactId artifact, (taskId, artifact)).
    split; [done|]. apply list_elem_of_filter. split; [done|]. apply map_set_new.
  - intros other Hother. rewrite memory_getTaskArtifacts_filter, Hart.
    apply Forall_forall. intros a Ha.
    apply list_elem_of_fmap in Ha as (entry & -> & Hin).
    apply list_elem_of_filter in Hin as [Htask Hin].
    destruct (map_set_elem _ _ _ _ Hnd Hin) as [->|[Hin' Hk]]; [by simpl in Htask|].
    by rewrite (Hkeyed entry Hin').
Qed.

(** The [artifacts] array of the stored task grows with every
    [updateArtifact], re-uploads included: after an artifactId is
    uploaded twice the array holds both versions, while the store files
    one artifact under the id. *)
Theorem memory_task_artifacts_accumulate (st : MemoryStore) (taskId : string)
    (task : Task.t) (a a' : Artifact.t) :
  MemorySpec.well_keyed st ->
  getTask taskId st = Some task ->
  Artifact.artifactId a' = Artifact.artifactId a ->
  let st' := updateArtifact taskId a' (updateArtifact taskId a st) in
  (getTask taskId st' ≫= Task.artifacts) =
    Some (default [] (Task.artifacts task) ++ [a; a'])
  /\ stored_artifacts (Artifact.artifactId a) st' = [(taskId, a')]
  /\ getArtifact (Artifact.artifactId a) st' = Some a'.
Proof.
  intros [Hnd Hkeyed] Htask Hid st'.
  split; [|by apply memory_updateArtifact_upserts].
  unfold st', updateArtifact, getTask in *. rewrite Htask. simpl.
  rewrite lookup_insert_eq. simpl. rewrite lookup_insert_eq. simpl.
  by rewrite <- app_assoc.
Qed.

Lemma messagesCount_insert (taskId : string) (old new : list Message.t)
    (m : gmap string (list Message.t)) :
  default [] (m !! taskId) = old ->
  map_fold (fun _ messages count => count + length messages) 0 (<[taskId := new]> m) + length old =
  map_fold (fun _ messages count => count + length messages) 0 m + length new.
Proof.
  intros Hold.
  assert (forall (m' : gmap string (list Message.t)) j1 j2 (z1 z2 : list Message.t) (y : nat),
            j1 <> j2 -> m' !! j1 = Some z1 -> m' !! j2 = Some z2 ->
            y + length z2 + length z1 = y + length z1 + length z2) as Hcomm
    by (intros; lia).
  rewrite <- insert_delete_eq.
  rewrite map_fold_insert_L; [|by apply Hcomm|by rewrite lookup_delete_eq].
  destruct (m !! taskId) as [messages|] eqn:Hm; simpl in Hold; subst old.
  - rewrite (map_fold_delete_L _ _ taskId messages m); [lia|by apply Hcomm|done].
  - rewrite delete_id by done. simpl. lia.
Qed.

Lemma map_set_length {V} (k : string) (v : V) (m : JsMap V) :
  length (map_set k v m) =
  match map_get k m with Some _ => length m | None => S (length m) end.
Proof.
  induction m as [|[k' v'] m IH]; simpl; [done|].
  case_decide; simpl; [done|]. rewrite IH. by destruct (map_get k m).
Qed.

(** What [getStats] counts: every [saveMessage] adds one message and
    nothing else; [saveTask] adds a task only for a task id that is
    new, and [updateArtifact] an artifact only for an artifactId that
    is new; after [clear] all counts are zero. *)
Theorem memory_getStats_counts (st : MemoryStore) :
  (forall taskId message,
      getStats (saveMessage taskId message st) =
      mkStats (tasksCount (getStats st)) (S (messagesCount (getStats st)))
        (artifactsCount (getStats st)))
  /\ (forall task,
        getStats (saveTask task st) =
        mkStats (match getTask (Task.id task) st with
                 | Some _ => tasksCount (getStats st)
                 | None => S (tasksCount (getStats st))
                 end)
          (messagesCount (getStats st)) (artifactsCount (getStats st)))
  /\ (forall taskId artifact,
        artifactsCount (getStats (updateArtifact taskId artifact st)) =
        match getArtifact (Artifact.artifactId artifact) st with
        | Some _ => artifactsCount (getStats st)
        | None => S (artifactsCount (getStats st))
        end)
  /\ getStats (clear st) = mkStats 0 0 0.
Proof.
  split; [|split; [|split]].
  - intros taskId message. unfold getStats, saveMessage. simpl. f_equal.
    pose proof (messagesCount_insert taskId (default [] (messages st !! taskId))
                  (default [] (messages st !! taskId) ++ [message]) (messages st) eq_refl)
      as Hcount.
    rewrite length_app in Hcount. simpl in Hcount. lia.
  - intros task. unfold getStats, saveTask, getTask. simpl. f_equal.
    rewrite map_size_insert. by destruct (tasks st !! Task.id task).
  - intros taskId artifact.
    assert (artifacts (updateArtifact taskId artifact st) =
            map_set (Artifact.artifactId artifact) (taskId, artifact) (artifacts st)) as Hart.
    { unfold updateArtifact. by destruct (tasks st !! taskId). }
    unfold getStats, getArtifact. cbn [artifactsCount]. rewrite Hart, map_set_length.
    by destruct (map_get (Artifact.artifactId artifact) (artifacts st)).
  - done.
Qed.

End memory_more.

Lemma well_keyed_store1 : MemorySpec.well_keyed Fixture.store1.
Proof.
  split; simpl; [apply NoDup_nil_2|]. intros entry Hin. by apply elem_of_nil in Hin.
Qed.

Lemma memory_artifactId_owned_by_one_task_witness :
  Storage.getArtifact "a1"
    (MemoryStorageAdapter.updateArtifact "t2" Fixture.final
       (MemoryStorageAdapter.updateArtifact "t1" Fixture.draft Fixture.store1)) =
    Some Fixture.final
  /\ Storage.getTaskArtifacts "t1"
       (MemoryStorageAdapter.updateArtifact "t2" Fixture.final
          (MemoryStorageAdapter.updateArtifact "t1" Fixture.draft Fixture.store1)) = [].
Proof.
  destruct (memory_artifactId_owned_by_one_task
              (MemoryStorageAdapter.updateArtifact "t1" Fixture.draft Fixture.store1)
              "t2" Fixture.final) as (_ & Hget & _ & _).
  - apply (memory_artifactId_owned_by_one_task Fixture.store1 "t1" Fixture.draft).
    exact well_keyed_store1.
  - split; [exact Hget|reflexivity].
Defined.

Lemma memory_task_artifacts_accumulate_witness :
  (Storage.getTask "t1"
     (MemoryStorageAdapter.updateArtifact "t1" Fixture.final
        (MemoryStorageAdapter.updateArtifact "t1" Fixture.draft Fixture.store1))
   ≫= Task.artifacts) = Some [Fixture.draft; Fixture.final].
Proof.
  apply (memory_task_artifacts_accumulate Fixture.store1 "t1" Fixture.task1
           Fixture.draft Fixture.final well_keyed_store1 eq_refl eq_refl).
Defined.

(** * Further properties of the Drizzle adapter *)

Section drizzle_more.
Import DrizzleStorageAdapter DrizzleSpec.

Lemma dbToTask_taskToDb (task : Task.t) : dbToTask (taskToDb task) = stored_task task.
Proof.
  unfold dbToTask, taskToDb, stored_task. simpl. f_equal.
  unfold js_or, truthy. by destruct (String.eqb_spec (Task.contextId task) "") as [->|].
Qed.

Lemma dbToArtifact_artifactToDb (uuid taskId : string) (artifact : Artifact.t) :
  dbToArtifact (artifactToDb uuid taskId artifact) = stored_artifact artifact.
Proof.
  unfold dbToArtifact, artifactToDb, stored_artifact. simpl.
  rewrite !js_or_None_idem. f_equal. by destruct (Artifact.metadata artifact).
Qed.

(** The row [saveTask] leaves under the id of the task, whether it was
    inserted or updated. *)
Lemma saveTask_row (task : Task.t) (rows : list TaskRow) :
  let dbTask := taskToDb task in
  let set (r : TaskRow) :=
    mkTaskRow (t_id r) (t_status dbTask) (t_statusState dbTask) (t_statusMessage dbTask)
      (t_statusReason dbTask) (t_contextId dbTask) (t_extensions dbTask)
      (t_metadata dbTask) in
  forall taskId,
    first_row (select_where (fun r => bool_decide (t_id r = taskId))
                 (insert_onConflictDoUpdate t_id dbTask set rows)) =
    if decide (taskId = Task.id task) then Some dbTask
    else first_row (select_where (fun r => bool_decide (t_id r = taskId)) rows).
Proof.
  intros dbTask set taskId. unfold first_row, select_where.
  induction rows as [|r rows IH]; simpl.
  - case_decide as Heq.
    + subst. by rewrite bool_decide_eq_true_2.
    + by rewrite bool_decide_eq_false_2.
  - destruct (decide (t_id r = Task.id task)) as [Hr|Hr]; simpl.
    + destruct (decide (taskId = Task.id task)) as [->|Hne].
      * rewrite bool_decide_eq_true_2 by done. simpl.
        unfold set, dbTask, taskToDb. simpl. by rewrite Hr.
      * rewrite !bool_decide_eq_false_2 by congruence. done.
    + destruct (bool_decide (t_id r = taskId)) eqn:Hb; simpl.
      * apply bool_decide_eq_true in Hb. rewrite decide_False by congruence. done.
      * done.
Qed.

Lemma insert_onConflictDoUpdate_keys {R} (key : R -> string) (row : R) (set : R -> R)
    (table : list R) :
  (forall r, key (set r) = key r) ->
  key <$> insert_onConflictDoUpdate key row set table =
  if decide (key row ∈ key <$> table) then key <$> table else (key <$> table) ++ [key row].
Proof.
  intros Hset. induction table as [|r table IH]; [done|].
  cbn [insert_onConflictDoUpdate]. rewrite fmap_cons.
  destruct (decide (key r = key row)) as [Hr|Hr].
    + rewrite decide_True by (rewrite Hr; by left). by rewrite fmap_cons, Hset.
    + rewrite fmap_cons, IH. destruct (decide (key row ∈ key <$> table)) as [Hin|Hin].
      * rewrite decide_True by by right. done.
      * rewrite decide_False; [done|]. intros Hin'.
        apply elem_of_cons in Hin' as [Heq|Hin']; congruence.
Qed.

Lemma insert_onConflictDoUpdate_twice {R} (key : R -> string) (row row' : R)
    (set set' : R -> R) (table : list R) :
  key row' = key row ->
  (forall r, key (set r) = key r) ->
  (forall r, set' (set r) = set' r) ->
  set' row = row' ->
  insert_onConflictDoUpdate key row' set'
    (insert_onConflictDoUpdate key row set table) =
  insert_onConflictDoUpdate key row' set' table.
Proof.
  intros Hkey Hset Hset' Hrow. induction table as [|r table IH].
  - cbn [insert_onConflictDoUpdate]. rewrite decide_True by done. by rewrite Hrow.
  - cbn [insert_onConflictDoUpdate].
    destruct (decide (key r = key row)) as [Hr|Hr]; cbn [insert_onConflictDoUpdate].
    + rewrite !decide_True by (rewrite ?Hset; congruence). by rewrite Hset'.
    + rewrite !decide_False by congruence. by rewrite IH.
Qed.

(** [saveTask] upserts by task id.  Reading the task back gives the task
    in its [stored_task] form, whatever row the id had before; the other
    tasks read as before; the ids of the table stay unique; and of two
    saves under one id the later one stands as if it had been the only
    one. *)
Theorem drizzle_saveTask_upserts (task : Task.t) (db : Db) :
  getTask (Task.id task) (saveTask task db) = Some (stored_task task)
  /\ (forall other, other <> Task.id task ->
        getTask other (saveTask task db) = getTask other db)
  /\ (NoDup (t_id <$> tasks db) -> NoDup (t_id <$> tasks (saveTask task db)))
  /\ (forall task', Task.id task' = Task.id task ->
        saveTask task' (saveTask task db) = saveTask task' db).
Proof.
  split; [|split; [|split]].
  - unfold getTask, saveTask. cbn [tasks]. rewrite (saveTask_row task (tasks db)).
    rewrite decide_True by done. simpl. by rewrite dbToTask_taskToDb.
  - intros other Hother. unfold getTask, saveTask. cbn [tasks].
    rewrite (saveTask_row task (tasks db)). by rewrite decide_False.
  - intros Hnd. unfold saveTask. cbn [tasks].
    rewrite insert_onConflictDoUpdate_keys by done.
    case_decide as Hin; [done|]. apply NoDup_app. split; [done|]. split.
    + intros x Hx Hx'. apply list_elem_of_singleton in Hx'. by subst.
    + apply NoDup_singleton.
  - intros task' Hid. unfold saveTask. cbn [tasks messages artifacts taskMessages]. f_equal.
    apply insert_onConflictDoUpdate_twice; [done|done|done|].
    unfold taskToDb. cbn. by rewrite Hid.
Qed.

Lemma drizzle_updateTaskStatus_same (taskId : string) (status : TaskStatus.t)
    (task : Task.t) (db : Db) :
  getTask taskId db = Some task ->
  getTask taskId (updateTaskStatus taskId status db) =
    Some (Task.set_status
            (TaskStatus.mk (TaskStatus.state status) (TaskStatus.message status) None)
            task).
Proof.
  unfold getTask, updateTaskStatus, first_row, select_where. cbn [tasks].
  intros Htask.
  induction (tasks db) as [|r rows IH]; simpl in *; [done|].
  destruct (decide (t_id r = taskId)) as [Hr|Hr]; simpl.
  - rewrite bool_decide_eq_true_2 in Htask |- * by done. simpl in *.
    injection Htask as <-. done.
  - rewrite bool_decide_eq_false_2 in Htask |- * by done. by apply IH.
Qed.

(** [updateTaskStatus] on a stored task replaces its status and nothing
    else of it: reading the task back shows the state and the message of
    the new status (the timestamp is not read back), with the contextId
    and the metadata it had; the other tasks read as before. *)
Theorem drizzle_updateTaskStatus_readback (taskId : string) (status : TaskStatus.t)
    (task : Task.t) (db : Db) :
  getTask taskId db = Some task ->
  getTask taskId (updateTaskStatus taskId status db) =
    Some (Task.set_status
            (TaskStatus.mk (TaskStatus.state status) (TaskStatus.message status) None)
            task)
  /\ forall other, other <> taskId ->
       getTask other (updateTaskStatus taskId status db) = getTask other db.
Proof.
  intros Htask. split; [by apply drizzle_updateTaskStatus_same|].
  unfold getTask, updateTaskStatus, first_row, select_where. cbn [tasks].
  intros other Hother. clear Htask.
  induction (tasks db) as [|r rows IH]; simpl; [done|].
  destruct (decide (t_id r = taskId)) as [Hr|Hr]; simpl.
  - rewrite !bool_decide_eq_false_2 by congruence. done.
  - destruct (bool_decide (t_id r = other)); simpl; [done|]. done.
Qed.

(** [updateArtifact] with a generated id that is new.  An artifact
    without [metadata] is refused (NOT NULL), and so is an artifact for
    a task without a row (foreign key); nothing is written then.
    Otherwise a row is added and none rewritten: the artifacts of the
    task gain the artifact at the end, the artifacts of other tasks
    stay, and [getArtifact] keeps returning the first artifact ever
    stored under an artifactId. *)
Theorem drizzle_updateArtifact_appends (uuid taskId : string) (artifact : Artifact.t)
    (db : Db) :
  uuid ∉ a_id <$> artifacts db ->
  (Artifact.metadata artifact = None ->
     updateArtifact uuid taskId artifact db = Err (NOT_NULL "a2a_artifacts.metadata"))
  /\ (is_Some (Artifact.metadata artifact) -> getTask taskId db = None ->
        updateArtifact uuid taskId artifact db = Err FOREIGN_KEY)
  /\ (is_Some (Artifact.metadata artifact) -> is_Some (getTask taskId db) ->
        exists db',
          updateArtifact uuid taskId artifact db = Ok db'
          /\ (forall task,
                getTaskArtifacts task db' =
                getTaskArtifacts task db
                  ++ (if decide (taskId = task) then [stored_artifact artifact] else []))
          /\ (forall artifactId,
                getArtifact artifactId db' =
                match getArtifact artifactId db with
                | Some first => Some first
                | None => if decide (Artifact.artifactId artifact = artifactId)
                          then Some (stored_artifact artifact) else None
                end)).
Proof.
  intros Hfresh. split; [|split].
  - intros Hnone. unfold updateArtifact. simpl. by rewrite Hnone.
  - intros [metadata Hmeta] Hnone. unfold updateArtifact. simpl. rewrite Hmeta. simpl.
    rewrite bool_decide_eq_false_2 by done.
    destruct (has_task taskId db) eqn:Htask; [|done].
    apply has_task_getTask in Htask. rewrite Hnone in Htask. by destruct Htask.
  - intros Hmeta Htask. apply has_task_getTask in Htask.
    eexists. split; [by apply drizzle_updateArtifact_fresh|]. split.
    + intros task. unfold getTaskArtifacts, select_where. simpl.
      rewrite List.filter_app, fmap_app. f_equal. simpl.
      case_decide as Heq.
      * rewrite bool_decide_eq_true_2 by done. simpl. by rewrite dbToArtifact_artifactToDb.
      * by rewrite bool_decide_eq_false_2.
    + intros artifactId. unfold getArtifact, select_where, first_row. simpl.
      rewrite List.filter_app. simpl.
      destruct (List.filter _ (artifacts db)) as [|row rows] eqn:Hrows; simpl.
      * case_decide as Heq.
        -- rewrite bool_decide_eq_true_2 by done. simpl.
           by rewrite dbToArtifact_artifactToDb.
        -- by rewrite bool_decide_eq_false_2.
      * done.
Qed.

End drizzle_more.

Lemma drizzle_updateTaskStatus_readback_witness :
  (TaskStatus.state ∘ Task.status) <$>
    DrizzleStorageAdapter.getTask "t1"
      (DrizzleStorageAdapter.updateTaskStatus "t1" (Fixture.working_on Fixture.hello)
         Fixture.db1) = Some working.
Proof.
  destruct (drizzle_updateTaskStatus_readback "t1" (Fixture.working_on Fixture.hello)
              (DrizzleSpec.stored_task Fixture.task1) Fixture.db1 eq_refl) as [-> _].
  reflexivity.
Defined.

Lemma drizzle_updateArtifact_appends_witness :
  DrizzleStorageAdapter.updateArtifact "uuid-0" "t1"
    (Artifact.mk "a1" (Some "plan") None [] None None) Fixture.db1 =
    Err (DrizzleStorageAdapter.NOT_NULL "a2a_artifacts.metadata")
  /\ DrizzleStorageAdapter.updateArtifact "uuid-0" "t2" Fixture.draft Fixture.db1 =
       Err DrizzleStorageAdapter.FOREIGN_KEY
  /\ exists db',
       DrizzleStorageAdapter.updateArtifact "uuid-0" "t1" Fixture.draft Fixture.db1 = Ok db'
       /\ DrizzleStorageAdapter.getTaskArtifacts "t1" db' = [Fixture.draft].
Proof.
  split; [|split].
  - apply (drizzle_updateArtifact_appends "uuid-0" "t1"
             (Artifact.mk "a1" (Some "plan") None [] None None) Fixture.db1);
      [apply not_elem_of_nil|reflexivity].
  - apply (drizzle_updateArtifact_appends "uuid-0" "t2" Fixture.draft Fixture.db1);
      [apply not_elem_of_nil|by eexists|reflexivity].
  - destruct (drizzle_updateArtifact_appends "uuid-0" "t1" Fixture.draft Fixture.db1)
      as (_ & _ & Hok); [apply not_elem_of_nil|].
    destruct Hok as (db' & Hupd & Hlist & _); [by eexists|by eexists|].
    exists db'. split; [exact Hupd|]. rewrite Hlist. reflexivity.
Defined.

(** * Further properties of the dispatch core *)

Section core_more.
Context {S E : Type} `{!StorageAdapter S}.

(** An execution has to be addressed: when neither the options nor the
    message give a non-empty taskId, or a non-empty contextId, [execute]
    throws "taskId and contextId are required" before it writes or runs
    anything. *)
Theorem execute_requires_identifiers (executors : gmap string (Core.Executor S E))
    (message : Message.t) (options : option Core.Options) (now : string)
    (executor : Core.Executor S E) (w : Core.World S E) :
  Core.findExecutor (default [] (Message.extensions message)) executors = Some executor ->
  truthy (js_or (options ≫= Core.opt_taskId) (Message.taskId message)) = false
  \/ truthy (js_or (options ≫= Core.opt_contextId) (Message.contextId message)) = false ->
  Core.execute executors message options now w = (Err MissingIdentifiers, w).
Proof.
  intros Hfind Hids. unfold Core.execute. rewrite Hfind. unfold Core.dispatch.
  destruct Hids as [-> | ->]; simpl; [done|].
  by rewrite orb_true_r.
Qed.

End core_more.

Lemma execute_requires_identifiers_witness :
  Core.execute (Core.register (Fixture.tagged "urn:a") ∅)
    (Fixture.request ["urn:a"] []) (Some (Core.mkOptions (Some "") (Some "ctx"))) "now"
    (Core.mkWorld (Some Fixture.store1) tt) =
  (Err MissingIdentifiers, Core.mkWorld (Some Fixture.store1) tt).
Proof.
  apply (execute_requires_identifiers (Core.register (Fixture.tagged "urn:a") ∅)
           (Fixture.request ["urn:a"] []) (Some (Core.mkOptions (Some "") (Some "ctx")))
           "now" (Fixture.tagged "urn:a") (Core.mkWorld (Some Fixture.store1) tt)).
  - reflexivity.
  - left. reflexivity.
Defined.

Section core_memory.
Context {E : Type}.
Variable eventSender : A2AEvent -> E -> Res E.
Implicit Types (st : MemoryStorageAdapter.MemoryStore) (ch : E).

(** What the executor finds, and what [execute] makes of its result.
    The executor runs in a world where its task is stored as a fresh
    submitted task that carries the message and the message is the last
    of the messages of the task.  Whatever the executor did stays done:
    if it throws, [execute] throws the same; if its result fails the
    output schema, [execute] throws the validation error; otherwise
    [execute] returns the result as the output schema parsed it. *)
Theorem execute_runs_executor_after_persist
    (executors : gmap string (Core.Executor MemoryStorageAdapter.MemoryStore E))
    (message : Message.t) (options : option Core.Options) (now : string)
    (executor : Core.Executor MemoryStorageAdapter.MemoryStore E)
    (taskId contextId : string) (input : Json) st ch :
  Core.findExecutor (default [] (Message.extensions message)) executors = Some executor ->
  js_or (options ≫= Core.opt_taskId) (Message.taskId message) = Some taskId ->
  js_or (options ≫= Core.opt_contextId) (Message.contextId message) = Some contextId ->
  taskId <> "" -> contextId <> "" ->
  Core.extractInput message (Core.input executor) = Ok input ->
  exists st0,
    Storage.getTask taskId st0 = Some (Core.submitted_task taskId contextId message now)
    /\ Storage.getMessages taskId st0 = Storage.getMessages taskId st ++ [message]
    /\ Core.execute executors message options now (Core.mkWorld (Some st) ch) =
       match Core.execute_fn executor input (Core.mkContext taskId contextId)
               (Core.mkWorld (Some st0) ch) with
       | (Ok result, w) =>
           match Core.output executor with
           | None => (Ok result, w)
           | Some schema =>
               match schema result with
               | Some parsed => (Ok parsed, w)
               | None => (Err ZodError, w)
               end
           end
       | (Err e, w) => (Err e, w)
       end.
Proof.
  intros Hfind Htask Hctx Ht Hc Hin.
  exists (MemoryStorageAdapter.saveMessage taskId message
            (MemoryStorageAdapter.saveTask
               (Core.submitted_task taskId contextId message now) st)).
  split; [|split].
  - simpl. unfold MemoryStorageAdapter.getTask. simpl. apply lookup_insert_eq.
  - simpl. by rewrite memory_getMessages_saveMessage, decide_True.
  - unfold Core.execute. rewrite Hfind. unfold Core.dispatch.
    rewrite Htask, Hctx, !truthy_Some by done. simpl.
    unfold Core.bind, Core.storage_write, Core.lift. simpl. rewrite Hin.
    destruct (Core.execute_fn executor input _ _) as [[result|e] w]; [|done].
    destruct (Core.output executor) as [schema|]; [|done].
    by destruct (schema result).
Qed.

(** [updateMessage] tells the observers that the task is working, with
    the message, and appends the message to the messages of the task;
    it changes the stored status of no task, and it does not ask for the
    task to be stored. *)
Theorem updateMessage_keeps_status (taskId contextId : string) (message : Message.t)
    (now : string) st ch ch' :
  eventSender (StatusUpdate taskId contextId
                 (TaskStatus.mk working (Some message) (Some now)) false) ch = Ok ch' ->
  exists st',
    Core.updateMessage eventSender taskId contextId message now
      (Core.mkWorld (Some st) ch) = (Ok tt, Core.mkWorld (Some st') ch')
    /\ (forall other, Storage.getTask other st' = Storage.getTask other st)
    /\ Storage.getMessages taskId st' = Storage.getMessages taskId st ++ [message].
Proof.
  intros Hsend. eexists. split; [|split].
  - unfold Core.updateMessage, Core.bind, Core.send, Core.storage_write. simpl.
    rewrite Hsend. simpl. reflexivity.
  - done.
  - simpl. by rewrite memory_getMessages_saveMessage, decide_True.
Qed.

End core_memory.

Section readback.
Context {E : Type}.
Variable eventSender : A2AEvent -> E -> Res E.

(** Status, then read back.  After [updateStatus] on a stored task, in
    whatever state it was, [getTask] of the instance returns the task
    with the state and the message of the new status, with either
    adapter; no transition is refused.  The in-memory adapter returns
    the time of the update as the timestamp, the Drizzle adapter none. *)
Theorem updateStatus_then_getTask (taskId contextId : string) (status : TaskStatus.t)
    (now : string) (task : Task.t) (ch ch' : E) :
  eventSender (StatusUpdate taskId contextId status false) ch = Ok ch' ->
  (forall st : MemoryStorageAdapter.MemoryStore,
      Storage.getTask taskId st = Some task ->
      exists w task',
        Core.updateStatus eventSender taskId contextId status now
          (Core.mkWorld (Some st) ch) = (Ok tt, w)
        /\ Core.getTask taskId w = (Ok task', w)
        /\ Task.status task' =
             TaskStatus.mk (TaskStatus.state status) (TaskStatus.message status) (Some now))
  /\ (forall env : DrizzleStorageAdapter.Env,
        Storage.getTask taskId env = Some task ->
        exists w task',
          Core.updateStatus eventSender taskId contextId status now
            (Core.mkWorld (Some env) ch) = (Ok tt, w)
          /\ Core.getTask taskId w = (Ok task', w)
          /\ Task.status task' =
               TaskStatus.mk (TaskStatus.state status) (TaskStatus.message status) None).
Proof.
  intros Hsend. split.
  - intros st Htask.
    assert (exists st' task',
              MemoryStorageAdapter.updateTaskStatus taskId
                (TaskStatus.mk (TaskStatus.state status) (TaskStatus.message status)
                   (Some now)) st = Ok st'
              /\ MemoryStorageAdapter.getTask taskId st' = Some task'
              /\ Task.status task' =
                   TaskStatus.mk (TaskStatus.state status) (TaskStatus.message status)
                     (Some now)) as (st' & task' & Hupd & Hget & Hstatus).
    { simpl in Htask. unfold MemoryStorageAdapter.updateTaskStatus,
        MemoryStorageAdapter.getTask in *. rewrite Htask. simpl.
      destruct (TaskStatus.message status) as [message|]; eexists _, _;
        (split; [reflexivity|]); simpl; rewrite lookup_insert_eq; done. }
    exists (Core.mkWorld (Some st') ch'), task'. split; [|split; [|done]].
    + unfold Core.updateStatus, Core.bind, Core.send, Core.storage_write. simpl.
      rewrite Hsend. simpl. by rewrite Hupd.
    + unfold Core.getTask. simpl. by rewrite Hget.
  - intros env Htask. simpl in Htask.
    pose proof (drizzle_updateTaskStatus_same taskId
                  (TaskStatus.mk (TaskStatus.state status) (TaskStatus.message status)
                     (Some now)) task (DrizzleStorageAdapter.db env) Htask) as Hget.
    eexists _, _. split; [|split].
    + unfold Core.updateStatus, Core.bind, Core.send, Core.storage_write. simpl.
      rewrite Hsend. simpl. reflexivity.
    + unfold Core.getTask. simpl. rewrite Hget. reflexivity.
    + done.
Qed.

End readback.

Lemma execute_runs_executor_after_persist_witness :
  exists st0,
    Storage.getTask "t1" st0 =
      Some (Core.submitted_task "t1" "ctx"
              (Fixture.request ["urn:echo"] [Fixture.text "hi"]) "now")
    /\ Storage.getMessages "t1" st0 = [Fixture.request ["urn:echo"] [Fixture.text "hi"]]
    /\ Core.execute (Core.register (Fixture.echo "urn:echo") ∅)
         (Fixture.request ["urn:echo"] [Fixture.text "hi"]) Fixture.to_t1 "now"
         (Core.mkWorld (Some Fixture.store1) tt) =
       (Ok (JObj [("text", JStr "hi")]), Core.mkWorld (Some st0) tt).
Proof.
  destruct (execute_runs_executor_after_persist
              (Core.register (Fixture.echo "urn:echo") ∅)
              (Fixture.request ["urn:echo"] [Fixture.text "hi"]) Fixture.to_t1 "now"
              (Fixture.echo "urn:echo") "t1" "ctx" (JObj [("text", JStr "hi")])
              Fixture.store1 tt) as (st0 & Htask & Hmsgs & Hrun);
    [reflexivity | reflexivity | reflexivity | done | done | reflexivity |].
  exists st0. split; [exact Htask|]. split; [exact Hmsgs|]. exact Hrun.
Defined.

Lemma updateMessage_keeps_status_witness :
  exists st',
    Core.updateMessage Fixture.recorder "t1" "ctx" Fixture.hello "now"
      (Core.mkWorld (Some Fixture.store1) []) =
    (Ok tt, Core.mkWorld (Some st')
              [StatusUpdate "t1" "ctx"
                 (TaskStatus.mk working (Some Fixture.hello) (Some "now")) false])
    /\ (forall other, Storage.getTask other st' = Storage.getTask other Fixture.store1)
    /\ Storage.getMessages "t1" st' = [Fixture.hello].
Proof.
  apply (updateMessage_keeps_status Fixture.recorder "t1" "ctx" Fixture.hello "now"
           Fixture.store1 []).
  reflexivity.
Defined.

Lemma updateStatus_then_getTask_witness :
  exists w task',
    Core.updateStatus Fixture.recorder "t1" "ctx" (Fixture.working_on Fixture.hello) "now"
      (Core.mkWorld (Some Fixture.store1) []) = (Ok tt, w)
    /\ Core.getTask "t1" w = (Ok task', w)
    /\ Task.status task' = TaskStatus.mk working (Some Fixture.hello) (Some "now").
Proof.
  destruct (updateStatus_then_getTask Fixture.recorder "t1" "ctx"
              (Fixture.working_on Fixture.hello) "now" Fixture.task1 []
              [StatusUpdate "t1" "ctx" (Fixture.working_on Fixture.hello) false]
              eq_refl) as [Hmem _].
  apply (Hmem Fixture.store1). reflexivity.
Defined.

Section context_order.
Context {S E : Type} `{!StorageAdapter S}.
Variable eventSender : A2AEvent -> E -> Res E.

(** The event goes out before the store is written, so a sender that
    throws keeps every context operation from writing: the operation
    throws the sender's error and the store is as it was. *)
Theorem sender_failure_writes_nothing (taskId contextId : string) (e : Error)
    (w : Core.World S E) :
  (forall event, eventSender event (Core.channel w) = Err e) ->
  (forall status now,
      Core.updateStatus eventSender taskId contextId status now w = (Err e, w))
  /\ (forall artifact,
        Core.updateArtifact eventSender taskId contextId artifact w = (Err e, w))
  /\ (forall message now,
        Core.updateMessage eventSender taskId contextId message now w = (Err e, w))
  /\ (forall message now now',
        Core.cancelTask eventSender taskId contextId message now now' w = (Err e, w)).
Proof.
  intros Hfail.
  unfold Core.updateStatus, Core.updateArtifact, Core.updateMessage, Core.cancelTask,
    Core.bind, Core.send.
  repeat split; intros; by rewrite Hfail.
Qed.

End context_order.

Lemma sender_failure_writes_nothing_witness :
  Core.updateArtifact (fun _ (_ : unit) => Err (Thrown "offline")) "t1" "ctx" Fixture.draft
    (Core.mkWorld (Some Fixture.store1) tt) =
  (Err (Thrown "offline"), Core.mkWorld (Some Fixture.store1) tt).
Proof.
  destruct (sender_failure_writes_nothing (fun _ (_ : unit) => Err (Thrown "offline"))
              "t1" "ctx" (Thrown "offline") (Core.mkWorld (Some Fixture.store1) tt))
    as (_ & Hart & _).
  - reflexivity.
  - apply Hart.
Defined.

Section lifecycle.
Implicit Types (st : MemoryStorageAdapter.MemoryStore) (log : list A2AEvent).

(** A run of status, artifact, status on a stored task: the observers
    get the three events in the order of the calls, with the statuses as
    the caller gave them, and afterwards the task has the second status
    (stamped with the time of its write), and the artifact is stored
    under its artifactId. *)
Theorem context_events_in_call_order (taskId contextId : string)
    (s1 s2 : TaskStatus.t) (artifact : Artifact.t) (now1 now2 : string)
    (task : Task.t) st log :
  Storage.getTask taskId st = Some task ->
  exists st',
    Core.bind (Core.updateStatus Fixture.recorder taskId contextId s1 now1)
      (fun _ =>
         Core.bind (Core.updateArtifact Fixture.recorder taskId contextId artifact)
           (fun _ => Core.updateStatus Fixture.recorder taskId contextId s2 now2))
      (Core.mkWorld (Some st) log) =
    (Ok tt, Core.mkWorld (Some st')
              (log ++ [StatusUpdate taskId contextId s1 false;
                       ArtifactUpdate taskId contextId artifact;
                       StatusUpdate taskId contextId s2 false]))
    /\ Task.status <$> Storage.getTask taskId st' =
         Some (TaskStatus.mk (TaskStatus.state s2) (TaskStatus.message s2) (Some now2))
    /\ Storage.getArtifact (Artifact.artifactId artifact) st' = Some artifact.
Proof.
  intros Htask. simpl in Htask. unfold MemoryStorageAdapter.getTask in Htask.
  unfold Core.updateStatus, Core.updateArtifact, Core.bind, Core.send,
    Core.storage_write, Fixture.recorder.
  cbn [Core.channel Core.storage Storage.updateTaskStatus Storage.updateArtifact
       MemoryStorageAdapter.adapter].
  unfold MemoryStorageAdapter.updateTaskStatus at 1. rewrite Htask.
  cbn [TaskStatus.message].
  set (st1 := match TaskStatus.message s1 with
              | Some message => _ | None => _ end).
  assert (exists st1' task1, st1 = Ok st1'
            /\ MemoryStorageAdapter.tasks st1' !! taskId = Some task1)
    as (st1' & task1 & -> & Htask1).
  { unfold st1. destruct (TaskStatus.message s1); eexists _, _;
      (split; [reflexivity|]); simpl; apply lookup_insert_eq. }
  cbn [Core.channel Core.storage].
  set (st2 := MemoryStorageAdapter.updateArtifact taskId artifact st1').
  assert (exists task2, MemoryStorageAdapter.tasks st2 !! taskId = Some task2
            /\ MemoryStorageAdapter.getArtifact (Artifact.artifactId artifact) st2
               = Some artifact) as (task2 & Htask2 & Hart2).
  { unfold st2, MemoryStorageAdapter.updateArtifact, MemoryStorageAdapter.getArtifact.
    rewrite Htask1. simpl. rewrite lookup_insert_eq, map_get_set. eauto. }
  unfold MemoryStorageAdapter.updateTaskStatus. rewrite Htask2.
  cbn [TaskStatus.message].
  destruct (TaskStatus.message s2) as [message|] eqn:Hm; eexists;
    (split; [rewrite <- !app_assoc; reflexivity|]); simpl;
    unfold MemoryStorageAdapter.getTask, MemoryStorageAdapter.getArtifact; simpl;
    rewrite lookup_insert_eq; simpl; rewrite ?Hm; (split; [done|]); exact Hart2.
Qed.

End lifecycle.

Lemma context_events_in_call_order_witness :
  exists st',
    Core.bind (Core.updateStatus Fixture.recorder "t1" "ctx"
                 (Fixture.working_on Fixture.hello) "10:00")
      (fun _ =>
         Core.bind (Core.updateArtifact Fixture.recorder "t1" "ctx" Fixture.draft)
           (fun _ => Core.updateStatus Fixture.recorder "t1" "ctx"
                       (TaskStatus.mk completed None None) "10:05"))
      (Core.mkWorld (Some Fixture.store1) []) =
    (Ok tt, Core.mkWorld (Some st')
              [StatusUpdate "t1" "ctx" (Fixture.working_on Fixture.hello) false;
               ArtifactUpdate "t1" "ctx" Fixture.draft;
               StatusUpdate "t1" "ctx" (TaskStatus.mk completed None None) false])
    /\ Task.status <$> Storage.getTask "t1" st' =
         Some (TaskStatus.mk completed None (Some "10:05"))
    /\ Storage.getArtifact "a1" st' = Some Fixture.draft.
Proof.
  apply (context_events_in_call_order "t1" "ctx" (Fixture.working_on Fixture.hello)
           (TaskStatus.mk completed None None) Fixture.draft "10:00" "10:05"
           Fixture.task1 Fixture.store1 []).
  reflexivity.
Defined.

(** * The input of an executor ([extractInput]) *)

Lemma obj_get_obj_set (k k' : string) (v : Json) (fields : Fields) :
  obj_get k (obj_set k' v fields) = if decide (k' = k) then Some v else obj_get k fields.
Proof.
  induction fields as [|[k0 v0] rest IH]; simpl.
  - done.
  - destruct (decide (k0 = k')) as [->|Hne]; simpl.
    + by destruct (decide (k' = k)).
    + rewrite IH. destruct (decide (k0 = k)) as [->|]; [|done].
      by rewrite decide_False by done.
Qed.

Lemma obj_get_obj_spread (k : string) (a b : Fields) :
  NoDup b.*1 ->
  obj_get k (obj_spread a b) =
  match obj_get k b with Some v => Some v | None => obj_get k a end.
Proof.
  unfold obj_spread. revert a. induction b as [|[k0 v0] rest IH]; intros a Hnd; simpl.
  - done.
  - apply NoDup_cons in Hnd as [Hnotin Hnd]. rewrite IH by done.
    destruct (decide (k0 = k)) as [->|Hne].
    + assert (obj_get k rest = None) as ->.
      { clear -Hnotin. induction rest as [|[k1 v1] rest IH]; simpl; [done|].
        apply not_elem_of_cons in Hnotin as [Hk Hrest].
        rewrite decide_False by done. by apply IH. }
      by rewrite obj_get_obj_set, decide_True.
    + destruct (obj_get k rest); [done|].
      by rewrite obj_get_obj_set, decide_False.
Qed.

(** What an executor is given.  The input object is built from the first
    text part and the first data part of the message, other parts are
    not looked at: a key of the data part has the value the data part
    gives it, also the key "text"; otherwise "text" is the text of the
    text part, and no other key is present. *)
Theorem extractInput_data_overrides_text (message : Message.t) (k : string) :
  let data :=
    match List.find Core.is_data (Message.parts message) with
    | Some (DataPart data _) => data
    | _ => []
    end in
  let text :=
    match List.find Core.is_text (Message.parts message) with
    | Some (TextPart text _) => Some (JStr text)
    | _ => None
    end in
  NoDup data.*1 ->
  Core.extractInput message None = Ok (JObj (Core.input_of message))
  /\ obj_get k (Core.input_of message) =
     match obj_get k data with
     | Some v => Some v
     | None => if decide (k = "text") then text else None
     end.
Proof.
  intros data text Hnd. split; [done|].
  unfold Core.input_of. cbv zeta. subst data text.
  rewrite obj_get_obj_spread by done.
  destruct (obj_get k _); [done|].
  destruct (List.find Core.is_text (Message.parts message)) as [[]|]; simpl;
    try by destruct (decide (k = "text")).
  destruct (decide ("text" = k)) as [<-|]; [by rewrite decide_True|].
  by rewrite decide_False.
Qed.

Lemma extractInput_data_overrides_text_witness :
  obj_get "text"
    (Core.input_of
       (Fixture.request [] [Fixture.text "typed"; DataPart [("text", JStr "sent")] None;
                            Fixture.text "ignored"])) = Some (JStr "sent").
Proof.
  destruct (extractInput_data_overrides_text
              (Fixture.request [] [Fixture.text "typed";
                                   DataPart [("text", JStr "sent")] None;
                                   Fixture.text "ignored"]) "text") as [_ ->].
  - simpl. apply NoDup_singleton.
  - reflexivity.
Defined.

(** * Further properties of the in-process event channel *)

Section sse_more.
Import SSE SSESpec.

Implicit Types (acc : gset nat * gmap nat Controller) (c : nat) (reg : Registry).

Lemma open_closed_false c reg :
  open c reg <-> closed <$> controllers reg !! c = Some false.
Proof.
  unfold open. destruct (controllers reg !! c) as [ctl|]; simpl.
  - split; [intros (? & [= <-] & ->); done|intros [= ?]; eauto].
  - split; [intros (? & [=] & _)|done].
Qed.

(** One step of the first loop neither opens nor closes a stream. *)
Lemma enqueue_step_closedness (message : Frame) acc (x c : nat) :
  closed <$> (enqueue_step message acc x).2 !! c = closed <$> acc.2 !! c.
Proof.
  destruct acc as [tc ctls]. unfold enqueue_step. simpl.
  destruct (ctls !! x) as [ctl|] eqn:Hx; [|done].
  destruct (closed ctl) eqn:Hclosed; [done|]. simpl.
  destruct (decide (x = c)) as [->|Hne].
  - by rewrite lookup_insert_eq, Hx; simpl; rewrite Hclosed.
  - by rewrite lookup_insert_ne.
Qed.

Lemma enqueue_step_set (message : Frame) acc (x c : nat) :
  c ∈ (enqueue_step message acc x).1
  <-> c ∈ acc.1 /\ (c = x -> closed <$> acc.2 !! c = Some false).
Proof.
  destruct acc as [tc ctls]. unfold enqueue_step. simpl.
  destruct (ctls !! x) as [ctl|] eqn:Hx; [destruct (closed ctl) eqn:Hclosed|]; simpl;
    rewrite ?elem_of_difference, ?elem_of_singleton.
  - split; [intros [? ?]; split; [done|congruence]|].
    intros [? Himp]. split; [done|]. intros ->. specialize (Himp eq_refl).
    rewrite Hx in Himp. simpl in Himp. congruence.
  - split; [intros ?; split; [done|]|tauto].
    intros ->. by rewrite Hx; simpl; rewrite Hclosed.
  - split; [intros [? ?]; split; [done|congruence]|].
    intros [? Himp]. split; [done|]. intros ->. specialize (Himp eq_refl).
    by rewrite Hx in Himp.
Qed.

(** Nothing is written to a stream that is closed. *)
Lemma enqueue_step_closed (message : Frame) acc (x c : nat) (ctl : Controller) :
  acc.2 !! c = Some ctl -> closed ctl = true ->
  (enqueue_step message acc x).2 !! c = Some ctl.
Proof.
  destruct acc as [tc ctls]. unfold enqueue_step. simpl. intros Hc Hclosed.
  destruct (ctls !! x) as [ctl'|] eqn:Hx; [|done].
  destruct (closed ctl') eqn:Hclosed'; [done|]. simpl.
  rewrite lookup_insert_ne; [done|]. intros ->. congruence.
Qed.

Lemma enqueue_fold_closed (message : Frame) (l : list nat) acc c (ctl : Controller) :
  acc.2 !! c = Some ctl -> closed ctl = true ->
  (foldl (enqueue_step message) acc l).2 !! c = Some ctl.
Proof.
  revert acc. induction l as [|x l IH]; intros acc Hc Hclosed; [done|].
  simpl. apply IH; [|done]. by apply enqueue_step_closed.
Qed.

(** The first loop keeps, of the set it starts from, the controllers
    whose stream is open, and those it does not visit. *)
Lemma enqueue_fold_set (message : Frame) (l : list nat) acc c :
  c ∈ (foldl (enqueue_step message) acc l).1
  <-> c ∈ acc.1 /\ (c ∈ l -> closed <$> acc.2 !! c = Some false).
Proof.
  revert acc. induction l as [|x l IH]; intros acc; simpl.
  - split; [intros ?; split; [done|]|tauto]. intros Hin. by apply elem_of_nil in Hin.
  - rewrite IH, enqueue_step_set, enqueue_step_closedness, elem_of_cons. naive_solver.
Qed.

(** The connections of a task after an event for it: after a
    status-update those that were registered and whose stream is open,
    after an artifact-update none. *)
Lemma sendSSEEvent_registered (event : A2AEvent) reg c :
  c ∈ registered (event_taskId event) (sendSSEEvent event reg)
  <-> event_kind event = STATUS_UPDATE
      /\ c ∈ registered (event_taskId event) reg /\ open c reg.
Proof.
  rewrite open_closed_false. unfold registered, sendSSEEvent.
  destruct (connections reg !! event_taskId event) as [tc|] eqn:Hconn; simpl.
  2: { rewrite Hconn. simpl. rewrite elem_of_empty. tauto. }
  destruct (decide (size tc = 0)) as [Hsize|Hsize].
  { rewrite Hconn. simpl. apply size_empty_iff in Hsize. apply leibniz_equiv in Hsize.
    subst tc. rewrite elem_of_empty. tauto. }
  pose proof (enqueue_fold_set (encodeMessage event) (elements tc)
                (tc, controllers reg) c) as Hset.
  destruct (foldl _ _ _) as [tc' ctls'] eqn:Hfold. simpl in Hset.
  rewrite elem_of_elements in Hset.
  destruct event as [taskId contextId status final|taskId contextId artifact];
    cbn [event_kind event_taskId] in *.
  - rewrite (decide_False (P := STATUS_UPDATE = ARTIFACT_UPDATE)) by done.
    cbn [connections].
    destruct (decide (size tc' = 0)) as [Hsize'|Hsize'].
    + rewrite lookup_delete_eq. simpl. apply size_empty_iff in Hsize'.
      apply leibniz_equiv in Hsize'. subst tc'.
      rewrite elem_of_empty in *. tauto.
    + rewrite lookup_insert_eq. simpl. rewrite Hset. tauto.
  - rewrite (decide_True (P := ARTIFACT_UPDATE = ARTIFACT_UPDATE)) by done.
    cbn [connections]. rewrite lookup_delete_eq. simpl. rewrite elem_of_empty.
    split; [done|]. by intros [[=] _].
Qed.

(** An event changes the registration of no other task. *)
Lemma sendSSEEvent_connections_other (event : A2AEvent) reg (taskId : string) :
  taskId <> event_taskId event ->
  connections (sendSSEEvent event reg) !! taskId = connections reg !! taskId.
Proof.
  intros Hne. unfold sendSSEEvent.
  destruct (connections reg !! event_taskId event) as [tc|]; [|done].
  destruct (decide (size tc = 0)); [done|].
  destruct (foldl _ _ _) as [tc' ctls'].
  destruct (decide (event_kind event = ARTIFACT_UPDATE)),
    (decide (size tc' = 0)); cbn [connections];
    rewrite ?lookup_delete_ne, ?lookup_insert_ne by done; done.
Qed.

(** An event touches the stream of no controller outside the
    connections of its task. *)
Lemma sendSSEEvent_controller_other (event : A2AEvent) reg c :
  c ∉ registered (event_taskId event) reg ->
  controllers (sendSSEEvent event reg) !! c = controllers reg !! c.
Proof.
  unfold registered, sendSSEEvent. intros Hnotin.
  destruct (connections reg !! event_taskId event) as [tc|]; [|done].
  simpl in Hnotin.
  destruct (decide (size tc = 0)); [done|].
  assert (c ∉ elements tc) as Hnotin' by by rewrite elem_of_elements.
  destruct (enqueue_fold_other (encodeMessage event) (elements tc)
              (tc, controllers reg) c Hnotin') as [Hctl Hset].
  destruct (foldl _ _ _) as [tc' ctls']. simpl in Hctl, Hset.
  destruct (decide (event_kind event = ARTIFACT_UPDATE)); cbn [controllers]; [|done].
  rewrite close_fold_other; [done|]. rewrite elem_of_elements. tauto.
Qed.

(** An event never writes to or reopens a stream that is closed. *)
Lemma sendSSEEvent_controller_closed (event : A2AEvent) reg c (ctl : Controller) :
  controllers reg !! c = Some ctl -> closed ctl = true ->
  controllers (sendSSEEvent event reg) !! c = Some ctl.
Proof.
  intros Hc Hclosed. unfold sendSSEEvent.
  destruct (connections reg !! event_taskId event) as [tc|]; [|done].
  destruct (decide (size tc = 0)); [done|].
  pose proof (enqueue_fold_closed (encodeMessage event) (elements tc)
                (tc, controllers reg) c ctl Hc Hclosed) as Hctl.
  pose proof (enqueue_fold_set (encodeMessage event) (elements tc)
                (tc, controllers reg) c) as Hset.
  destruct (foldl _ _ _) as [tc' ctls']. simpl in Hctl, Hset.
  destruct (decide (event_kind event = ARTIFACT_UPDATE)); cbn [controllers]; [|done].
  rewrite close_fold_other; [done|]. rewrite elem_of_elements, Hset, elem_of_elements.
  intros [Hin Hopen]. specialize (Hopen Hin). rewrite Hc in Hopen. simpl in Hopen.
  congruence.
Qed.

End sse_more.

Section sse_registry.
Import SSE SSESpec.

Implicit Types (c : nat) (reg : Registry).

(** Delivery follows the streams that are open.  After an event for a
    task, the connections registered for the task are: after a
    status-update those that were registered and whose stream is open
    (a connection whose stream is closed is dropped), after an
    artifact-update none.  The stream of a closed connection is left as
    it is: nothing is written to it. *)
Theorem sendSSEEvent_keeps_open_connections (event : A2AEvent) reg :
  (forall c,
      c ∈ registered (event_taskId event) (sendSSEEvent event reg)
      <-> event_kind event = STATUS_UPDATE
          /\ c ∈ registered (event_taskId event) reg /\ open c reg)
  /\ (forall c ctl,
        controllers reg !! c = Some ctl -> closed ctl = true ->
        controllers (sendSSEEvent event reg) !! c = Some ctl).
Proof.
  split.
  - apply sendSSEEvent_registered.
  - apply sendSSEEvent_controller_closed.
Qed.

(** Tasks are isolated from one another: an event for one task changes
    the connections of no other task, and writes to (or closes) the
    stream of no controller that is not registered for its task. *)
Theorem sendSSEEvent_other_tasks_untouched (event : A2AEvent) reg :
  (forall taskId, taskId <> event_taskId event ->
      connections (sendSSEEvent event reg) !! taskId = connections reg !! taskId)
  /\ (forall c, c ∉ registered (event_taskId event) reg ->
        controllers (sendSSEEvent event reg) !! c = controllers reg !! c).
Proof.
  split.
  - intros taskId. apply sendSSEEvent_connections_other.
  - intros c. apply sendSSEEvent_controller_other.
Qed.

Lemma abort_registered (taskId : string) c reg c' :
  c' ∈ registered taskId (abort taskId c reg)
  <-> c' ∈ registered taskId reg /\ c' <> c.
Proof.
  unfold registered, abort.
  destruct (connections reg !! taskId) as [tc|] eqn:Hconn; cbn [connections].
  - destruct (decide (size (tc ∖ {[c]}) = 0)) as [Hsize|Hsize].
    + rewrite lookup_delete_eq. simpl. apply size_empty_iff in Hsize.
      rewrite elem_of_empty. split; [done|]. intros [Hin Hne].
      apply (elem_of_empty (C := gset nat) c'), (Hsize c').
      rewrite elem_of_difference, elem_of_singleton. done.
    + rewrite lookup_insert_eq. simpl.
      by rewrite elem_of_difference, elem_of_singleton.
  - rewrite Hconn. simpl. rewrite elem_of_empty. tauto.
Qed.

(** When the client goes away the connection is unregistered, and only
    that one: the other connections of the task and the connections of
    other tasks stay, no stream is touched, and an event sent for the
    task afterwards is not written to the stream of the connection. *)
Theorem abort_unregisters (taskId : string) c reg :
  (forall c', c' ∈ registered taskId (abort taskId c reg)
              <-> c' ∈ registered taskId reg /\ c' <> c)
  /\ (forall other, other <> taskId ->
        connections (abort taskId c reg) !! other = connections reg !! other)
  /\ controllers (abort taskId c reg) = controllers reg
  /\ (forall event, event_taskId event = taskId ->
        controllers (sendSSEEvent event (abort taskId c reg)) !! c =
        controllers reg !! c).
Proof.
  assert (forall other, other <> taskId ->
            connections (abort taskId c reg) !! other = connections reg !! other)
    as Hother.
  { intros other Hne. unfold abort.
    destruct (connections reg !! taskId) as [tc|]; [|done]. cbn [connections].
    destruct (decide (size (tc ∖ {[c]}) = 0));
      by rewrite ?lookup_delete_ne, ?lookup_insert_ne by done. }
  assert (controllers (abort taskId c reg) = controllers reg) as Hctls.
  { unfold abort. by destruct (connections reg !! taskId). }
  split; [apply abort_registered|]. split; [exact Hother|]. split; [exact Hctls|].
  intros event <-. rewrite sendSSEEvent_controller_other; [by rewrite Hctls|].
  rewrite abort_registered. tauto.
Qed.

(** [closeTaskConnections] ends the streams of a task: every connection
    registered for the task has its stream closed, with what was written
    to it kept; no other stream is touched; the task has no connection
    left, so that an event sent for it afterwards changes nothing; the
    connections of other tasks stay. *)
Theorem closeTaskConnections_closes_all (taskId : string) reg :
  let reg' := closeTaskConnections taskId reg in
  getActiveConnections taskId reg' = 0
  /\ (forall c ctl, c ∈ registered taskId reg -> controllers reg !! c = Some ctl ->
        controllers reg' !! c = Some (mkController (enqueued ctl) true))
  /\ (forall c, c ∉ registered taskId reg -> controllers reg' !! c = controllers reg !! c)
  /\ (forall other, other <> taskId ->
        connections reg' !! other = connections reg !! other)
  /\ (forall event, event_taskId event = taskId -> sendSSEEvent event reg' = reg').
Proof.
  intros reg'. unfold reg', closeTaskConnections, registered, getActiveConnections.
  destruct (connections reg !! taskId) as [tc|] eqn:Hconn; cbn [connections controllers].
  - rewrite lookup_delete_eq. simpl. split; [done|]. split; [|split; [|split]].
    + intros c ctl Hin Hctl.
      apply close_fold_visited; [apply NoDup_elements|by apply elem_of_elements|done].
    + intros c Hnotin. apply close_fold_other. by rewrite elem_of_elements.
    + intros other Hne. by rewrite lookup_delete_ne.
    + intros event <-. apply sendSSEEvent_unregistered. cbn [connections].
      by rewrite lookup_delete_eq.
  - rewrite Hconn. simpl. split; [done|]. split; [|split; [done|split; [done|]]].
    + intros c ctl Hin. by apply elem_of_empty in Hin.
    + intros event <-. by apply sendSSEEvent_unregistered.
Qed.

Lemma no_empty_entry_insert (taskId : string) (tc : gset nat) reg ctls :
  tc <> ∅ -> no_empty_entry reg ->
  no_empty_entry (mkRegistry (<[taskId := tc]> (connections reg)) ctls).
Proof.
  intros Hne Hinv other. cbn [connections].
  destruct (decide (other = taskId)) as [->|Hother].
  - rewrite lookup_insert_eq. congruence.
  - rewrite lookup_insert_ne by done. apply Hinv.
Qed.

Lemma no_empty_entry_delete (taskId : string) reg ctls :
  no_empty_entry reg ->
  no_empty_entry (mkRegistry (delete taskId (connections reg)) ctls).
Proof.
  intros Hinv other. cbn [connections].
  destruct (decide (other = taskId)) as [->|Hother].
  - by rewrite lookup_delete_eq.
  - rewrite lookup_delete_ne by done. apply Hinv.
Qed.

Lemma size_zero_empty (X : gset nat) : size X <> 0 -> X <> ∅.
Proof. intros Hsize ->. by rewrite size_empty in Hsize. Qed.

Lemma sendSSEEvent_no_empty_entry (event : A2AEvent) reg :
  no_empty_entry reg -> no_empty_entry (sendSSEEvent event reg).
Proof.
  intros Hinv. unfold sendSSEEvent.
  destruct (connections reg !! event_taskId event) as [tc|]; [|done].
  destruct (decide (size tc = 0)); [done|].
  destruct (foldl _ _ _) as [tc' ctls'].
  destruct (decide (size tc' = 0)) as [Hsize|Hsize],
    (decide (event_kind event = ARTIFACT_UPDATE)).
  - by apply (no_empty_entry_delete _ (mkRegistry _ ctls') _), no_empty_entry_delete.
  - by apply no_empty_entry_delete.
  - apply (no_empty_entry_delete _ (mkRegistry _ ctls') _).
    apply no_empty_entry_insert; [by apply size_zero_empty|done].
  - apply no_empty_entry_insert; [by apply size_zero_empty|done].
Qed.

(** The registry keeps no task without a connection: the empty registry
    has none, and sending an event, a client going away and closing the
    connections of a task leave none behind, so that
    [getActiveConnections] is 0 exactly for the tasks the registry does
    not know. *)
Theorem registry_keeps_no_empty_entry :
  no_empty_entry empty
  /\ (forall event reg, no_empty_entry reg -> no_empty_entry (sendSSEEvent event reg))
  /\ (forall taskId c reg, no_empty_entry reg -> no_empty_entry (abort taskId c reg))
  /\ (forall taskId reg,
        no_empty_entry reg -> no_empty_entry (closeTaskConnections taskId reg))
  /\ (forall taskId reg, no_empty_entry reg ->
        (getActiveConnections taskId reg = 0 <-> connections reg !! taskId = None)).
Proof.
  split; [|split; [|split; [|split]]].
  - intros taskId. unfold empty. cbn [connections]. by rewrite lookup_empty.
  - apply sendSSEEvent_no_empty_entry.
  - intros taskId c reg Hinv. unfold abort.
    destruct (connections reg !! taskId) as [tc|]; [|done].
    destruct (decide (size (tc ∖ {[c]}) = 0)).
    + by apply no_empty_entry_delete.
    + apply no_empty_entry_insert; [by apply size_zero_empty|done].
  - intros taskId reg Hinv. unfold closeTaskConnections.
    destruct (connections reg !! taskId) as [tc|]; [|done].
    by apply no_empty_entry_delete.
  - intros taskId reg Hinv. unfold getActiveConnections. specialize (Hinv taskId).
    destruct (connections reg !! taskId) as [tc|]; simpl; [|done].
    split; [|done]. intros Hsize. apply size_empty_iff in Hsize.
    apply leibniz_equiv in Hsize. congruence.
Qed.

End sse_registry.

Section sse_observer.
Import SSE SSESpec.
Context {S : Type} `{!StorageAdapter S}.

Implicit Types (c : nat) (reg : Registry).

(** A status-update is written, once, to every open stream registered
    for its task, and the stream stays open. *)
Lemma sendSSEEvent_status_open (event : A2AEvent) reg c (ctl : Controller) :
  event_kind event = STATUS_UPDATE ->
  c ∈ registered (event_taskId event) reg ->
  controllers reg !! c = Some ctl -> closed ctl = false ->
  controllers (sendSSEEvent event reg) !! c =
    Some (mkController (enqueued ctl ++ [encodeMessage event]) false).
Proof.
  intros Hkind Hin Hctl Hopen. unfold registered in Hin. unfold sendSSEEvent.
  destruct (connections reg !! event_taskId event) as [tc|];
    [|by apply elem_of_empty in Hin].
  simpl in Hin. rewrite decide_False by by apply (size_nonzero_elem _ c).
  destruct (enqueue_fold_open (encodeMessage event) (elements tc)
              (tc, controllers reg) c ctl) as [Hsent _];
    [apply NoDup_elements|by apply elem_of_elements|done|done|].
  destruct (foldl _ _ _) as [tc' ctls']. simpl in Hsent.
  rewrite Hkind. by rewrite (decide_False (P := STATUS_UPDATE = ARTIFACT_UPDATE)).
Qed.

(** The registry after the handler has run, whatever the storage did
    with the status. *)
Lemma createSSEHandler_channel (taskId : string) (contextId : option string)
    (uuid uuid' now now' : string) (w : Core.World S Registry) :
  taskId <> "" ->
  let reg := Core.channel w in
  let c := fresh (dom (controllers reg)) in
  let event :=
    StatusUpdate taskId (default "" (js_or contextId (Some uuid)))
      (TaskStatus.mk working (Some (connection_message uuid')) (Some now)) false in
  let result :=
    createSSEHandler createSSEEventSender (mkRequest (Some taskId) contextId)
      uuid uuid' now now' w in
  result.1 = EventStream c
  /\ Core.channel result.2 =
     sendSSEEvent event
       (mkRegistry (<[taskId := registered taskId reg ∪ {[c]}]> (connections reg))
                   (<[c := mkController [] false]> (controllers reg))).
Proof.
  intros Hne reg c event result. unfold result, createSSEHandler.
  cbn [query_taskId query_contextId]. rewrite truthy_Some by done. cbn [negb].
  change (default "" (Some taskId)) with taskId.
  unfold Core.updateStatus, Core.bind, Core.send, Core.storage_write,
    createSSEEventSender.
  cbn [Core.channel Core.storage].
  destruct (Core.storage w) as [st|]; [|done].
  by destruct (Storage.updateTaskStatus _ _ _).
Qed.

(** Opening the event stream of a task.  Without a [taskId], or with an
    empty one, the handler answers 400 and nothing happens.  Otherwise
    it answers with a new stream, registered for the task, and the
    status-update "SSE connection established" it sends through the
    instance is the first frame on that stream; the open streams
    already registered for the task get the same frame.  This does not
    depend on what the storage adapter does with the status: the stream
    is opened also when the write is refused. *)
Theorem createSSEHandler_registers_observer (request : Request)
    (uuid uuid' now now' : string) (w : Core.World S Registry) :
  let result := createSSEHandler createSSEEventSender request uuid uuid' now now' w in
  let reg := Core.channel w in
  let reg' := Core.channel result.2 in
  (truthy (query_taskId request) = false ->
     result = (BadRequest "Missing taskId parameter", w))
  /\ (forall taskId, query_taskId request = Some taskId -> taskId <> "" ->
        let frame :=
          encodeMessage
            (StatusUpdate taskId (default "" (js_or (query_contextId request) (Some uuid)))
               (TaskStatus.mk working (Some (connection_message uuid')) (Some now))
               false) in
        exists c,
          result.1 = EventStream c
          /\ controllers reg !! c = None
          /\ c ∈ registered taskId reg'
          /\ controllers reg' !! c = Some (mkController [frame] false)
          /\ forall c0 ctl,
               c0 ∈ registered taskId reg -> controllers reg !! c0 = Some ctl ->
               closed ctl = false ->
               c0 ∈ registered taskId reg'
               /\ controllers reg' !! c0 =
                    Some (mkController (enqueued ctl ++ [frame]) false)).
Proof.
  intros result reg reg'. split.
  - intros Hfalsy. unfold result, createSSEHandler. by rewrite Hfalsy.
  - intros taskId Htask Hne frame.
    destruct request as [query_task query_context]. cbn [query_taskId] in Htask.
    subst query_task. cbn [query_contextId] in *.
    destruct (createSSEHandler_channel taskId query_context uuid uuid' now now' w Hne)
      as [Hresp Hchan].
    fold result reg in Hresp, Hchan. fold reg' in Hchan.
    set (c := fresh (dom (controllers reg))) in *.
    set (event := StatusUpdate _ _ _ _) in *.
    set (reg1 := mkRegistry _ _) in Hchan.
    assert (controllers reg !! c = None) as Hfresh.
    { apply not_elem_of_dom. apply is_fresh. }
    assert (forall c1, c1 ∈ registered taskId reg1
                       <-> c1 ∈ registered taskId reg \/ c1 = c) as Hreg1.
    { intros c1. unfold registered at 1, reg1. cbn [connections].
      rewrite lookup_insert_eq. simpl.
      by rewrite elem_of_union, elem_of_singleton. }
    exists c. split; [exact Hresp|]. split; [exact Hfresh|].
    assert (forall c1 ctl,
              c1 ∈ registered taskId reg1 -> controllers reg1 !! c1 = Some ctl ->
              closed ctl = false ->
              c1 ∈ registered taskId reg'
              /\ controllers reg' !! c1 =
                   Some (mkController (enqueued ctl ++ [frame]) false)) as Hsent.
    { intros c1 ctl Hin Hctl Hopen. rewrite Hchan. split.
      - apply (sendSSEEvent_registered event reg1 c1).
        split; [done|]. split; [exact Hin|]. by exists ctl.
      - by apply (sendSSEEvent_status_open event reg1 c1 ctl). }
    split; [|split].
    + apply (Hsent c (mkController [] false)); [apply Hreg1; by right| |done].
      unfold reg1. cbn [controllers]. by rewrite lookup_insert_eq.
    + apply (Hsent c (mkController [] false)); [apply Hreg1; by right| |done].
      unfold reg1. cbn [controllers]. by rewrite lookup_insert_eq.
    + intros c0 ctl Hin Hctl Hopen.
      apply Hsent; [apply Hreg1; by left| |done].
      unfold reg1. cbn [controllers]. rewrite lookup_insert_ne; [done|].
      intros <-. congruence.
Qed.

End sse_observer.

(** * Further properties of the schemas *)

Section zod_objects.
Import Zod ZodSpec.

Lemma parse_shape_keys (shape : Shape) (input out : Fields) :
  parse_shape shape input = Some out ->
  out.*1 = filter (fun k => is_Some (obj_get k input)) shape.*1.
Proof.
  revert out. induction shape as [|[k f] rest IH]; intros out Hparse; simpl in *.
  - by injection Hparse as <-.
  - rewrite filter_cons. simpl.
    destruct (obj_get k input) as [v|] eqn:Hk.
    + rewrite decide_True by done.
      assert (exists s, field_schema f = s
                /\ match s v with
                   | Some v' =>
                       match parse_shape rest input with
                       | Some out => Some ((k, v') :: out)
                       | None => None
                       end
                   | None => None
                   end = Some out) as (s & _ & Hs) by (destruct f; eauto).
      destruct (s v) as [v'|]; [|done].
      destruct (parse_shape rest input) as [out0|]; [|done].
      injection Hs as <-. simpl. f_equal. by apply IH.
    + rewrite decide_False by by intros [? [=]].
      destruct f; [done|]. by apply IH.
Qed.

(** [z.object] strips what it does not know: the keys of a parsed
    object are the keys of the shape that the input has, in the order of
    the shape. *)
Lemma object_keeps_keys_of (shape : Shape) (v v' : Json) :
  object shape v = Some v' ->
  exists input out,
    v = JObj input /\ v' = JObj out
    /\ out.*1 = filter (fun k => is_Some (obj_get k input)) shape.*1.
Proof.
  unfold object. destruct v as [| | | | |input]; try done.
  destruct (parse_shape shape input) as [out|] eqn:Hparse; [|done].
  intros [= <-]. exists input, out. split; [done|]. split; [done|].
  by apply parse_shape_keys.
Qed.

Lemma parse_shape_other (shape : Shape) (k : string) (v : Json) (input : Fields) :
  k ∉ shape.*1 -> parse_shape shape ((k, v) :: input) = parse_shape shape input.
Proof.
  induction shape as [|[k' f] rest IH]; intros Hnotin; [done|].
  apply not_elem_of_cons in Hnotin as [Hne Hnotin]. simpl in *.
  rewrite decide_False by done. by rewrite IH.
Qed.

Lemma obj_get_None (k : string) (fields : Fields) :
  k ∉ fields.*1 -> obj_get k fields = None.
Proof.
  induction fields as [|[k' v] rest IH]; intros Hnotin; [done|].
  apply not_elem_of_cons in Hnotin as [Hne Hnotin]. simpl in *.
  rewrite decide_False by done. by apply IH.
Qed.

Lemma parse_shape_stable (shape : Shape) (input out : Fields) :
  NoDup shape.*1 ->
  Forall (fun kf => stable (field_schema kf.2)) shape ->
  parse_shape shape input = Some out -> parse_shape shape out = Some out.
Proof.
  revert out. induction shape as [|[k f] rest IH]; intros out Hnd Hstable Hparse.
  - simpl in *. by injection Hparse as <-.
  - apply NoDup_cons in Hnd as [Hk Hnd]. apply Forall_cons in Hstable as [Hf Hstable].
    simpl in Hparse, Hf, Hk |- *.
    destruct (obj_get k input) as [v|] eqn:Hget.
    + assert (exists v' out0, field_schema f v = Some v'
                /\ parse_shape rest input = Some out0 /\ out = (k, v') :: out0)
        as (v' & out0 & Hv & Hrest & ->).
      { destruct f; simpl; destruct (s v) as [v'|]; try done;
          destruct (parse_shape rest input) as [out0|]; try done;
          injection Hparse as <-; eauto. }
      simpl. rewrite decide_True by done.
      rewrite parse_shape_other by done. rewrite (IH out0) by done.
      apply Hf in Hv. destruct f; simpl in Hv; by rewrite Hv.
    + destruct f; [done|].
      assert (obj_get k out = None) as ->.
      { apply obj_get_None. rewrite (parse_shape_keys _ _ _ Hparse).
        intros Hin. apply list_elem_of_filter in Hin as [_ Hin]. done. }
      by apply IH.
Qed.

Lemma object_stable (shape : Shape) :
  NoDup shape.*1 ->
  Forall (fun kf => stable (field_schema kf.2)) shape ->
  stable (object shape).
Proof.
  intros Hnd Hstable v v'. unfold object.
  destruct v as [| | | | |input]; try done.
  destruct (parse_shape shape input) as [out|] eqn:Hparse; [|done].
  intros [= <-]. simpl. by rewrite (parse_shape_stable shape input out).
Qed.

Lemma string_stable : stable string_.
Proof. intros v v'. unfold string_. destruct v; try done. by intros [= <-]. Qed.

Lemma literal_stable (l : string) : stable (literal l).
Proof.
  intros v v'. unfold literal. destruct v as [| | |s| |]; try done.
  destruct (decide (s = l)) as [->|]; [|done]. intros [= <-]. by rewrite decide_True.
Qed.

Lemma any_stable : stable any.
Proof. by intros v v' [= <-]. Qed.

Lemma record_unknown_stable : stable record_unknown.
Proof. intros v v'. unfold record_unknown. destruct v; try done. by intros [= <-]. Qed.

Lemma string_url_stable (is_url : string -> bool) : stable (string_url is_url).
Proof.
  intros v v'. unfold string_url. destruct v as [| | |s| |]; try done.
  destruct (is_url s) eqn:Hurl; [|done]. intros [= <-]. by rewrite Hurl.
Qed.

(** A required key that the input does not have fails the object. *)
Lemma parse_shape_missing (shape : Shape) (k : string) (s : Schema) (input : Fields) :
  (k, required s) ∈ shape -> obj_get k input = None -> parse_shape shape input = None.
Proof.
  induction shape as [|[k' f] rest IH]; intros Hin Hget.
  - by apply elem_of_nil in Hin.
  - apply elem_of_cons in Hin as [[= <- <-]|Hin]; simpl.
    + by rewrite Hget.
    + rewrite (IH Hin Hget).
      destruct (obj_get k' input) as [v|]; [|by destruct f].
      by destruct f as [s'|s']; destruct (s' v).
Qed.

End zod_objects.

Section part_schema.
Import Zod ZodSpec.
Variable is_url : string -> bool.

Ltac shape_ok :=
  repeat first [apply Forall_cons; split | apply List.Forall_nil
               | apply string_stable | apply literal_stable | apply any_stable
               | apply record_unknown_stable | apply string_url_stable ].

Lemma FileSchema_stable : stable (FileSchema is_url).
Proof.
  intros v v'. unfold FileSchema. cbn [union].
  destruct (object (extend FileBaseSchema [("bytes", required string_)]) v)
    as [out|] eqn:Hbytes.
  - intros [= <-]. apply object_stable in Hbytes; [by rewrite Hbytes| |].
    + simpl. repeat constructor; set_solver.
    + simpl. shape_ok.
  - destruct (object (extend FileBaseSchema [("uri", required (string_url is_url))]) v)
      as [out|] eqn:Huri; [|done].
    intros [= <-].
    destruct (object_keeps_keys_of _ _ _ Huri) as (input & fields & -> & -> & Hkeys).
    assert (object (extend FileBaseSchema [("bytes", required string_)]) (JObj fields)
            = None) as ->.
    { unfold object.
      rewrite (parse_shape_missing _ "bytes" string_); [done|set_solver|].
      apply obj_get_None. rewrite Hkeys. intros Hin.
      apply list_elem_of_filter in Hin as [_ Hin]. simpl in Hin. set_solver. }
    apply object_stable in Huri; [by rewrite Huri| |].
    + simpl. repeat constructor; set_solver.
    + simpl. shape_ok.
Qed.

(** The discriminator of a parsed object is the first property. *)
Lemma object_kind (l : string) (rest : Shape) (v v' : Json) :
  object (("kind", required (literal l)) :: rest) v = Some v' ->
  exists out, v' = JObj (("kind", JStr l) :: out).
Proof.
  unfold object. destruct v as [| | | | |input]; try done. simpl.
  destruct (obj_get "kind" input) as [[| | |k| |]|]; try done. simpl.
  destruct (decide (k = l)) as [->|]; [|done].
  destruct (parse_shape rest input) as [out|]; [|done].
  intros [= <-]. eauto.
Qed.

(** A parsed part carries the properties of its kind and nothing else:
    [kind], then [text], [file] or [data], then [metadata] if the input
    has it; whatever else the input carries is gone. *)
Theorem PartSchema_strips_unknown_keys (v v' : Json) :
  PartSchema is_url v = Some v' ->
  exists input out kind,
    v = JObj input /\ v' = JObj out
    /\ obj_get "kind" input = Some (JStr kind)
    /\ kind ∈ ["text"; "file"; "data"]
    /\ out.*1 = filter (fun k => is_Some (obj_get k input)) ["kind"; kind; "metadata"].
Proof.
  unfold PartSchema. destruct v as [| | | | |input]; try done.
  destruct (obj_get "kind" input) as [[| | |k| |]|] eqn:Hk; try done.
  destruct (decide (k = "text")) as [->|Htext];
    [|destruct (decide (k = "file")) as [->|Hfile];
      [|destruct (decide (k = "data")) as [->|Hdata]; [|done]]];
    intros Hparse; unfold TextPartSchema, FilePartSchema, DataPartSchema in *;
    apply object_keeps_keys_of in Hparse as (input' & out & [= <-] & -> & Hkeys);
    eexists input, out, _; (split; [done|]); (split; [done|]); (split; [exact Hk|]);
    (split; [set_solver|exact Hkeys]).
Qed.

(** Parsing normalises a part: what [PartSchema] returns, it accepts
    again and returns unchanged.  (The unknown keys are gone after the
    first parse; a file with both [bytes] and [uri] has lost its [uri].) *)
Theorem PartSchema_stable (v v' : Json) :
  PartSchema is_url v = Some v' -> PartSchema is_url v' = Some v'.
Proof.
  unfold PartSchema. destruct v as [| | | | |input]; try done.
  destruct (obj_get "kind" input) as [[| | |k| |]|]; try done.
  destruct (decide (k = "text")) as [->|Htext];
    [|destruct (decide (k = "file")) as [->|Hfile];
      [|destruct (decide (k = "data")) as [->|Hdata]; [|done]]];
    intros Hparse; unfold TextPartSchema, FilePartSchema, DataPartSchema in *;
    pose proof Hparse as Hkind; apply object_kind in Hkind as [out ->];
    cbn [obj_get]; rewrite (decide_True (P := "kind" = "kind")) by done;
    simpl decide; cbv iota;
    (eapply object_stable; [| |exact Hparse]);
    [simpl; repeat constructor; set_solver|simpl; shape_ok
    |simpl; repeat constructor; set_solver|simpl; shape_ok; apply FileSchema_stable
    |simpl; repeat constructor; set_solver|simpl; shape_ok].
Qed.

End part_schema.

Lemma PartSchema_stable_witness :
  Zod.PartSchema (fun _ => true)
    (JObj [("kind", JStr "file");
           ("file", JObj [("mimeType", JStr "text/plain"); ("bytes", JStr "aGk=")])]) =
  Some (JObj [("kind", JStr "file");
              ("file", JObj [("mimeType", JStr "text/plain"); ("bytes", JStr "aGk=")])]).
Proof.
  apply (PartSchema_stable (fun _ => true)
           (JObj [("id", JNum 7); ("kind", JStr "file");
                  ("file", JObj [("uri", JStr "https://example.org/a");
                                 ("bytes", JStr "aGk=");
                                 ("mimeType", JStr "text/plain")])])).
  reflexivity.
Defined.

Lemma PartSchema_strips_unknown_keys_witness :
  exists input out kind,
    JObj [("id", JNum 7); ("kind", JStr "text"); ("text", JStr "hi")] = JObj input
    /\ JObj [("kind", JStr "text"); ("text", JStr "hi")] = JObj out
    /\ obj_get "kind" input = Some (JStr kind)
    /\ kind ∈ ["text"; "file"; "data"]
    /\ out.*1 = filter (fun k => is_Some (obj_get k input)) ["kind"; kind; "metadata"].
Proof.
  apply (PartSchema_strips_unknown_keys (fun _ => true)
           (JObj [("id", JNum 7); ("kind", JStr "text"); ("text", JStr "hi")])
           (JObj [("kind", JStr "text"); ("text", JStr "hi")])).
  reflexivity.
Defined.

(** * Properties of the JSON-RPC endpoint *)

Section request_schema.
Import Zod HandlerSpec.
Variable is_url : string -> bool.

Lemma rpc_id_union (id : Json) :
  rpc_id id -> union [string_; number; null_] id = Some id.
Proof. by destruct id. Qed.

(** A body that has no [method] among the five is not a request. *)
Lemma JSONRPCRequestSchema_method (body rpcRequest : Json) :
  JSONRPCRequestSchema is_url body = Some rpcRequest ->
  exists input method,
    body = JObj input /\ obj_get "method" input = Some (JStr method)
    /\ method ∈ methods.
Proof.
  unfold JSONRPCRequestSchema, discriminatedUnion.
  destruct body as [| | | | |input]; try done.
  destruct (obj_get "method" input) as [[| | |d| |]|] eqn:Hmethod; try done.
  intros Hparse. exists input, d. split; [done|]. split; [done|].
  unfold methods. cbn [option_for request_of fst] in Hparse.
  repeat (case_decide; [subst; set_solver|]). done.
Qed.

(** What the schema makes of a body with the envelope of a request:
    envelope and [params] are parsed, whatever else the body has is
    dropped. *)
Lemma JSONRPCRequestSchema_envelope (input : Fields) (id : Json) (method : string)
    (params : Json) :
  envelope input id method params ->
  JSONRPCRequestSchema is_url (JObj input) =
  match params_schema is_url method with
  | Some schema => parsed id method <$> schema params
  | None => None
  end.
Proof.
  intros (Hrpc & Hid & Hvalid & Hmethod & Hparams).
  unfold JSONRPCRequestSchema, discriminatedUnion, params_schema. rewrite Hmethod.
  cbn [option_for request_of fst snd].
  repeat
    match goal with
    | |- context [decide (method = ?m)] =>
        destruct (decide (method = m)) as [->|?];
        [rewrite (decide_True (P := m = m)) by done;
         unfold object, extend, JSONRPCRequestBaseSchema;
         cbn [app parse_shape]; rewrite Hrpc, Hid, Hmethod, Hparams;
         cbn [literal]; rewrite !decide_True by done;
         rewrite (rpc_id_union id Hvalid);
         match goal with |- context [?s params] => destruct (s params) end; done
        |rewrite (decide_False (P := m = method)) by congruence]
    end.
  done.
Qed.

(** Conversely, what the schema accepts has the envelope of a request,
    with a method among the five and [params] that pass the schema of
    the method. *)
Lemma JSONRPCRequestSchema_inv (body rpcRequest : Json) :
  JSONRPCRequestSchema is_url body = Some rpcRequest ->
  exists input id method params schema params',
    body = JObj input /\ envelope input id method params
    /\ method ∈ methods
    /\ params_schema is_url method = Some schema /\ schema params = Some params'
    /\ rpcRequest = parsed id method params'.
Proof.
  intros Hparse.
  destruct (JSONRPCRequestSchema_method _ _ Hparse) as (input & method & -> & Hm & Hin).
  unfold JSONRPCRequestSchema, discriminatedUnion in Hparse. rewrite Hm in Hparse.
  destruct (option_for method _) as [shape|] eqn:Hshape; [|done].
  assert (exists schema, params_schema is_url method = Some schema
            /\ shape = extend JSONRPCRequestBaseSchema
                         [("method", required (literal method));
                          ("params", required schema)]) as (schema & Hschema & ->).
  { unfold methods in Hin. unfold params_schema.
    cbn [option_for request_of fst snd] in Hshape.
    repeat (apply elem_of_cons in Hin as [->|Hin];
            [vm_compute in Hshape; injection Hshape as <-; eexists; split; reflexivity|]).
    by apply elem_of_nil in Hin. }
  unfold object, extend, JSONRPCRequestBaseSchema in Hparse.
  cbn [app parse_shape] in Hparse. rewrite Hm in Hparse.
  destruct (obj_get "jsonrpc" input) as [rpc|] eqn:Hrpc; [|done].
  destruct (literal "2.0" rpc) as [rpc'|] eqn:Hlit; [|done].
  destruct (obj_get "id" input) as [id|] eqn:Hid; [|done].
  destruct (union [string_; number; null_] id) as [id'|] eqn:Hunion; [|done].
  cbn [literal] in Hparse. rewrite decide_True in Hparse by done.
  destruct (obj_get "params" input) as [params|] eqn:Hparams; [|done].
  destruct (schema params) as [params'|] eqn:Hp; [|done].
  simpl in Hparse. injection Hparse as <-.
  assert (rpc = JStr "2.0" /\ rpc' = JStr "2.0") as [-> ->].
  { unfold literal in Hlit. destruct rpc as [| | |s0| |]; try done.
    destruct (decide (s0 = "2.0")) as [->|]; [|done]. by injection Hlit as <-. }
  assert (rpc_id id /\ id' = id) as [Hvalid ->].
  { destruct id; try done; simpl in Hunion; by injection Hunion as <-. }
  exists input, id, method, params, schema, params'.
  repeat split; done.
Qed.

End request_schema.

Section handler_props.
Import Zod Zod.JSONRPCErrorCode Handler HandlerSpec.
Context {S E : Type} `{!StorageAdapter S}.
Variable executors : gmap string (Core.Executor S E).
Variable eventSender : A2AEvent -> E -> Res E.
Variable is_url : string -> bool.
Variable zodMessage : string.
Variable asMessage : Json -> Message.t.

Local Abbreviation POST :=
  (handlePostRequest executors eventSender is_url zodMessage asMessage).

Implicit Types (w : Core.World S E) (id params : Json) (input : Fields).

Lemma prop_parsed id (method : string) params :
  prop "id" (parsed id method params) = Some id
  /\ string_prop "method" (parsed id method params) = Some method
  /\ prop "params" (parsed id method params) = Some params.
Proof. done. Qed.

(** The answer to a request the schema has accepted. *)
Lemma handlePostRequest_accepted (body : Json) id (method : string) params
    (uuid uuid' now now' : string) w :
  JSONRPCRequestSchema is_url body = Some (parsed id method params) ->
  POST (Some body) uuid uuid' now now' w =
  if decide (method = "message/send") then
    match handleMessageSend executors zodMessage id
            (asMessage (default JNull (prop "message" params)))
            ((fun context =>
                mkContext (string_prop "taskId" context)
                          (string_prop "contextId" context))
             <$> prop "context" params) uuid uuid' now now' w with
    | (Ok response, w) => (response, w)
    | (Err e, w) =>
        (ErrorResponse id INTERNAL_ERROR "Internal server error"
           (Some (MessageOf (Raised e))), w)
    end
  else if decide (method = "tasks/get") then
    handleTasksGet id (default "" (string_prop "taskId" params)) w
  else if decide (method = "tasks/cancel") then
    handleTasksCancel eventSender id (default "" (string_prop "taskId" params))
      (default "" (string_prop "contextId" params))
      (string_prop "reason" params) uuid now now' w
  else if decide (method = "tasks/setPushNotificationConfig"
                  \/ method = "tasks/getPushNotificationConfig") then
    (ErrorResponse id METHOD_NOT_FOUND ("Method " +:+ method +:+ " not implemented")
       None, w)
  else (ErrorResponse id METHOD_NOT_FOUND "Unknown method" None, w).
Proof.
  intros Hparse. unfold handlePostRequest. rewrite Hparse.
  destruct (prop_parsed id method params) as (-> & -> & ->). done.
Qed.

(** Requests that are answered without the instance.  A body that is
    not JSON, and the body [null], are answered with -32603 (internal
    error) and the id [null], not with a parse error.  A body without
    one of the five methods is answered with -32600 (invalid request),
    also when its method is merely unknown, and with whatever the body
    has as its [id].  The two push-notification methods pass validation
    and are answered with -32601 (method not found).  In all these cases
    nothing is stored and nothing is sent. *)
Theorem handlePostRequest_answers_without_instance (uuid uuid' now now' : string) w :
  POST None uuid uuid' now now' w =
    (ErrorResponse JNull INTERNAL_ERROR "Internal server error"
       (Some (MessageOf SyntaxError)), w)
  /\ POST (Some JNull) uuid uuid' now now' w =
       (ErrorResponse JNull INTERNAL_ERROR "Internal server error"
          (Some (MessageOf TypeError)), w)
  /\ (forall input,
        (forall method, method ∈ methods ->
                        obj_get "method" input <> Some (JStr method)) ->
        POST (Some (JObj input)) uuid uuid' now now' w =
          (ErrorResponse (default JNull (obj_get "id" input)) INVALID_REQUEST
             "Invalid request format" (Some Format), w))
  /\ (forall input id method params params',
        envelope input id method params ->
        method = "tasks/setPushNotificationConfig"
        \/ method = "tasks/getPushNotificationConfig" ->
        params_schema is_url method ≫= (fun schema => schema params) = Some params' ->
        POST (Some (JObj input)) uuid uuid' now now' w =
          (ErrorResponse id METHOD_NOT_FOUND
             ("Method " +:+ method +:+ " not implemented") None, w)).
Proof.
  split; [done|]. split; [done|]. split.
  - intros input Hmethod. unfold handlePostRequest.
    destruct (JSONRPCRequestSchema is_url (JObj input)) as [rpcRequest|] eqn:Hparse;
      [|done].
    apply JSONRPCRequestSchema_method in Hparse
      as (input' & method & [= <-] & Hm & Hin).
    by destruct (Hmethod method Hin).
  - intros input id method params params' Henv Hpush Hparams.
    assert (JSONRPCRequestSchema is_url (JObj input) = Some (parsed id method params'))
      as Hparse.
    { rewrite (JSONRPCRequestSchema_envelope is_url input id method params Henv).
      destruct (params_schema is_url method) as [schema|]; [|done].
      simpl in Hparams. by rewrite Hparams. }
    rewrite (handlePostRequest_accepted _ _ _ _ _ _ _ _ _ Hparse).
    by destruct Hpush as [-> | ->].
Qed.

(** The codes of the answers.  Whatever the body, the instance and the
    storage, an error answer has one of the codes -32600, -32601,
    -32603, -32002 and -32003: the handler never answers with a parse
    error (-32700), invalid params (-32602) or task not found (-32001),
    and never with "Unknown method". *)
Theorem handlePostRequest_codes (body : option Json) (uuid uuid' now now' : string) w :
  match (POST body uuid uuid' now now' w).1 with
  | SuccessResponse _ _ => True
  | ErrorResponse _ code message _ =>
      code ∈ [INVALID_REQUEST; METHOD_NOT_FOUND; INTERNAL_ERROR;
              EXECUTOR_NOT_FOUND; STORAGE_ERROR]
      /\ message <> "Unknown method"
  end.
Proof.
  destruct body as [body|]; [|split; [set_solver|done]].
  destruct (JSONRPCRequestSchema is_url body) as [rpcRequest|] eqn:Hparse.
  - destruct (JSONRPCRequestSchema_inv is_url _ _ Hparse)
      as (input & id & method & params & schema & params' & -> & _ & Hin & _ & _ & ->).
    rewrite (handlePostRequest_accepted _ _ _ _ _ _ _ _ _ Hparse).
    unfold methods in Hin.
    repeat (apply elem_of_cons in Hin as [->|Hin]; [|]); [..|by apply elem_of_nil in Hin];
      simpl decide; cbv iota.
    + unfold handleMessageSend.
      destruct (Core.execute _ _ _ _ _) as [[result|e] w']; [done|].
      destruct (includes _ _); simpl; (split; [set_solver|done]).
    + unfold handleTasksGet. destruct (Core.getTask _ _) as [[task|e] w']; [done|].
      simpl. split; [set_solver|done].
    + unfold handleTasksCancel.
      destruct (Core.cancelTask _ _ _ _ _ _ _) as [[[]|e] w']; [done|].
      simpl. split; [set_solver|done].
    + simpl. split; [set_solver|done].
    + simpl. split; [set_solver|done].
  - unfold handlePostRequest. rewrite Hparse.
    destruct body; simpl; (split; [set_solver|done]).
Qed.

(** [tasks/get] answers with the stored task, and for a task that is
    not stored, or without storage, with -32003 "Failed to retrieve
    task" (the "Task not found" of the instance is the [data]), not with
    -32001.  Nothing is stored or sent. *)
Theorem handlePostRequest_tasks_get input id (pfields : Fields) (taskId : string)
    (uuid uuid' now now' : string) w :
  envelope input id "tasks/get" (JObj pfields) ->
  obj_get "taskId" pfields = Some (JStr taskId) ->
  POST (Some (JObj input)) uuid uuid' now now' w =
  (match Core.storage w ≫= Storage.getTask taskId with
   | Some task => SuccessResponse id (GetResult task)
   | None =>
       ErrorResponse id STORAGE_ERROR "Failed to retrieve task"
         (Some (MessageOf (Raised (TaskNotFound taskId))))
   end, w).
Proof.
  intros Henv Htask.
  assert (JSONRPCRequestSchema is_url (JObj input) =
          Some (parsed id "tasks/get" (JObj [("taskId", JStr taskId)]))) as Hparse.
  { rewrite (JSONRPCRequestSchema_envelope is_url input id _ _ Henv).
    simpl. by rewrite Htask. }
  rewrite (handlePostRequest_accepted _ _ _ _ _ _ _ _ _ Hparse).
  simpl. unfold handleTasksGet, Core.getTask.
  by destruct (Core.storage w ≫= Storage.getTask taskId).
Qed.

(** What [SendMessageParamsSchema] returns: the validated message, and
    of the context at most the [taskId]. *)
Lemma SendMessageParamsSchema_inv params params' :
  SendMessageParamsSchema is_url params = Some params' ->
  exists message,
    prop "message" params' = Some message
    /\ (prop "context" params' = None
        \/ exists context,
             prop "context" params' = Some context
             /\ string_prop "contextId" context = None)
    /\ (prop "context" params' ≫= string_prop "taskId") =
       (prop "context" params ≫= string_prop "taskId").
Proof.
  unfold SendMessageParamsSchema, object.
  destruct params as [| | | | |pfields]; try done.
  cbn [parse_shape prop].
  destruct (obj_get "message" pfields) as [m|]; [|done].
  destruct (MessageSchema is_url m) as [m'|]; [|done].
  destruct (obj_get "context" pfields) as [[| | | | |cfields]|]; try done.
  - cbn [parse_shape fmap option_fmap option_map].
    destruct (obj_get "taskId" cfields) as [[| | |t| |]|] eqn:Htask; try done;
      intros [= <-]; exists m'; (split; [done|]); (split; [right; eauto|]);
      simpl; unfold string_prop; simpl; by rewrite Htask.
  - intros [= <-]. exists m'. split; [done|]. split; [by left|done].
Qed.

(** [message/send].  The validated message is executed under the
    [taskId] of [params.context], or else a generated one, and always
    under a generated [contextId]: a [contextId] in [params.context] is
    dropped by the schema, and that of the message is overridden.  On
    success the answer is a submitted task with the message as its
    history, whose [contextId] is that of the message, or "default".
    An error whose message contains "No executor found" is answered
    with -32002, any other with -32603; what the execution has stored
    or sent before the error stays.  When no executor is registered for
    an extension of the message the answer is -32002 and nothing has
    been stored or sent. *)
Theorem handlePostRequest_message_send input id params params'
    (uuid uuid' now now' : string) w :
  envelope input id "message/send" params ->
  SendMessageParamsSchema is_url params = Some params' ->
  let message := asMessage (default JNull (prop "message" params')) in
  let taskId :=
    default "" (js_or (prop "context" params ≫= string_prop "taskId") (Some uuid)) in
  POST (Some (JObj input)) uuid uuid' now now' w =
  match Core.execute executors message
          (Some (Core.mkOptions (Some taskId) (Some uuid'))) now w with
  | (Ok _, w') =>
      (SuccessResponse id
         (SendResult
            (Task.mk taskId
               (default "" (js_or (Message.contextId message) (Some "default")))
               (TaskStatus.mk submitted None (Some now')) None (Some [message])
               (Some []))
            ("/api/a2a/events?taskId=" +:+ taskId)), w')
  | (Err e, w') =>
      (if includes "No executor found" (error_message zodMessage e)
       then ErrorResponse id EXECUTOR_NOT_FOUND "No executor found for extensions"
              (Some (Extensions (Message.extensions message)))
       else ErrorResponse id INTERNAL_ERROR "Internal server error"
              (Some (MessageOf (Raised e))), w')
  end
  /\ (Core.findExecutor (default [] (Message.extensions message)) executors = None ->
      POST (Some (JObj input)) uuid uuid' now now' w =
      (ErrorResponse id EXECUTOR_NOT_FOUND "No executor found for extensions"
         (Some (Extensions (Message.extensions message))), w)).
Proof.
  intros Henv Hparams message taskId.
  match goal with |- ?lhs = ?rhs /\ _ =>
    assert (lhs = rhs) as Hrun; [|split; [exact Hrun|]] end.
  2: { intros Hfind. rewrite Hrun. unfold Core.execute. by rewrite Hfind. }
  assert (JSONRPCRequestSchema is_url (JObj input) =
          Some (parsed id "message/send" params')) as Hparse.
  { rewrite (JSONRPCRequestSchema_envelope is_url input id _ _ Henv).
    simpl. by rewrite Hparams. }
  rewrite (handlePostRequest_accepted _ _ _ _ _ _ _ _ _ Hparse).
  simpl decide. cbv iota.
  destruct (SendMessageParamsSchema_inv _ _ Hparams) as (m' & Hm & Hctx & Htask).
  unfold handleMessageSend. fold message.
  assert (forall c : option Context,
            c = (fun context =>
                   mkContext (string_prop "taskId" context)
                             (string_prop "contextId" context))
                <$> prop "context" params' ->
            default "" (js_or (c ≫= Handler.taskId) (Some uuid)) = taskId
            /\ default "" (js_or (c ≫= Handler.contextId) (Some uuid')) = uuid')
    as Hids.
  { intros c ->. unfold taskId. rewrite <- Htask.
    destruct Hctx as [->|(context & -> & Hnone)]; [done|].
    simpl. by rewrite Hnone. }
  destruct (Hids _ eq_refl) as [-> ->].
  destruct (Core.execute _ _ _ _ _) as [[result|e] w']; [done|].
  by destruct (includes _ _).
Qed.

End handler_props.

Section handler_memory.
Import Zod Zod.JSONRPCErrorCode Handler HandlerSpec.
Context {E : Type}.
Variable executors : gmap string (Core.Executor MemoryStorageAdapter.MemoryStore E).
Variable eventSender : A2AEvent -> E -> Res E.
Variable is_url : string -> bool.
Variable zodMessage : string.
Variable asMessage : Json -> Message.t.

Local Abbreviation POST :=
  (handlePostRequest executors eventSender is_url zodMessage asMessage).

(** [tasks/cancel] with the in-memory adapter.  The canceled status
    carries an agent message with the [reason], or "Task canceled" when
    the reason is absent or empty.  For a stored task, in whatever
    state, the status is replaced and the message appended to the
    history and the messages of the task; the answer is a success whose
    result has no task.  For a task that is not stored the answer is
    -32003 "Failed to cancel task", after the canceled event has been
    sent. *)
Theorem handlePostRequest_tasks_cancel (input pfields : Fields) (id : Json)
    (taskId contextId uuid uuid' now now' : string)
    (st : MemoryStorageAdapter.MemoryStore) (ch ch' : E) :
  envelope input id "tasks/cancel" (JObj pfields) ->
  obj_get "taskId" pfields = Some (JStr taskId) ->
  obj_get "contextId" pfields = Some (JStr contextId) ->
  ZodSpec.optional_string "reason" pfields ->
  let message :=
    Message.mk uuid agent
      [TextPart (default "" (js_or (string_prop "reason" (JObj pfields))
                               (Some "Task canceled"))) None]
      None None None (Some []) in
  eventSender (StatusUpdate taskId contextId
                 (TaskStatus.mk canceled (Some message) (Some now)) false) ch = Ok ch' ->
  let result := POST (Some (JObj input)) uuid uuid' now now' (Core.mkWorld (Some st) ch) in
  (Storage.getTask taskId st = None ->
     result =
       (ErrorResponse id STORAGE_ERROR "Failed to cancel task"
          (Some (MessageOf (Raised (TaskNotFound taskId)))),
        Core.mkWorld (Some st) ch'))
  /\ (forall task, Storage.getTask taskId st = Some task ->
        exists st',
          result = (SuccessResponse id CancelResult, Core.mkWorld (Some st') ch')
          /\ Storage.getTask taskId st' =
               Some (Task.set_history (default [] (Task.history task) ++ [message])
                       (Task.set_status
                          (TaskStatus.mk canceled (Some message) (Some now')) task))
          /\ Storage.getMessages taskId st' = Storage.getMessages taskId st ++ [message]).
Proof.
  intros Henv Htask Hctx Hreason message Hsend result.
  assert (exists params',
            JSONRPCRequestSchema is_url (JObj input) =
              Some (parsed id "tasks/cancel" params')
            /\ string_prop "taskId" params' = Some taskId
            /\ string_prop "contextId" params' = Some contextId
            /\ string_prop "reason" params' = string_prop "reason" (JObj pfields))
    as (params' & Hparse & Ht & Hc & Hr).
  { rewrite (JSONRPCRequestSchema_envelope is_url input id _ _ Henv).
    unfold ZodSpec.optional_string in Hreason. unfold string_prop. simpl.
    rewrite Htask, Hctx. simpl.
    destruct (obj_get "reason" pfields) as [[| | |r| |]|]; try done;
      eexists; (split; [reflexivity|done]). }
  assert (result =
          handleTasksCancel eventSender id taskId contextId
            (string_prop "reason" (JObj pfields)) uuid now now'
            (Core.mkWorld (Some st) ch)) as ->.
  { unfold result.
    rewrite (handlePostRequest_accepted executors eventSender is_url zodMessage
               asMessage _ _ _ _ _ _ _ _ _ Hparse).
    simpl decide. cbv iota. by rewrite Ht, Hc, Hr. }
  unfold handleTasksCancel. fold message. split.
  - intros Hnone.
    by rewrite (memory_cancelTask_missing eventSender taskId contextId (Some message)
                  now now' st ch ch' Hnone Hsend).
  - intros task Hstored.
    destruct (memory_updateTaskStatus_appends st taskId task canceled message
                (Some now') Hstored) as (st' & Hupd & Hget & Hmsgs).
    exists st'. split; [|by split].
    unfold Core.cancelTask, Core.bind, Core.send, Core.storage_write. simpl.
    rewrite Hsend. simpl. by rewrite Hupd.
Qed.

End handler_memory.

Lemma handlePostRequest_tasks_get_witness :
  Handler.handlePostRequest
    (∅ : gmap string (Core.Executor MemoryStorageAdapter.MemoryStore unit))
    Core.defaultEventSender (fun _ => true) "" (fun _ => Fixture.typed_message)
    (Some (Fixture.rpc (JNum 1) "tasks/get" (JObj [("taskId", JStr "t9")])))
    "uuid-0" "uuid-1" "now" "now" (Core.mkWorld (Some Fixture.store1) tt) =
  (Handler.ErrorResponse (JNum 1) (-32003) "Failed to retrieve task"
     (Some (Handler.MessageOf (Handler.Raised (TaskNotFound "t9")))),
   Core.mkWorld (Some Fixture.store1) tt).
Proof.
  refine (handlePostRequest_tasks_get ∅ Core.defaultEventSender (fun _ => true) ""
            (fun _ => Fixture.typed_message)
            [("trace", JStr "x"); ("jsonrpc", JStr "2.0"); ("id", JNum 1);
             ("method", JStr "tasks/get"); ("params", JObj [("taskId", JStr "t9")])]
            (JNum 1) [("taskId", JStr "t9")] "t9" "uuid-0" "uuid-1" "now" "now"
            (Core.mkWorld (Some Fixture.store1) tt) _ _).
  - repeat split; reflexivity.
  - reflexivity.
Defined.

Lemma handlePostRequest_message_send_witness :
  Handler.handlePostRequest
    (Core.register (Fixture.tagged "urn:a") ∅
       : gmap string (Core.Executor MemoryStorageAdapter.MemoryStore unit))
    Core.defaultEventSender (fun _ => true) "" (fun _ => Fixture.typed_message)
    (Some (Fixture.rpc (JStr "r1") "message/send"
             (JObj [("message", Fixture.wire_message);
                    ("context", JObj [("taskId", JStr "t1");
                                      ("contextId", JStr "mine")])])))
    "uuid-0" "uuid-1" "10:00" "10:01" (Core.mkWorld (Some Fixture.store1) tt) =
  (Handler.SuccessResponse (JStr "r1")
     (Handler.SendResult
        (Task.mk "t1" "mine" (TaskStatus.mk submitted None (Some "10:01")) None
           (Some [Fixture.typed_message]) (Some []))
        "/api/a2a/events?taskId=t1"),
   Core.mkWorld
     (Some (MemoryStorageAdapter.saveMessage "t1" Fixture.typed_message
              (MemoryStorageAdapter.saveTask
                 (Core.submitted_task "t1" "uuid-1" Fixture.typed_message "10:00")
                 Fixture.store1))) tt).
Proof.
  destruct (handlePostRequest_message_send
              (Core.register (Fixture.tagged "urn:a") ∅
                 : gmap string (Core.Executor MemoryStorageAdapter.MemoryStore unit))
              Core.defaultEventSender (fun _ => true) ""
              (fun _ => Fixture.typed_message)
              [("trace", JStr "x"); ("jsonrpc", JStr "2.0"); ("id", JStr "r1");
               ("method", JStr "message/send");
               ("params", JObj [("message", Fixture.wire_message);
                                ("context", JObj [("taskId", JStr "t1");
                                                  ("contextId", JStr "mine")])])]
              (JStr "r1")
              (JObj [("message", Fixture.wire_message);
                     ("context", JObj [("taskId", JStr "t1");
                                       ("contextId", JStr "mine")])])
              (JObj [("message", Fixture.wire_message);
                     ("context", JObj [("taskId", JStr "t1")])])
              "uuid-0" "uuid-1" "10:00" "10:01"
              (Core.mkWorld (Some Fixture.store1) tt)) as [Hrun _].
  - repeat split; reflexivity.
  - reflexivity.
  - exact Hrun.
Defined.

Lemma handlePostRequest_tasks_cancel_witness :
  exists st',
    Handler.handlePostRequest
      (∅ : gmap string (Core.Executor MemoryStorageAdapter.MemoryStore (list A2AEvent)))
      Fixture.recorder (fun _ => true) "" (fun _ => Fixture.typed_message)
      (Some (Fixture.rpc JNull "tasks/cancel"
               (JObj [("taskId", JStr "t1"); ("contextId", JStr "ctx");
                      ("reason", JStr "")])))
      "uuid-0" "uuid-1" "10:00" "10:01" (Core.mkWorld (Some Fixture.store1) []) =
    (Handler.SuccessResponse JNull Handler.CancelResult,
     Core.mkWorld (Some st')
       [StatusUpdate "t1" "ctx"
          (TaskStatus.mk canceled
             (Some (Message.mk "uuid-0" agent [TextPart "Task canceled" None]
                      None None None (Some []))) (Some "10:00")) false])
    /\ (TaskStatus.state ∘ Task.status) <$> Storage.getTask "t1" st' = Some canceled.
Proof.
  destruct (handlePostRequest_tasks_cancel
              (∅ : gmap string
                     (Core.Executor MemoryStorageAdapter.MemoryStore (list A2AEvent)))
              Fixture.recorder (fun _ => true) "" (fun _ => Fixture.typed_message)
              [("trace", JStr "x"); ("jsonrpc", JStr "2.0"); ("id", JNull);
               ("method", JStr "tasks/cancel");
               ("params", JObj [("taskId", JStr "t1"); ("contextId", JStr "ctx");
                                ("reason", JStr "")])]
              [("taskId", JStr "t1"); ("contextId", JStr "ctx"); ("reason", JStr "")]
              JNull "t1" "ctx" "uuid-0" "uuid-1" "10:00" "10:01" Fixture.store1 []
              [StatusUpdate "t1" "ctx"
                 (TaskStatus.mk canceled
                    (Some (Message.mk "uuid-0" agent [TextPart "Task canceled" None]
                             None None None (Some []))) (Some "10:00")) false])
    as [_ Hstored].
  - repeat split; reflexivity.
  - reflexivity.
  - reflexivity.
  - exact I.
  - reflexivity.
  - destruct (Hstored Fixture.task1 eq_refl) as (st' & Hresult & Hget & _).
    exists st'. split; [exact Hresult|]. rewrite Hget. reflexivity.
Defined.

(** * Properties of the event distribution over Redis *)

Section redis_strings.
Import RedisSSE.

Lemma prefix_append (p t : string) : String.prefix p (p +:+ t) = true.
Proof.
  induction p as [|c p IH]; simpl.
  - by destruct t.
  - destruct (Ascii.ascii_dec c c); [done|congruence].
Qed.

Lemma index_append (p t : string) : String.index 0 p (p +:+ t) = Some 0.
Proof.
  destruct (p +:+ t) as [|c s] eqn:Heq.
  - destruct p; [done|discriminate].
  - change (String.index 0 p (String c s))
      with (if String.prefix p (String c s) then Some 0
            else match String.index 0 p s with
                 | Some n => Some (S n)
                 | None => None
                 end).
    by rewrite <- Heq, prefix_append.
Qed.

Lemma substring_all (t : string) : String.substring 0 (String.length t) t = t.
Proof. induction t as [|c t IH]; simpl; [done|by rewrite IH]. Qed.

Lemma substring_append (p t : string) :
  String.substring (String.length p) (String.length (p +:+ t) - String.length p)
    (p +:+ t) = t.
Proof.
  induction p as [|c p IH]; simpl.
  - rewrite Nat.sub_0_r. apply substring_all.
  - apply IH.
Qed.

(** The taskId is recovered from the channel of the task. *)
Lemma remove_first_prefix (channelPrefix taskId : string) :
  remove_first channelPrefix (channelPrefix +:+ taskId) = taskId.
Proof.
  unfold remove_first. rewrite index_append. simpl String.substring at 1.
  assert (String.substring 0 0 (channelPrefix +:+ taskId) = "") as ->
    by by destruct (channelPrefix +:+ taskId).
  simpl. apply substring_append.
Qed.

End redis_strings.

Section redis_loop.
Import RedisSSE RedisSpec.

Implicit Types (acc : gset nat * gmap nat Stream) (c : nat) (hub : Hub).

Lemma redis_open_closed_false c hub :
  open c hub <-> closed <$> streams hub !! c = Some false.
Proof.
  unfold open. destruct (streams hub !! c) as [stream|]; simpl.
  - split; [intros (? & [= <-] & ->); done|intros [= ?]; eauto].
  - split; [intros (? & [=] & _)|done].
Qed.

Lemma redis_enqueue_step_closedness (sseMessage : string) acc (x c : nat) :
  closed <$> (enqueue_step sseMessage acc x).2 !! c = closed <$> acc.2 !! c.
Proof.
  destruct acc as [tc strs]. unfold enqueue_step. simpl.
  destruct (strs !! x) as [stream|] eqn:Hx; [|done].
  destruct (closed stream) eqn:Hclosed; [done|]. simpl.
  destruct (decide (x = c)) as [->|Hne].
  - by rewrite lookup_insert_eq, Hx; simpl; rewrite Hclosed.
  - by rewrite lookup_insert_ne.
Qed.

Lemma redis_enqueue_step_set (sseMessage : string) acc (x c : nat) :
  c ∈ (enqueue_step sseMessage acc x).1
  <-> c ∈ acc.1 /\ (c = x -> closed <$> acc.2 !! c = Some false).
Proof.
  destruct acc as [tc strs]. unfold enqueue_step. simpl.
  destruct (strs !! x) as [stream|] eqn:Hx; [destruct (closed stream) eqn:Hclosed|];
    simpl; rewrite ?elem_of_difference, ?elem_of_singleton.
  - split; [intros [? ?]; split; [done|congruence]|].
    intros [? Himp]. split; [done|]. intros ->. specialize (Himp eq_refl).
    rewrite Hx in Himp. simpl in Himp. congruence.
  - split; [intros ?; split; [done|]|tauto].
    intros ->. by rewrite Hx; simpl; rewrite Hclosed.
  - split; [intros [? ?]; split; [done|congruence]|].
    intros [? Himp]. split; [done|]. intros ->. specialize (Himp eq_refl).
    by rewrite Hx in Himp.
Qed.

(** The loop keeps, of the set it starts from, the controllers whose
    stream is open. *)
Lemma redis_enqueue_fold_set (sseMessage : string) (l : list nat) acc c :
  c ∈ (foldl (enqueue_step sseMessage) acc l).1
  <-> c ∈ acc.1 /\ (c ∈ l -> closed <$> acc.2 !! c = Some false).
Proof.
  revert acc. induction l as [|x l IH]; intros acc; simpl.
  - split; [intros ?; split; [done|]|tauto]. intros Hin. by apply elem_of_nil in Hin.
  - rewrite IH, redis_enqueue_step_set, redis_enqueue_step_closedness, elem_of_cons.
    naive_solver.
Qed.

(** The loop writes the message, once, to every open stream it visits,
    and to no other. *)
Lemma redis_enqueue_fold_stream (sseMessage : string) (l : list nat) acc c :
  NoDup l ->
  (foldl (enqueue_step sseMessage) acc l).2 !! c =
  match acc.2 !! c with
  | Some stream =>
      if bool_decide (c ∈ l) && negb (closed stream)
      then Some (mkStream (chunks stream ++ [sseMessage]) false)
      else Some stream
  | None => None
  end.
Proof.
  revert acc. induction l as [|x l IH]; intros acc Hnd; cbn [foldl].
  - destruct (acc.2 !! c); [|done]. by rewrite bool_decide_false by apply not_elem_of_nil.
  - apply NoDup_cons in Hnd as [Hx Hnd]. rewrite IH by done.
    destruct acc as [tc strs]. unfold enqueue_step. simpl.
    destruct (decide (x = c)) as [->|Hne].
    + rewrite (bool_decide_false (c ∈ l)) by done.
      rewrite (bool_decide_true (c ∈ c :: l)) by (apply elem_of_cons; by left).
      destruct (strs !! c) as [stream|] eqn:Hc; simpl; [|by rewrite Hc].
      destruct (closed stream) eqn:Hclosed; simpl.
      * by rewrite Hc.
      * by rewrite lookup_insert_eq.
    + assert (bool_decide (c ∈ x :: l) = bool_decide (c ∈ l)) as ->.
      { apply bool_decide_ext. rewrite elem_of_cons. naive_solver. }
      destruct (strs !! x) as [stream'|]; [|done].
      destruct (closed stream'); simpl; [done|]. by rewrite lookup_insert_ne.
Qed.

End redis_loop.

Section redis_sender.
Import RedisSSE.
Context {S P : Type} `{!StorageAdapter S}.
Variable publish : string -> string -> P -> Res (nat * P).
Variable properties : A2AEvent -> Fields.

Local Abbreviation sender := (createRedisSSEEventSender publish properties).


End redis_sender.

Section redis_delivery.
Import RedisSSE RedisSpec.

Implicit Types (c : nat) (hub : Hub).

Lemma on_message_unregistered (channelPrefix : option string) (taskId : string)
    (message : option Json) hub :
  registered taskId hub = ∅ ->
  on_message channelPrefix (default "a2a:task:" channelPrefix +:+ taskId) message hub =
  mkHub (activeConnections hub) (streams hub)
    (commands hub ++ [Unsubscribe (default "a2a:task:" channelPrefix +:+ taskId)]).
Proof.
  unfold registered, on_message. rewrite remove_first_prefix.
  destruct (activeConnections hub !! taskId) as [tc|]; [|done].
  simpl. intros ->. by rewrite decide_True by apply size_empty.
Qed.

Lemma on_message_registered (channelPrefix : option string) (taskId : string)
    (event : Json) hub (tc : gset nat) :
  activeConnections hub !! taskId = Some tc -> size tc <> 0 -> event <> JNull ->
  on_message channelPrefix (default "a2a:task:" channelPrefix +:+ taskId) (Some event) hub =
  let sseMessage := formatSSEMessage (template (Handler.prop "type" event)) event in
  let channel := default "a2a:task:" channelPrefix +:+ taskId in
  let '(controllers, strs) :=
    foldl (enqueue_step sseMessage) (tc, streams hub) (elements tc) in
  if decide (size controllers = 0)
  then mkHub (delete taskId (activeConnections hub)) strs
             (commands hub ++ [Unsubscribe channel])
  else mkHub (<[taskId := controllers]> (activeConnections hub)) strs (commands hub).
Proof.
  intros Hconn Hsize Hevent. unfold on_message. rewrite remove_first_prefix, Hconn.
  rewrite decide_False by done. by destruct event.
Qed.

(** A message is written to an open stream that is registered for the
    task of its channel. *)
Lemma on_message_open (channelPrefix : option string) (taskId : string)
    (event : Json) hub c (stream : Stream) :
  event <> JNull ->
  c ∈ registered taskId hub ->
  streams hub !! c = Some stream -> closed stream = false ->
  streams (on_message channelPrefix (default "a2a:task:" channelPrefix +:+ taskId)
             (Some event) hub) !! c =
  Some (mkStream (chunks stream
                  ++ [formatSSEMessage (template (Handler.prop "type" event)) event])
          false).
Proof.
  intros Hevent Hin Hc Hopen. unfold registered in Hin.
  destruct (activeConnections hub !! taskId) as [tc|] eqn:Hconn;
    [|by apply elem_of_empty in Hin].
  simpl in Hin.
  assert (size tc <> 0) as Hsize.
  { by apply (size_nonzero_elem _ c). }
  rewrite (on_message_registered _ _ _ _ tc) by done. cbv zeta.
  set (sseMessage := formatSSEMessage _ event).
  pose proof (redis_enqueue_fold_stream sseMessage (elements tc) (tc, streams hub) c
                (NoDup_elements tc)) as Hstream.
  destruct (foldl _ _ _) as [tc' strs']. simpl in Hstream.
  rewrite Hc, Hopen in Hstream.
  rewrite bool_decide_eq_true_2 in Hstream by by apply elem_of_elements.
  by destruct (decide (size tc' = 0)).
Qed.

(** Delivery of a message received on the channel of a task.  When no
    stream is registered for the task the handler only unsubscribes
    from the channel.  Otherwise a text that does not parse, and the
    message [null], change nothing; any other message is written, once,
    to every open stream registered for the task, framed under the
    [type] of the message, which reads "undefined" when the message has
    none, as for every payload of the Redis event sender made from an
    event without a property [type].  Streams that are closed are
    dropped from the task, and when none is left the task is forgotten
    and the channel unsubscribed.  Other tasks are not touched. *)
Theorem redis_message_delivery (channelPrefix : option string) (taskId : string) hub :
  let channel := default "a2a:task:" channelPrefix +:+ taskId in
  (registered taskId hub = ∅ ->
     forall message,
       on_message channelPrefix channel message hub =
       mkHub (activeConnections hub) (streams hub)
         (commands hub ++ [Unsubscribe channel]))
  /\ (registered taskId hub <> ∅ ->
      on_message channelPrefix channel None hub = hub
      /\ on_message channelPrefix channel (Some JNull) hub = hub
      /\ forall event, event <> JNull ->
           let hub' := on_message channelPrefix channel (Some event) hub in
           let sseMessage :=
             formatSSEMessage (template (Handler.prop "type" event)) event in
           (forall c, c ∈ registered taskId hub'
                      <-> c ∈ registered taskId hub /\ open c hub)
           /\ (forall c stream,
                 streams hub !! c = Some stream ->
                 streams hub' !! c =
                   Some (if bool_decide (c ∈ registered taskId hub)
                            && negb (closed stream)
                         then mkStream (chunks stream ++ [sseMessage]) false
                         else stream))
           /\ commands hub' =
                commands hub
                ++ (if decide (registered taskId hub' = ∅)
                    then [Unsubscribe channel] else [])
           /\ (forall other, other <> taskId ->
                 activeConnections hub' !! other = activeConnections hub !! other)
           /\ (forall (properties : A2AEvent -> Fields) published now,
                 obj_get "type" (properties published) = None ->
                 event = payload properties published now ->
                 sseMessage = formatSSEMessage "undefined" event)).
Proof.
  intros channel. subst channel.
  split; [intros Hnone message; by apply on_message_unregistered|].
  intros Hsome.
  destruct (activeConnections hub !! taskId) as [tc|] eqn:Hconn;
    [|by unfold registered in Hsome; rewrite Hconn in Hsome].
  assert (registered taskId hub = tc) as Hreg by (unfold registered; by rewrite Hconn).
  rewrite Hreg in *.
  assert (size tc <> 0) as Hsize.
  { intros Hzero. apply size_empty_iff in Hzero. by apply leibniz_equiv in Hzero. }
  split; [|split].
  - unfold on_message. rewrite remove_first_prefix, Hconn. by rewrite decide_False.
  - unfold on_message. rewrite remove_first_prefix, Hconn. by rewrite decide_False.
  - intros event Hevent hub' sseMessage.
    assert (forall c, c ∈ registered taskId hub' <-> c ∈ tc /\ open c hub) as Hmembers.
    { intros c. rewrite redis_open_closed_false.
      unfold hub'. rewrite (on_message_registered _ _ _ _ tc) by done. cbv zeta.
      pose proof (redis_enqueue_fold_set sseMessage (elements tc) (tc, streams hub) c)
        as Hset.
      fold sseMessage. destruct (foldl _ _ _) as [tc' strs']. simpl in Hset.
      rewrite elem_of_elements in Hset. unfold registered.
      destruct (decide (size tc' = 0)) as [Hzero|Hnonzero]; cbn [activeConnections].
      - rewrite lookup_delete_eq. simpl. apply size_empty_iff in Hzero.
        apply leibniz_equiv in Hzero. subst tc'. rewrite elem_of_empty in *. tauto.
      - rewrite lookup_insert_eq. simpl. rewrite Hset. tauto. }
    split; [exact Hmembers|]. split; [|split; [|split]].
    + intros c stream Hc. unfold hub'.
      rewrite (on_message_registered _ _ _ _ tc) by done. cbv zeta.
      pose proof (redis_enqueue_fold_stream sseMessage (elements tc) (tc, streams hub) c
                    (NoDup_elements tc)) as Hstream.
      fold sseMessage. destruct (foldl _ _ _) as [tc' strs']. simpl in Hstream.
      rewrite Hc in Hstream.
      assert (bool_decide (c ∈ elements tc) = bool_decide (c ∈ tc)) as Heq
        by (apply bool_decide_ext; apply elem_of_elements).
      rewrite Heq in Hstream.
      destruct (decide (size tc' = 0)); cbn [streams]; rewrite Hstream;
        by destruct (bool_decide (c ∈ tc) && negb (closed stream)).
    + assert (registered taskId hub' = ∅ <-> size (registered taskId hub') = 0)
        as Hempty.
      { rewrite size_empty_iff. split; [by intros ->|apply leibniz_equiv]. }
      revert Hempty. unfold hub', registered.
      rewrite (on_message_registered _ _ _ _ tc) by done. cbv zeta.
      fold sseMessage. destruct (foldl _ _ _) as [tc' strs'].
      destruct (decide (size tc' = 0)) as [Hzero|Hnonzero];
        cbn [activeConnections commands].
      * rewrite lookup_delete_eq. simpl. intros _. by rewrite decide_True.
      * rewrite lookup_insert_eq. simpl. intros Hempty.
        rewrite decide_False by by rewrite Hempty. by rewrite app_nil_r.
    + intros other Hother. unfold hub'.
      rewrite (on_message_registered _ _ _ _ tc) by done. cbv zeta.
      fold sseMessage. destruct (foldl _ _ _) as [tc' strs'].
      destruct (decide (size tc' = 0)); cbn [activeConnections];
        by rewrite ?lookup_delete_ne, ?lookup_insert_ne by done.
    + intros properties published now Htype ->. unfold sseMessage.
      unfold payload, Handler.prop.
      rewrite obj_get_obj_spread by apply NoDup_singleton. simpl.
      by rewrite Htype.
Qed.

End redis_delivery.

Section redis_handler.
Import RedisSSE RedisSpec.
Context {S : Type} `{!StorageAdapter S}.

Implicit Types (c : nat) (hub : Hub).

(** Opening the event stream of a task over Redis.  Without a [taskId]
    the handler answers 400.  For a task that is not stored, and without
    storage, it throws the "Task not found" of the instance: it has no
    404 to give, and nothing is registered or subscribed.  For a stored
    task it answers with a new stream, registered for the task and
    still empty, and asks for the subscription to the channel of the
    task; the storage is not written.  The [connected] event is written
    when the subscription resolves: first on the stream if nothing came
    in between, after the message if one did; if the subscription fails
    it is never written, and the stream is closed but still registered. *)
Theorem createRedisSSEHandler_request (channelPrefix : option string)
    (request : SSE.Request) (w : Core.World S Hub) :
  let result := createRedisSSEHandler channelPrefix request w in
  (truthy (SSE.query_taskId request) = false ->
     result = (Ok (BadRequest "Missing taskId parameter"), w))
  /\ (forall taskId, SSE.query_taskId request = Some taskId -> taskId <> "" ->
        let channel := default "a2a:task:" channelPrefix +:+ taskId in
        let connected := formatSSEMessage "connected" (JObj [("taskId", JStr taskId)]) in
        (Core.storage w ≫= Storage.getTask taskId = None ->
           result = (Err (TaskNotFound taskId), w))
        /\ (forall task, Core.storage w ≫= Storage.getTask taskId = Some task ->
              exists c hub',
                result = (Ok (EventStream c), Core.mkWorld (Core.storage w) hub')
                /\ streams (Core.channel w) !! c = None
                /\ registered taskId hub' = registered taskId (Core.channel w) ∪ {[c]}
                /\ streams hub' !! c = Some (mkStream [] false)
                /\ commands hub' = commands (Core.channel w) ++ [Subscribe channel]
                /\ streams (subscribed taskId c hub') !! c =
                     Some (mkStream [connected] false)
                /\ (forall event, event <> JNull ->
                      streams (subscribed taskId c
                                 (on_message channelPrefix channel (Some event) hub'))
                        !! c =
                      Some (mkStream
                              [formatSSEMessage (template (Handler.prop "type" event))
                                 event; connected] false))
                /\ streams (subscribe_failed c hub') !! c = Some (mkStream [] true)
                /\ c ∈ registered taskId (subscribe_failed c hub'))).
Proof.
  intros result. split.
  - intros Hfalsy. unfold result, createRedisSSEHandler. by rewrite Hfalsy.
  - intros taskId Htask Hne channel connected.
    unfold result, createRedisSSEHandler. rewrite Htask.
    rewrite truthy_Some by done. cbn [negb].
    change (default "" (Some taskId)) with taskId. unfold Core.getTask. split.
    + by intros ->.
    + intros task ->.
      set (c := fresh (dom (streams (Core.channel w)))).
      set (hub' := mkHub _ _ _).
      assert (streams hub' !! c = Some (mkStream [] false)) as Hc
        by (unfold hub'; cbn [streams]; by rewrite lookup_insert_eq).
      assert (registered taskId hub' = registered taskId (Core.channel w) ∪ {[c]})
        as Hreg by (unfold registered, hub'; cbn [activeConnections];
                    by rewrite lookup_insert_eq).
      exists c, hub'. split; [reflexivity|].
      split; [apply not_elem_of_dom, is_fresh|].
      split; [exact Hreg|]. split; [exact Hc|]. split; [reflexivity|].
      split; [|split; [|split]].
      * unfold subscribed. rewrite Hc. cbn [closed streams chunks].
        by rewrite lookup_insert_eq.
      * intros event Hevent.
        assert (c ∈ registered taskId hub') as Hin
          by (rewrite Hreg, elem_of_union, elem_of_singleton; by right).
        pose proof (on_message_open channelPrefix taskId event hub' c _ Hevent Hin Hc
                      eq_refl) as Hsent.
        unfold subscribed. fold channel in Hsent. rewrite Hsent.
        cbn [closed streams chunks]. by rewrite lookup_insert_eq.
      * unfold subscribe_failed. rewrite Hc. cbn [streams chunks].
        by rewrite lookup_insert_eq.
      * unfold subscribe_failed. rewrite Hc. unfold registered.
        cbn [activeConnections]. fold (registered taskId hub'). rewrite Hreg.
        rewrite elem_of_union, elem_of_singleton. by right.
Qed.

End redis_handler.

Section redis_abort.
Import RedisSSE RedisSpec.

Implicit Types (c : nat) (hub : Hub).

(** A message is never written to a stream that is closed. *)
Lemma on_message_closed (channelPrefix : option string) (channel : string)
    (message : option Json) hub c :
  (forall stream, streams hub !! c = Some stream -> closed stream = true) ->
  streams (on_message channelPrefix channel message hub) !! c = streams hub !! c.
Proof.
  intros Hclosed. unfold on_message.
  destruct (activeConnections hub !! _) as [tc|]; [|done].
  destruct (decide (size tc = 0)); [done|].
  destruct message as [event|]; [|done].
  assert (forall sseMessage,
            (foldl (enqueue_step sseMessage) (tc, streams hub) (elements tc)).2 !! c =
            streams hub !! c) as Hfold.
  { intros sseMessage.
    rewrite (redis_enqueue_fold_stream sseMessage (elements tc) (tc, streams hub) c
               (NoDup_elements tc)). simpl.
    destruct (streams hub !! c) as [stream|] eqn:Hc; [|done].
    by rewrite (Hclosed stream eq_refl), andb_false_r. }
  destruct event; try done;
    match goal with |- context [foldl (enqueue_step ?m) _ _] =>
      specialize (Hfold m); destruct (foldl (enqueue_step m) _ _) as [tc' strs'] end;
    by destruct (decide (size tc' = 0)).
Qed.

Lemma redis_abort_streams (channelPrefix : option string) (taskId : string) c hub :
  streams (abort channelPrefix taskId c hub) =
  match streams hub !! c with
  | Some stream => <[c := mkStream (chunks stream) true]> (streams hub)
  | None => streams hub
  end.
Proof.
  unfold abort. destruct (activeConnections hub !! taskId) as [tc|]; [|done].
  by destruct (decide (size (tc ∖ {[c]}) = 0)).
Qed.

(** When the client goes away, over Redis.  The stream is unregistered
    and closed, with what was written to it kept, and from then on
    nothing is written to it, neither by the heartbeat nor by a message
    of whatever channel.  The other streams of the task stay
    registered; when the stream was the last of its task the channel is
    unsubscribed, and otherwise no command is sent. *)
Theorem redis_abort_ends_stream (channelPrefix : option string) (taskId : string)
    c hub :
  let hub' := abort channelPrefix taskId c hub in
  let channel := default "a2a:task:" channelPrefix +:+ taskId in
  (forall c', c' ∈ registered taskId hub' <-> c' ∈ registered taskId hub /\ c' <> c)
  /\ (forall stream, streams hub !! c = Some stream ->
        streams hub' !! c = Some (mkStream (chunks stream) true))
  /\ heartbeat c hub' = hub'
  /\ (forall channel' message,
        streams (on_message channelPrefix channel' message hub') !! c =
        streams hub' !! c)
  /\ commands hub' =
       commands hub
       ++ (if decide (is_Some (activeConnections hub !! taskId)
                      /\ registered taskId hub' = ∅)
           then [Unsubscribe channel] else []).
Proof.
  intros hub' channel.
  assert (forall stream, streams hub' !! c = Some stream -> closed stream = true)
    as Hclosed.
  { intros stream. unfold hub'. rewrite redis_abort_streams.
    destruct (streams hub !! c) as [stream0|] eqn:Hc; [|by rewrite Hc].
    rewrite lookup_insert_eq. by intros [= <-]. }
  split; [|split; [|split; [|split]]].
  - intros c'. unfold hub', registered, abort.
    destruct (activeConnections hub !! taskId) as [tc|] eqn:Hconn.
    + destruct (decide (size (tc ∖ {[c]}) = 0)) as [Hsize|Hsize];
        cbn [activeConnections].
      * rewrite lookup_delete_eq. simpl. apply size_empty_iff in Hsize.
        rewrite elem_of_empty. split; [done|]. intros [Hin Hne].
        apply (elem_of_empty (C := gset nat) c'), (Hsize c').
        by rewrite elem_of_difference, elem_of_singleton.
      * rewrite lookup_insert_eq. simpl.
        by rewrite elem_of_difference, elem_of_singleton.
    + cbn [activeConnections]. rewrite Hconn. simpl. rewrite elem_of_empty. tauto.
  - intros stream Hc. unfold hub'. rewrite redis_abort_streams, Hc.
    by rewrite lookup_insert_eq.
  - unfold heartbeat. destruct (streams hub' !! c) as [stream|] eqn:Hc; [|done].
    by rewrite (Hclosed stream eq_refl).
  - intros channel' message. by apply on_message_closed.
  - unfold hub', registered, abort.
    destruct (activeConnections hub !! taskId) as [tc|] eqn:Hconn.
    + destruct (decide (size (tc ∖ {[c]}) = 0)) as [Hsize|Hsize];
        cbn [activeConnections commands].
      * rewrite lookup_delete_eq. simpl. by rewrite decide_True by eauto.
      * rewrite lookup_insert_eq. simpl. rewrite decide_False; [by rewrite app_nil_r|].
        intros [_ Hempty]. rewrite Hempty in Hsize. by rewrite size_empty in Hsize.
    + cbn [activeConnections commands]. rewrite decide_False; [by rewrite app_nil_r|].
      by intros [[? [=]] _].
Qed.

End redis_abort.

(** A status-update that comes in over Redis reaches the observer under
    the event name "undefined", its lines separated by a backslash and
    an n. *)
Example redis_frame_of_status_update :
  RedisSSE.streams
    (RedisSSE.on_message None "a2a:task:t1" (Some Fixture.published) Fixture.hub1) !! 0 =
  Some (RedisSSE.mkStream
          ["event: undefined\ndata: " +:+ JSON_stringify Fixture.published +:+ "\n\n"]
          false).
Proof. by vm_compute. Qed.
